(** * Audience Multiplayer: the session orchestration engine

    A shallow embedding of the background service worker of the
    extension (src/extension/background): the submission ledger
    (voting.js), the phase state machine (state.js), the pausable timers
    (pause.js), the recursive batch merge (openrouter.js) and the
    orchestrator that ties them to chat events (index.js).

    Conventions of the embedding.
    - A JavaScript string is a [string]; each character stands for one
      UTF-16 code unit below 256, so [String.length] is the [.length]
      of the source.
    - A JavaScript number that the code only uses as an integer
      (timestamps and durations in milliseconds, vote counts) is a [Z];
      [null]/[undefined] is [None].
    - The mutable [state] object, the pending [setTimeout] callbacks and
      the messages sent to the collaborators are threaded explicitly as
      a [World].
    - [Date.now()] is an argument [now] of each handler: one handler
      runs at one instant. *)

From stdpp Require Import base strings gmap list pretty.
From Stdlib Require Import ZArith Lia Ascii.

Local Open Scope Z_scope.

(** ** JavaScript primitives *)
Module Js.

(** Truthiness of a [number|null] ([if (x)], [x || y]): [null] and [0]
    are falsy. *)
Definition truthy (x : option Z) : bool :=
  match x with
  | Some n => negb (n =? 0)
  | None => false
  end.

(** [x || y] where [x : number|undefined] and [y : number]. *)
Definition or_else (x : option Z) (y : Z) : Z :=
  match x with
  | Some n => if n =? 0 then y else n
  | None => y
  end.

(** Truthiness of a string: only the empty string is falsy. *)
Definition nonempty (s : string) : bool :=
  match s with
  | EmptyString => false
  | String _ _ => true
  end.

(** [s || d] on strings. *)
Definition str_or (s d : string) : string :=
  if nonempty s then s else d.

Definition code (c : ascii) : N := Ascii.N_of_ascii c.

(** Code units with a lower-case counterpart: A-Z and the Latin-1
    capitals U+00C0..U+00DE except the multiplication sign U+00D7. *)
Definition is_upper (c : ascii) : bool :=
  let n := code c in
  (((65 <=? n) && (n <=? 90)) ||
   ((192 <=? n) && (n <=? 222) && negb (n =? 215)))%N.

Definition lower_char (c : ascii) : ascii :=
  if is_upper c then Ascii.ascii_of_N (code c + 32) else c.

(** [String.prototype.toLowerCase]. *)
Fixpoint toLowerCase (s : string) : string :=
  match s with
  | EmptyString => EmptyString
  | String c r => String (lower_char c) (toLowerCase r)
  end.

(** The regular-expression class [\s], which is also the set that
    [trim] strips: TAB, LF, VT, FF, CR, space and NBSP. *)
Definition is_space (c : ascii) : bool :=
  let n := code c in
  (((9 <=? n) && (n <=? 13)) || (n =? 32) || (n =? 160))%N.

(** Line terminators, the characters that [.] does not match. *)
Definition is_line_terminator (c : ascii) : bool :=
  let n := code c in ((n =? 10) || (n =? 13))%N.

(** The class [\w]: letters, digits and the underscore. *)
Definition is_word (c : ascii) : bool :=
  let n := code c in
  (((48 <=? n) && (n <=? 57)) || ((65 <=? n) && (n <=? 90)) ||
   (n =? 95) || ((97 <=? n) && (n <=? 122)))%N.

Fixpoint trimStart (s : string) : string :=
  match s with
  | EmptyString => EmptyString
  | String c r => if is_space c then trimStart r else s
  end.

(** Drops trailing white space: a character is kept when it is not a
    space or when something survives after it. *)
Fixpoint trimEnd (s : string) : string :=
  match s with
  | EmptyString => EmptyString
  | String c r =>
      match trimEnd r with
      | EmptyString => if is_space c then EmptyString else String c EmptyString
      | r' => String c r'
      end
  end.

(** [String.prototype.trim]. *)
Definition trim (s : string) : string := trimEnd (trimStart s).

Fixpoint all_chars (p : ascii -> bool) (s : string) : bool :=
  match s with
  | EmptyString => true
  | String c r => p c && all_chars p r
  end.

(** [Array.prototype.join]. *)
Fixpoint join (sep : string) (l : list string) : string :=
  match l with
  | [] => EmptyString
  | [x] => x
  | x :: r => x +:+ sep +:+ join sep r
  end.

(** [Array.prototype.find]: the index and value of the first element
    that satisfies the predicate. The index stands for the reference
    to the object inside the array, which the caller mutates. *)
Fixpoint find_index {A} (p : A -> bool) (l : list A) : option (nat * A) :=
  match l with
  | [] => None
  | x :: r =>
      if p x then Some (O, x)
      else match find_index p r with
           | Some (i, y) => Some (S i, y)
           | None => None
           end
  end.

(** [Array.prototype.sort(cmp)]: the sort is stable and puts [a]
    before [b] when [cmp a b < 0]. [insert_sorted x l] puts [x], which
    came before every element of [l] in the input, in front of the
    first element that does not have to precede it. *)
Fixpoint insert_sorted {A} (cmp : A -> A -> Z) (x : A) (l : list A) : list A :=
  match l with
  | [] => [x]
  | y :: r => if 0 <? cmp x y then y :: insert_sorted cmp x r else x :: l
  end.

Definition sort {A} (cmp : A -> A -> Z) (l : list A) : list A :=
  foldr (insert_sorted cmp) [] l.

End Js.

(** ** constants.js *)
Module Constants.
Definition MAX_SUBMISSION_LENGTH : nat := 200.
Definition DEFAULT_MODEL : string := "deepseek/deepseek-v3.2".
Definition DEFAULT_VOTE_DURATION_SECONDS : Z := 40.
Definition DEFAULT_MAX_TOKENS : Z := 150.
Definition DEFAULT_PARTY_MEMBER_NAME : string := "Elara".
Definition MIN_VOTE_DURATION_SECONDS : Z := 5.
Definition MIN_AUTO_REPEAT_SECONDS : Z := 20.
End Constants.

(** ** types.js *)
Module Types.

Record Config := mkConfig {
  openRouterApiKey : string;
  model : string;
  voteDurationSeconds : Z;
  maxTokens : Z;
  debugMode : bool;
  partyMemberName : string;
  youtubeUrl : string;
  autoRepeatCooldownSeconds : option Z
}.

(** A submission of the vote phase. [votes] is the [Set] of lower-case
    voter names; [debugVoteCount] is the optional debug counter. *)
Record Submission := mkSubmission {
  user : string;
  text : string;
  timestamp : Z;
  votes : gset string;
  debugVoteCount : option Z
}.

Record ContextSection := mkSection {
  sectionType : string;
  sectionText : string
}.

(** [contextSections] is [None] when the property is missing. *)
Record AIDContext := mkContext {
  contextSections : option (list ContextSection)
}.

Record AICallDebug := mkDebug {
  dbgSystemPrompt : string;
  dbgUserPrompt : string;
  dbgResponse : string;
  dbgModel : string;
  dbgTimestamp : Z
}.

Inductive Phase := idle | vote | combine.

(** The fields of the state object that the engine reads or writes.
    The connection fields (sockets, tokens, ids, YouTube status) belong
    to the transports and are left out. Timer handles are the positive
    integers returned by [setTimeout]. *)
Record State := mkState {
  phase : Phase;
  submissions : list Submission;
  context : option AIDContext;
  voteTimer : option positive;
  autoRepeatTimer : option positive;
  voteEndTime : option Z;
  nextVoteStartTime : option Z;
  isPaused : bool;
  pausedVoteRemaining : option Z;
  pausedAutoRepeatRemaining : option Z;
  lastAICall : option AICallDebug;
  config : Config
}.

(** A [Partial<Config>]: the properties that are present. *)
Record ConfigUpdates := mkUpdates {
  updOpenRouterApiKey : option string;
  updModel : option string;
  updVoteDurationSeconds : option Z;
  updMaxTokens : option Z;
  updDebugMode : option bool;
  updPartyMemberName : option string;
  updYoutubeUrl : option string;
  updAutoRepeatCooldownSeconds : option (option Z)
}.

Record TwitchMessage := mkTwitchMessage {
  msgUser : string;
  msgText : string;
  isBroadcaster : bool;
  isMod : bool
}.

(** The outcome of awaiting a promise. *)
Inductive Completion (A : Type) :=
| Resolved (a : A)
| Rejected (message : string).
Arguments Resolved {A} a.
Arguments Rejected {A} message.

Record MergeResult := mkMergeResult {
  result : string;
  debugInfo : option AICallDebug
}.

(** The chat messages, by template and interpolated values: those of
    the engine, and [ActionSubmitted], the line that [submitToAID] of
    aid.js sends through the [sendTwitchMessage] callback it is given
    once the game client has accepted the action. *)
Inductive Notice :=
| NoSubmissions
| Winner (winnerText : string) (winnerVotes : Z)
| Combined (label partyName combined : string)
| ErrorNotice (message : string)
| VotingStarted (duration : Z)
| VotingClosed (count : nat) (action : string)
| ActionSubmitted.

(** The dependencies injected into [combineSubmissions].
    [submitToAID state text sendTwitchMessage] gives the messages it
    sends through the callback, in order, and how its promise settles;
    the one of aid.js sends [ActionSubmitted] as its last statement, so
    only when it resolves. *)
Record VotingDeps := mkDeps {
  submitToAID : State -> string -> list Notice * Completion unit;
  recursiveMerge :
    Config -> option AIDContext -> list Submission -> option string ->
    Completion MergeResult;
  fetchMostRecentAction : State -> option string
}.

#[global] Instance Phase_eq_dec : EqDecision Phase.
Proof. solve_decision. Defined.

End Types.

(** ** The runtime around the state object *)
Module Runtime.
Import Types.

(** Field assignments, [state.f = v]. *)
Definition set_phase (v : Phase) (s : State) : State :=
  mkState v (submissions s) (context s) (voteTimer s) (autoRepeatTimer s)
    (voteEndTime s) (nextVoteStartTime s) (isPaused s)
    (pausedVoteRemaining s) (pausedAutoRepeatRemaining s) (lastAICall s)
    (config s).
Definition set_submissions (v : list Submission) (s : State) : State :=
  mkState (phase s) v (context s) (voteTimer s) (autoRepeatTimer s)
    (voteEndTime s) (nextVoteStartTime s) (isPaused s)
    (pausedVoteRemaining s) (pausedAutoRepeatRemaining s) (lastAICall s)
    (config s).
Definition set_voteTimer (v : option positive) (s : State) : State :=
  mkState (phase s) (submissions s) (context s) v (autoRepeatTimer s)
    (voteEndTime s) (nextVoteStartTime s) (isPaused s)
    (pausedVoteRemaining s) (pausedAutoRepeatRemaining s) (lastAICall s)
    (config s).
Definition set_autoRepeatTimer (v : option positive) (s : State) : State :=
  mkState (phase s) (submissions s) (context s) (voteTimer s) v
    (voteEndTime s) (nextVoteStartTime s) (isPaused s)
    (pausedVoteRemaining s) (pausedAutoRepeatRemaining s) (lastAICall s)
    (config s).
Definition set_voteEndTime (v : option Z) (s : State) : State :=
  mkState (phase s) (submissions s) (context s) (voteTimer s)
    (autoRepeatTimer s) v (nextVoteStartTime s) (isPaused s)
    (pausedVoteRemaining s) (pausedAutoRepeatRemaining s) (lastAICall s)
    (config s).
Definition set_nextVoteStartTime (v : option Z) (s : State) : State :=
  mkState (phase s) (submissions s) (context s) (voteTimer s)
    (autoRepeatTimer s) (voteEndTime s) v (isPaused s)
    (pausedVoteRemaining s) (pausedAutoRepeatRemaining s) (lastAICall s)
    (config s).
Definition set_isPaused (v : bool) (s : State) : State :=
  mkState (phase s) (submissions s) (context s) (voteTimer s)
    (autoRepeatTimer s) (voteEndTime s) (nextVoteStartTime s) v
    (pausedVoteRemaining s) (pausedAutoRepeatRemaining s) (lastAICall s)
    (config s).
Definition set_pausedVoteRemaining (v : option Z) (s : State) : State :=
  mkState (phase s) (submissions s) (context s) (voteTimer s)
    (autoRepeatTimer s) (voteEndTime s) (nextVoteStartTime s) (isPaused s)
    v (pausedAutoRepeatRemaining s) (lastAICall s) (config s).
Definition set_pausedAutoRepeatRemaining (v : option Z) (s : State) : State :=
  mkState (phase s) (submissions s) (context s) (voteTimer s)
    (autoRepeatTimer s) (voteEndTime s) (nextVoteStartTime s) (isPaused s)
    (pausedVoteRemaining s) v (lastAICall s) (config s).
Definition set_lastAICall (v : option AICallDebug) (s : State) : State :=
  mkState (phase s) (submissions s) (context s) (voteTimer s)
    (autoRepeatTimer s) (voteEndTime s) (nextVoteStartTime s) (isPaused s)
    (pausedVoteRemaining s) (pausedAutoRepeatRemaining s) v (config s).

Definition set_context (v : option AIDContext) (s : State) : State :=
  mkState (phase s) (submissions s) v (voteTimer s) (autoRepeatTimer s)
    (voteEndTime s) (nextVoteStartTime s) (isPaused s)
    (pausedVoteRemaining s) (pausedAutoRepeatRemaining s) (lastAICall s)
    (config s).
Definition set_config (v : Config) (s : State) : State :=
  mkState (phase s) (submissions s) (context s) (voteTimer s)
    (autoRepeatTimer s) (voteEndTime s) (nextVoteStartTime s) (isPaused s)
    (pausedVoteRemaining s) (pausedAutoRepeatRemaining s) (lastAICall s) v.

Definition set_votes (v : gset string) (s : Submission) : Submission :=
  mkSubmission (user s) (text s) (timestamp s) v (debugVoteCount s).
Definition set_debugVoteCount (v : option Z) (s : Submission) : Submission :=
  mkSubmission (user s) (text s) (timestamp s) (votes s) v.

(** The functions of index.js that are handed to [setTimeout] and to
    pause.js as callbacks. *)
Inductive Handler := HandleStartVote | HandleEndVote.

(** A scheduled callback: either a handler itself, or the closure
    [() => { state.nextVoteStartTime = null; state.autoRepeatTimer = null; h(); }]. *)
Inductive Callback :=
| Direct (h : Handler)
| AutoRepeatThen (h : Handler).

(** A pending [setTimeout(callback, delay)] issued at instant [setAt]. *)
Record Timeout := mkTimeout {
  handle : positive;
  callback : Callback;
  setAt : Z;
  delay : Z
}.

(** What the engine sends to its collaborators, oldest first. *)
Inductive Effect :=
| SendTwitchMessage (n : Notice)
| BroadcastState
| SubmitToAID (actionText : string).

Record World := mkWorld {
  state : State;
  timeouts : list Timeout;
  nextHandle : positive;
  effects : list Effect
}.

Definition with_state (f : State -> State) (w : World) : World :=
  mkWorld (f (state w)) (timeouts w) (nextHandle w) (effects w).

Definition emit (e : Effect) (w : World) : World :=
  mkWorld (state w) (timeouts w) (nextHandle w) (effects w ++ [e]).

(** [sendTwitchMessage] called on each message in turn. *)
Definition sendAll (ns : list Notice) (w : World) : World :=
  mkWorld (state w) (timeouts w) (nextHandle w)
    (effects w ++ map SendTwitchMessage ns).

(** [setTimeout(cb, ms)] at instant [now]: a fresh handle. The delay
    is recorded as the code passes it; the conversion of the runtime to
    a 32-bit integer is not modelled. *)
Definition setTimeout (cb : Callback) (ms now : Z) (w : World) : positive * World :=
  (nextHandle w,
   mkWorld (state w) (timeouts w ++ [mkTimeout (nextHandle w) cb now ms])
     (Pos.succ (nextHandle w)) (effects w)).

(** [clearTimeout(h)]: the callback will not run. *)
Definition clearTimeout (h : positive) (w : World) : World :=
  mkWorld (state w)
    (filter (fun t => handle t ≠ h) (timeouts w))
    (nextHandle w) (effects w).

Definition pending (h : positive) (w : World) : Prop :=
  ∃ t, t ∈ timeouts w ∧ handle t = h.

End Runtime.

(** ** voting.js *)
Module Voting.
Import Types Runtime Constants.

Definition same_user (name : string) (s : Submission) : bool :=
  String.eqb (Js.toLowerCase (user s)) (Js.toLowerCase name).

Definition handleSubmission (now : Z) (st : State) (user text : string)
    (debugMode : bool) : State :=
  if ((String.length text =? 0) || (MAX_SUBMISSION_LENGTH <? String.length text))%nat
  then st
  else if debugMode then
    set_submissions
      (submissions st ++
         [mkSubmission user text now {[Js.toLowerCase user]} None]) st
  else
    match Js.find_index (same_user user) (submissions st) with
    | Some (i, existing) =>
        set_submissions
          (<[i := mkSubmission (Types.user existing) text now
                    ({[Js.toLowerCase user]} ∪ votes existing)
                    (debugVoteCount existing)]> (submissions st)) st
    | None =>
        set_submissions
          (submissions st ++
             [mkSubmission user text now {[Js.toLowerCase user]} None]) st
    end.

Definition handleVote (st : State) (voter targetUser : string)
    (debugMode : bool) : State :=
  match Js.find_index (same_user targetUser) (submissions st) with
  | None => st
  | Some (i, submission) =>
      let alreadyVoted := bool_decide (Js.toLowerCase voter ∈ votes submission) in
      if debugMode || negb alreadyVoted then
        let added := set_votes ({[Js.toLowerCase voter]} ∪ votes submission) submission in
        let counted :=
          if debugMode && alreadyVoted then
            set_debugVoteCount
              (Some (Js.or_else (debugVoteCount added)
                       (Z.of_nat (size (votes added))) + 1)) added
          else added in
        set_submissions (<[i := counted]> (submissions st)) st
      else st
  end.

Definition setVoteTimer (now : Z) (onTimeout : Callback) (w : World) : World :=
  let duration := Z.max (voteDurationSeconds (config (state w))) MIN_VOTE_DURATION_SECONDS in
  let '(h, w1) := setTimeout onTimeout (duration * 1000) now w in
  with_state (set_voteTimer (Some h)) w1.

Definition getVoteCount (submission : Submission) : Z :=
  Js.or_else (debugVoteCount submission) (Z.of_nat (size (votes submission))).

(** The comparator of the tally sort. *)
Definition byVotesThenRecency (a b : Submission) : Z :=
  let voteDiff := getVoteCount b - getVoteCount a in
  if negb (voteDiff =? 0) then voteDiff else timestamp b - timestamp a.

(** [try { await deps.submitToAID(state, text, callbacks.sendTwitchMessage); }
     catch (err) { callbacks.sendTwitchMessage(... err.message ...); }]:
    the messages that the call sends through the callback, then the
    error line when it rejects. *)
Definition settle (r : list Notice * Completion unit) (w : World) : World :=
  let w1 := sendAll (fst r) w in
  match snd r with
  | Resolved _ => w1
  | Rejected message => emit (SendTwitchMessage (ErrorNotice message)) w1
  end.

Definition combineSubmissions (w : World) (deps : VotingDeps) : World :=
  let st := state w in
  match submissions st with
  | [] => emit (SendTwitchMessage NoSubmissions) w
  | first :: _ =>
      let hasApiKey := Js.nonempty (openRouterApiKey (config st)) in
      if negb hasApiKey then
        let sorted := Js.sort byVotesThenRecency (submissions st) in
        let winner := hd first sorted in
        let winnerVotes := getVoteCount winner in
        let w1 := emit (SendTwitchMessage (Winner (text winner) winnerVotes)) w in
        let w2 := emit (SubmitToAID (text winner)) w1 in
        settle (submitToAID deps st (text winner)) w2
      else
        let mostRecentAction := fetchMostRecentAction deps st in
        match recursiveMerge deps (config st) (context st) (submissions st)
                mostRecentAction with
        | Rejected message => emit (SendTwitchMessage (ErrorNotice message)) w
        | Resolved merged =>
            let w1 :=
              match debugInfo merged with
              | Some d => with_state (set_lastAICall (Some d)) w
              | None => w
              end in
            let label :=
              if (length (submissions st) =? 1)%nat then "Action" else "Combined" in
            let partyName :=
              Js.str_or (partyMemberName (config st)) DEFAULT_PARTY_MEMBER_NAME in
            let w2 := emit (SendTwitchMessage (Combined label partyName (result merged))) w1 in
            let w3 := emit (SubmitToAID (result merged)) w2 in
            settle (submitToAID deps (state w1) (result merged)) w3
        end
  end.

End Voting.

(** ** state.js *)
Module StateOps.
Import Types Runtime Constants.

Definition createInitialState : State :=
  mkState idle [] None None None None None false None None None
    (mkConfig "" DEFAULT_MODEL DEFAULT_VOTE_DURATION_SECONDS DEFAULT_MAX_TOKENS
       false "" "" None).

(** [if (state.voteTimer) { clearTimeout(state.voteTimer); state.voteTimer = null; }] *)
Definition cancelVoteTimer (w : World) : World :=
  match voteTimer (state w) with
  | Some h => with_state (set_voteTimer None) (clearTimeout h w)
  | None => w
  end.

Definition transitionToVote (w : World) : bool * World :=
  if negb (bool_decide (phase (state w) = idle)) then (false, w)
  else (true, with_state (fun s => set_submissions [] (set_phase vote s)) w).

Definition transitionToCombine (w : World) : bool * World :=
  if negb (bool_decide (phase (state w) = vote)) then (false, w)
  else (true, with_state (set_phase combine) (cancelVoteTimer w)).

Definition transitionToIdle (w : World) : World :=
  with_state (fun s => set_phase idle (set_voteEndTime None s))
    (cancelVoteTimer w).

(** [state.config = { ...state.config, ...updates }] *)
Definition updateConfig (st : State) (updates : ConfigUpdates) : State :=
  let c := config st in
  set_config
    (mkConfig
       (default (openRouterApiKey c) (updOpenRouterApiKey updates))
       (default (model c) (updModel updates))
       (default (voteDurationSeconds c) (updVoteDurationSeconds updates))
       (default (maxTokens c) (updMaxTokens updates))
       (default (debugMode c) (updDebugMode updates))
       (default (partyMemberName c) (updPartyMemberName updates))
       (default (youtubeUrl c) (updYoutubeUrl updates))
       (default (autoRepeatCooldownSeconds c) (updAutoRepeatCooldownSeconds updates)))
    st.

Definition setContext (st : State) (context : AIDContext) : State :=
  set_context (Some context) st.

Definition setAutoRepeatTimer (timer : option positive) (w : World) : World :=
  with_state (set_autoRepeatTimer timer) w.

Definition clearAutoRepeatTimer (w : World) : World :=
  let w1 :=
    match autoRepeatTimer (state w) with
    | Some h => with_state (set_autoRepeatTimer None) (clearTimeout h w)
    | None => w
    end in
  with_state (set_nextVoteStartTime None) w1.

End StateOps.

(** ** pause.js *)
Module Pause.
Import Types Runtime StateOps.

(** [cond && x] where [x : number|null]: the number when both are
    truthy. *)
Definition and_truthy (cond : bool) (x : option Z) : option Z :=
  match x with
  | Some n => if cond && negb (n =? 0) then Some n else None
  | None => None
  end.

Definition pauseTimers (now : Z) (w : World) : World :=
  let st := state w in
  match and_truthy (bool_decide (phase st = vote)) (voteEndTime st) with
  | Some endTime =>
      cancelVoteTimer
        (with_state (set_pausedVoteRemaining (Some (Z.max 0 (endTime - now)))) w)
  | None =>
      match and_truthy (bool_decide (phase st = idle)) (nextVoteStartTime st) with
      | Some startTime =>
          clearAutoRepeatTimer
            (with_state
               (set_pausedAutoRepeatRemaining (Some (Z.max 0 (startTime - now)))) w)
      | None => w
      end
  end.

Definition resumeTimers (now : Z) (w : World) (onVoteEnd onAutoRepeatStart : Handler)
    (scheduleAutoRepeat : World -> World) : World :=
  let st := state w in
  match and_truthy (bool_decide (phase st = vote)) (pausedVoteRemaining st) with
  | Some remaining =>
      let w1 := with_state (set_voteEndTime (Some (now + remaining))) w in
      let '(h, w2) := setTimeout (Direct onVoteEnd) remaining now w1 in
      let w3 := with_state (set_voteTimer (Some h)) w2 in
      with_state (set_pausedVoteRemaining None) w3
  | None =>
      match and_truthy (bool_decide (phase st = idle)) (pausedAutoRepeatRemaining st) with
      | Some remaining =>
          let w1 := with_state (set_nextVoteStartTime (Some (now + remaining))) w in
          let '(h, w2) := setTimeout (AutoRepeatThen onAutoRepeatStart) remaining now w1 in
          let w3 := setAutoRepeatTimer (Some h) w2 in
          with_state (set_pausedAutoRepeatRemaining None) w3
      | None =>
          if bool_decide (phase st = idle)
             && Js.truthy (autoRepeatCooldownSeconds (config st))
          then scheduleAutoRepeat w
          else w
      end
  end.

Definition togglePause (now : Z) (w : World) (onVoteEnd onAutoRepeatStart : Handler)
    (scheduleAutoRepeat broadcastState : World -> World) : World :=
  let w1 := with_state (fun s => set_isPaused (negb (isPaused s)) s) w in
  let w2 :=
    if isPaused (state w1) then pauseTimers now w1
    else resumeTimers now w1 onVoteEnd onAutoRepeatStart scheduleAutoRepeat in
  broadcastState w2.

End Pause.

(** ** openrouter.js *)
Module OpenRouter.
Import Types Runtime.

Definition nl : string := String (Ascii.ascii_of_nat 10) EmptyString.
Definition dq : string := String (Ascii.ascii_of_nat 34) EmptyString.

Definition buildSystemPrompt (partyMemberName : string) : string :=
  "You are helping combine multiple player suggestions into a single action for **"
  +:+ partyMemberName +:+ "** in a collaborative interactive fiction story."
  +:+ nl +:+ nl
  +:+ "Your task is to synthesize the submitted actions into ONE coherent third-person action that:" +:+ nl
  +:+ "- Incorporates the best elements from each suggestion when possible" +:+ nl
  +:+ "- Fits naturally with the story context and tone" +:+ nl
  +:+ "- Maintains narrative consistency with established characters and setting" +:+ nl
  +:+ "- Is concise (1-2 sentences maximum)" +:+ nl +:+ nl
  +:+ "## Formatting Rules" +:+ nl +:+ nl
  +:+ "- Write ONLY the action text, no explanations or commentary" +:+ nl
  +:+ "- Do NOT begin with " +:+ dq +:+ partyMemberName +:+ dq
  +:+ " or any character name - the game engine adds that automatically" +:+ nl
  +:+ "- Write in third person (e.g. " +:+ dq +:+ "leaps forward and grabs the rope"
  +:+ dq +:+ " not " +:+ dq +:+ partyMemberName +:+ " leaps forward" +:+ dq +:+ ")" +:+ nl
  +:+ "- Actions should flow naturally from the current story moment".

(** One message of the request body. *)
Record ChatMessage := mkChatMessage { role : string; content : string }.

(** The body of the POST to the completion endpoint. *)
Record Request := mkRequest {
  reqModel : string;
  reqMaxTokens : Z;
  reqMessages : list ChatMessage
}.

(** The requests issued so far, oldest first. *)
Record Net := mkNet { issued : list Request }.

Definition SKIP_SECTIONS : list string := ["instructions"; "authorsNote"].

(** [s => !SKIP_SECTIONS.includes(s.type) && s.text] *)
Definition keptSection (s : ContextSection) : bool :=
  negb (bool_decide (sectionType s ∈ SKIP_SECTIONS)) && Js.nonempty (sectionText s).

Definition extractStoryContext (context : option AIDContext) : string :=
  match context with
  | None => ""
  | Some c =>
      match contextSections c with
      | None => ""
      | Some sections =>
          let filtered := List.filter keptSection sections in
          Js.trim (Js.join (nl +:+ nl) (map (fun s => Js.trim (sectionText s)) filtered))
      end
  end.

Definition buildCombinePrompt (storyContext : string) (lastAIOutput : option string)
    (submissions : list Submission) (partyMemberName : string) : string :=
  let submissionList :=
    Js.join nl
      (imap (fun i s =>
               pretty (i + 1)%nat +:+ ". " +:+ dq +:+ text s +:+ dq
               +:+ " (by " +:+ user s +:+ ")") submissions) in
  let prompt := "# Character: " +:+ partyMemberName +:+ nl +:+ nl in
  let fullContext :=
    match lastAIOutput with
    | Some out =>
        if Js.nonempty out
        then storyContext +:+ nl +:+ nl +:+ "Most Recent:" +:+ nl +:+ out
        else storyContext
    | None => storyContext
    end in
  let fullContext := Js.trim fullContext in
  let prompt :=
    if Js.nonempty fullContext
    then prompt +:+ "## Story Context" +:+ nl +:+ nl +:+ "```" +:+ nl
         +:+ fullContext +:+ nl +:+ "```" +:+ nl +:+ nl
    else prompt in
  let prompt :=
    prompt +:+ "## Player Submissions" +:+ nl +:+ nl +:+ submissionList +:+ nl +:+ nl in
  let prompt := prompt +:+ "## Task" +:+ nl +:+ nl in
  let prompt :=
    prompt +:+ "Combine these " +:+ pretty (length submissions)
    +:+ " suggestions into a single action for **" +:+ partyMemberName +:+ "**." in
  prompt +:+ " Output ONLY the action text, do not prefix with the character name.".

Definition tokensPerSubmission : nat := 50.
#[warnings="-abstract-large-number"]
Definition targetBatchTokens : nat := 16000.

(** [Math.max(3, Math.floor(target / perSubmission))] *)
Definition batchSizeFor (perSubmission target : nat) : nat :=
  Nat.max 3 (target / perSubmission).

Definition batchSize : nat := batchSizeFor tokensPerSubmission targetBatchTokens.

(** [Array.prototype.slice(i, j)] for [i <= j]. *)
Definition slice {A} (i j : nat) (l : list A) : list A :=
  take (j - i) (drop i l).

(** The loop
    [for (let i = 0; i < submissions.length; i += batchSize)
       batches.push(submissions.slice(i, i + batchSize));]
    run for at most [fuel] iterations from index [i]. *)
Fixpoint batchLoop {A} (fuel i size : nat) (submissions : list A) : list (list A) :=
  match fuel with
  | O => []
  | S fuel' =>
      if (i <? length submissions)%nat
      then slice i (i + size) submissions
             :: batchLoop fuel' (i + size) size submissions
      else []
  end.

(** With a positive batch size the loop ends after at most
    [length submissions] iterations. *)
Definition splitBatches {A} (size : nat) (submissions : list A) : list (list A) :=
  batchLoop (length submissions) 0 size submissions.

(** [Promise.all]: the results in index order, or the rejection. When
    several promises reject, the source reports the one that rejected
    first in time; the model reports the first in index order. *)
Fixpoint promiseAll {A} (cs : list (Completion A)) : Completion (list A) :=
  match cs with
  | [] => Resolved []
  | Rejected m :: _ => Rejected m
  | Resolved a :: rest =>
      match promiseAll rest with
      | Resolved l => Resolved (a :: l)
      | Rejected m => Rejected m
      end
  end.

Section Merge.

(** The language-model service: the outcome of the [k]-th request
    issued ([Rejected] for a response that is not OK, otherwise the
    trimmed content of the first choice, [""] when it is missing). *)
Variable fetchCompletion : nat -> Request -> Completion string.

(** [Date.now()] when the response to the [k]-th request has been
    read. *)
Variable completedAt : nat -> Z.

Definition callOpenRouter (net : Net) (config : Config)
    (systemPrompt userPrompt : string) : Completion string * Net :=
  if negb (Js.nonempty (openRouterApiKey config))
  then (Rejected "OpenRouter API key not configured", net)
  else
    let messages :=
      (if Js.nonempty systemPrompt then [mkChatMessage "system" systemPrompt] else [])
      ++ [mkChatMessage "user" userPrompt] in
    let request := mkRequest (model config) (maxTokens config) messages in
    (fetchCompletion (length (issued net)) request,
     mkNet (issued net ++ [request])).

(** The body of the callback mapped over the batches. *)
Definition mergeBatch (net : Net) (config : Config)
    (storyContext : string) (lastAIOutput : option string)
    (partyMemberName systemPrompt : string)
    (batch : list Submission) (idx : nat) : Completion Submission * Net :=
  let userPrompt := buildCombinePrompt storyContext lastAIOutput batch partyMemberName in
  let k := length (issued net) in
  match callOpenRouter net config systemPrompt userPrompt with
  | (Resolved r, net') =>
      (Resolved (mkSubmission ("Batch" +:+ pretty (idx + 1)%nat) r (completedAt k) ∅ None),
       net')
  | (Rejected m, net') => (Rejected m, net')
  end.

(** [batches.map(async (batch, idx) => ...)]: every request is issued,
    in index order, before any response is awaited. *)
Fixpoint mergeBatches (net : Net) (config : Config)
    (storyContext : string) (lastAIOutput : option string)
    (partyMemberName systemPrompt : string)
    (batches : list (list Submission)) (idx : nat)
    : list (Completion Submission) * Net :=
  match batches with
  | [] => ([], net)
  | batch :: rest =>
      let '(c, net1) :=
        mergeBatch net config storyContext lastAIOutput partyMemberName
          systemPrompt batch idx in
      let '(cs, net2) :=
        mergeBatches net1 config storyContext lastAIOutput partyMemberName
          systemPrompt rest (S idx) in
      (c :: cs, net2)
  end.

(** [None] when [fuel] recursive calls were not enough. *)
Fixpoint recursiveMerge (fuel : nat) (net : Net) (config : Config)
    (context : option AIDContext) (submissions : list Submission)
    (lastAIOutput : option string) : option (Completion MergeResult * Net) :=
  match fuel with
  | O => None
  | S fuel' =>
      match submissions with
      | [only] => Some (Resolved (mkMergeResult (text only) None), net)
      | _ =>
          let storyContext := extractStoryContext context in
          let partyMemberName :=
            Js.str_or (Types.partyMemberName config) "the party member" in
          let systemPrompt := buildSystemPrompt partyMemberName in
          if (length submissions <=? batchSize)%nat then
            let userPrompt :=
              buildCombinePrompt storyContext lastAIOutput submissions
                partyMemberName in
            let k := length (issued net) in
            match callOpenRouter net config systemPrompt userPrompt with
            | (Resolved r, net') =>
                Some (Resolved
                        (mkMergeResult r
                           (Some (mkDebug systemPrompt userPrompt r (model config)
                                    (completedAt k)))),
                      net')
            | (Rejected m, net') => Some (Rejected m, net')
            end
          else
            let batches := splitBatches batchSize submissions in
            let '(promises, net') :=
              mergeBatches net config storyContext lastAIOutput partyMemberName
                systemPrompt batches 0 in
            match promiseAll promises with
            | Resolved intermediateResults =>
                recursiveMerge fuel' net' config context intermediateResults None
            | Rejected m => Some (Rejected m, net')
            end
      end
  end.

End Merge.

End OpenRouter.

(** ** index.js *)
Module Index.
Import Types Runtime Constants StateOps.

Definition broadcastState (w : World) : World := emit BroadcastState w.

(** The longest prefix in the class [p], and the rest. *)
Fixpoint span (p : ascii -> bool) (s : string) : string * string :=
  match s with
  | EmptyString => (EmptyString, EmptyString)
  | String c r =>
      if p c then let '(a, b) := span p r in (String c a, b)
      else (EmptyString, s)
  end.

Fixpoint lastChar (s : string) : option ascii :=
  match s with
  | EmptyString => None
  | String c EmptyString => Some c
  | String _ r => lastChar r
  end.

(** [text.match(/^(?:\+1\s+@(\w+)|@(\w+)\s+\+1)$/i)], giving
    [voteMatch[1] || voteMatch[2]]. *)
Definition matchVote (text : string) : option string :=
  match text with
  | String "+" (String "1" rest) =>
      let '(ws, rest1) := span Js.is_space rest in
      match rest1 with
      | String "@" name =>
          if Js.nonempty ws && Js.nonempty name && Js.all_chars Js.is_word name
          then Some name else None
      | _ => None
      end
  | String "@" rest =>
      let '(name, rest1) := span Js.is_word rest in
      let '(ws, rest2) := span Js.is_space rest1 in
      if Js.nonempty name && Js.nonempty ws && String.eqb rest2 "+1"
      then Some name else None
  | _ => None
  end.

(** [text.match(/^>\s*(.+)$/)], giving [submissionMatch[1]]. The greedy
    [\s*] takes all leading white space; when nothing is left for
    [(.+)] it gives back the last character. *)
Definition matchSubmission (text : string) : option string :=
  match text with
  | String ">" rest =>
      match Js.trimStart rest with
      | EmptyString =>
          match lastChar rest with
          | Some c =>
              if Js.is_line_terminator c then None else Some (String c EmptyString)
          | None => None
          end
      | body =>
          if Js.all_chars (fun c => negb (Js.is_line_terminator c)) body
          then Some body else None
      end
  | _ => None
  end.

(** The part shared by the two chat handlers once the phase is [vote]. *)
Definition parseVoteOrSubmission (now : Z) (w : World) (user text : string) : World :=
  match matchVote text with
  | Some name =>
      let targetUser := Js.toLowerCase name in
      broadcastState
        (with_state
           (fun st => Voting.handleVote st user targetUser (debugMode (config st))) w)
  | None =>
      match matchSubmission text with
      | Some captured =>
          let actionText := Js.trim captured in
          broadcastState
            (with_state
               (fun st =>
                  Voting.handleSubmission now st user actionText
                    (debugMode (config st))) w)
      | None => w
      end
  end.

Definition handleStartVote (now : Z) (w : World) : World :=
  let w := clearAutoRepeatTimer w in
  let w := with_state (set_isPaused false) w in
  let w := with_state (set_pausedVoteRemaining None) w in
  let w := with_state (set_pausedAutoRepeatRemaining None) w in
  match transitionToVote w with
  | (false, w) => w
  | (true, w) =>
      let duration :=
        Z.max (voteDurationSeconds (config (state w))) MIN_VOTE_DURATION_SECONDS in
      let w := with_state (set_voteEndTime (Some (now + duration * 1000))) w in
      let w := emit (SendTwitchMessage (VotingStarted duration)) w in
      let w := broadcastState w in
      Voting.setVoteTimer now (Direct HandleEndVote) w
  end.

(** [handleEndVote] up to the call of [combineAndSubmit], whose body
    runs when its awaited calls have settled (see [combineAndSubmit]). *)
Definition handleEndVote (w : World) : World :=
  let w := with_state (set_pausedVoteRemaining None) w in
  match transitionToCombine w with
  | (false, w) => w
  | (true, w) =>
      let hasApiKey := Js.nonempty (openRouterApiKey (config (state w))) in
      let action := if hasApiKey then "Blending..." else "Tallying votes..." in
      let w :=
        emit (SendTwitchMessage (VotingClosed (length (submissions (state w))) action)) w in
      broadcastState w
  end.

Definition scheduleAutoRepeat (now : Z) (w : World) : World :=
  if isPaused (state w) then w
  else
    match autoRepeatCooldownSeconds (config (state w)) with
    | None => w
    | Some interval =>
        if interval =? 0 then w
        else
          let delaySeconds := Z.max interval MIN_AUTO_REPEAT_SECONDS in
          let w := with_state (set_nextVoteStartTime (Some (now + delaySeconds * 1000))) w in
          let '(timer, w) :=
            setTimeout (AutoRepeatThen HandleStartVote) (delaySeconds * 1000) now w in
          let w := setAutoRepeatTimer (Some timer) w in
          broadcastState w
    end.

Definition handleTogglePause (now : Z) (w : World) : World :=
  Pause.togglePause now w HandleEndVote HandleStartVote
    (scheduleAutoRepeat now) broadcastState.

(** The body of [combineAndSubmit], run as one step at the instant its
    last awaited call settles. While it is suspended the phase is
    [combine], so no other handler changes the submissions it reads.
    The part that the source runs before its first [await], within the
    job of [handleEndVote], is run here as well: what it sends comes
    after the broadcast of [handleEndVote], and the configuration read
    is the one of the settle instant. *)
Definition combineAndSubmit (now : Z) (deps : VotingDeps) (w : World) : World :=
  let w := Voting.combineSubmissions w deps in
  let w := transitionToIdle w in
  let w := scheduleAutoRepeat now w in
  broadcastState w.

Definition handleTwitchChatMessage (now : Z) (w : World) (message : TwitchMessage)
    : World :=
  let user := msgUser message in
  let text := msgText message in
  let canUseCommands := isBroadcaster message || isMod message in
  if String.eqb (Js.toLowerCase text) "!vote" then
    if canUseCommands then handleStartVote now w else w
  else if String.eqb (Js.toLowerCase text) "!tally" then
    if canUseCommands then handleEndVote w else w
  else if negb (bool_decide (phase (state w) = vote)) then w
  else parseVoteOrSubmission now w user text.

Definition handleYouTubeChatMessage (now : Z) (w : World) (user text : string)
    : World :=
  if negb (bool_decide (phase (state w) = vote)) then w
  else parseVoteOrSubmission now w user text.

Definition runHandler (h : Handler) (now : Z) (w : World) : World :=
  match h with
  | HandleStartVote => handleStartVote now w
  | HandleEndVote => handleEndVote w
  end.

Definition runCallback (cb : Callback) (now : Z) (w : World) : World :=
  match cb with
  | Direct h => runHandler h now w
  | AutoRepeatThen h =>
      let w := with_state (set_nextVoteStartTime None) w in
      let w := with_state (set_autoRepeatTimer None) w in
      runHandler h now w
  end.

(** A timer that has fired is no longer pending. *)
Definition expire (h : positive) (w : World) : World := clearTimeout h w.

(** The events that the service worker handles. A saved configuration
    reaches the state object through [updateConfig] and a context
    update through [setContext]; their persistence and transport are
    outside the engine. *)
Inductive Event :=
| TwitchChat (message : TwitchMessage)
| YouTubeChat (user text : string)
| StartVote
| EndVote
| TogglePause
| TimerFired (h : positive)
| CombineSettled (deps : VotingDeps)
| ConfigSaved (updates : ConfigUpdates)
| ContextUpdated (context : AIDContext).

(** [step w now e w']: handling [e] at instant [now] takes [w] to [w']. *)
Inductive step (w : World) (now : Z) : Event -> World -> Prop :=
| step_twitch message :
    step w now (TwitchChat message) (handleTwitchChatMessage now w message)
| step_youtube user text :
    Js.nonempty (youtubeUrl (config (state w))) = true ->
    step w now (YouTubeChat user text) (handleYouTubeChatMessage now w user text)
| step_youtube_ignored user text :
    Js.nonempty (youtubeUrl (config (state w))) = false ->
    step w now (YouTubeChat user text) w
| step_start : step w now StartVote (handleStartVote now w)
| step_end : step w now EndVote (handleEndVote w)
| step_pause : step w now TogglePause (handleTogglePause now w)
| step_timer t :
    t ∈ timeouts w ->
    setAt t + delay t <= now ->
    step w now (TimerFired (handle t)) (runCallback (callback t) now (expire (handle t) w))
| step_combine deps :
    phase (state w) = combine ->
    step w now (CombineSettled deps) (combineAndSubmit now deps w)
| step_config updates :
    step w now (ConfigSaved updates)
      (broadcastState (with_state (fun st => updateConfig st updates) w))
| step_context context :
    step w now (ContextUpdated context)
      (broadcastState (with_state (fun st => setContext st context) w)).

Definition initialWorld : World := mkWorld createInitialState [] 1%positive [].

Inductive reachable : World -> Prop :=
| reachable_init : reachable initialWorld
| reachable_step w now e w' : reachable w -> step w now e w' -> reachable w'.

End Index.

(** ** Notions used to state the properties *)
Module Props.
Import Types Runtime Constants OpenRouter.

(** The vote count of a submission in the words of the specification,
    [voteCount(submission)]: the debug counter if present, else the size
    of the voter set. It is stated on the data, apart from
    [Voting.getVoteCount], the function of the code. *)
Definition voteCount (s : Submission) : Z :=
  match debugVoteCount s with
  | Some counter => counter
  | None => Z.of_nat (size (votes s))
  end.

(** [a] ranks no later than [b]: more votes, or as many votes and a
    timestamp that is not older. *)
Definition outranks (a b : Submission) : Prop :=
  Voting.getVoteCount b < Voting.getVoteCount a
  ∨ (Voting.getVoteCount b = Voting.getVoteCount a ∧ timestamp b <= timestamp a).

(** The world on which [handleStartVote] attempts the transition. *)
Definition startVotePrologue (w : World) : World :=
  with_state (set_pausedAutoRepeatRemaining None)
    (with_state (set_pausedVoteRemaining None)
       (with_state (set_isPaused false) (StateOps.clearAutoRepeatTimer w))).

(** Every timer handle known to the world, pending or stored in the
    state, was handed out by [setTimeout]. *)
Definition handlesFresh (w : World) : Prop :=
  (∀ t, t ∈ timeouts w -> (handle t < nextHandle w)%positive)
  ∧ (∀ h, voteTimer (state w) = Some h -> (h < nextHandle w)%positive)
  ∧ (∀ h, autoRepeatTimer (state w) = Some h -> (h < nextHandle w)%positive).

(** How one step may change the phase and the ledger. *)
Definition ledgerStep (w w' : World) : Prop :=
  (phase (state w) ≠ vote -> phase (state w') = vote ->
   phase (state w) = idle ∧ submissions (state w') = [])
  ∧ (phase (state w) ≠ vote -> phase (state w') ≠ vote ->
     submissions (state w') = submissions (state w))
  ∧ (phase (state w) = vote ->
     (length (submissions (state w)) <= length (submissions (state w')))%nat
     ∧ (phase (state w') = vote
        ∨ phase (state w') = combine
          ∧ submissions (state w') = submissions (state w))).

(** The two chat commands, [!vote] and [!tally], in any letter case. *)
Definition isCommand (text : string) : bool :=
  String.eqb (Js.toLowerCase text) "!vote" || String.eqb (Js.toLowerCase text) "!tally".

(** The request that [callOpenRouter] posts for the prompts given. *)
Definition requestOf (config : Config) (systemPrompt userPrompt : string) : Request :=
  mkRequest (model config) (maxTokens config)
    ((if Js.nonempty systemPrompt then [mkChatMessage "system" systemPrompt] else [])
     ++ [mkChatMessage "user" userPrompt]).

Definition partyNameFor (config : Config) : string :=
  Js.str_or (partyMemberName config) "the party member".

Definition systemPromptFor (config : Config) : string :=
  buildSystemPrompt (partyNameFor config).

Definition userPromptFor (config : Config) (context : option AIDContext)
    (lastAIOutput : option string) (batch : list Submission) : string :=
  buildCombinePrompt (extractStoryContext context) lastAIOutput batch
    (partyNameFor config).

(** The request posted for one batch. *)
Definition requestFor (config : Config) (context : option AIDContext)
    (lastAIOutput : option string) (batch : list Submission) : Request :=
  requestOf config (systemPromptFor config)
    (userPromptFor config context lastAIOutput batch).

(** The merged text and the number of requests issued, when the merge
    resolves. *)
Definition mergedTextAndCalls (run : option (Completion MergeResult * Net))
    : option (string * nat) :=
  match run with
  | Some (Resolved merged, net) => Some (result merged, length (issued net))
  | _ => None
  end.

Section Oracle.
Variable fetchCompletion : nat -> Request -> Completion string.
Variable completedAt : nat -> Z.

(** What the promise of batch [k] settles to. *)
Definition batchPromise (config : Config) (storyContext : string)
    (lastAIOutput : option string) (partyMemberName systemPrompt : string)
    (base idx : nat) (k : nat) (batch : list Submission) : Completion Submission :=
  match fetchCompletion (base + k)%nat
          (requestOf config systemPrompt
             (buildCombinePrompt storyContext lastAIOutput batch partyMemberName)) with
  | Resolved r =>
      Resolved (mkSubmission ("Batch" +:+ pretty (idx + k + 1)%nat) r
                  (completedAt (base + k)%nat) ∅ None)
  | Rejected m => Rejected m
  end.

(** The intermediate submission, or the failure, of batch [k] when
    [base] requests were issued before the round. *)
Definition batchOutcome (config : Config) (context : option AIDContext)
    (lastAIOutput : option string) (base k : nat) (batch : list Submission)
    : Completion Submission :=
  match fetchCompletion (base + k)%nat (requestFor config context lastAIOutput batch) with
  | Resolved r =>
      Resolved (mkSubmission ("Batch" +:+ pretty (k + 1)%nat) r (completedAt (base + k)%nat) ∅ None)
  | Rejected m => Rejected m
  end.

End Oracle.

(** The name under which a submission is looked up. *)
Definition userKey (s : Submission) : string := Js.toLowerCase (user s).

(** No two submissions of the same user, letter case aside. *)
Definition distinctUsers (l : list Submission) : Prop := NoDup (userKey <$> l).

(** A text that [handleSubmission] accepts. *)
Definition acceptable (text : string) : Prop :=
  (0 < String.length text <= MAX_SUBMISSION_LENGTH)%nat.

(** A submission has a voter, and a debug counter, when present, counts
    at least the first vote and one duplicate. *)
Definition wellCounted (s : Submission) : Prop :=
  (1 <= size (votes s))%nat ∧ ∀ c, debugVoteCount s = Some c -> 2 <= c.

(** Every entry of [l] is still at its place in [l'], under the same user
    name and with at least the same voters. *)
Definition keepsEntries (l l' : list Submission) : Prop :=
  ∀ i s, l !! i = Some s ->
         ∃ s', l' !! i = Some s' ∧ user s' = user s ∧ votes s ⊆ votes s'.

(** [t] is the vote timer of [w]: it calls [handleEndVote], the phase is
    vote, the state holds its handle, and the deadline shown is its
    expiry. *)
Definition isVoteTimerOf (w : World) (t : Timeout) : Prop :=
  callback t = Direct HandleEndVote
  ∧ phase (state w) = vote
  ∧ voteTimer (state w) = Some (handle t)
  ∧ autoRepeatTimer (state w) = None
  ∧ voteEndTime (state w) = Some (setAt t + delay t)
  ∧ 0 < setAt t + delay t.

(** [t] is the auto-repeat timer of [w]: it starts the next vote, the
    phase is idle, the state holds its handle, and the next start shown
    is its expiry. *)
Definition isAutoRepeatTimerOf (w : World) (t : Timeout) : Prop :=
  callback t = AutoRepeatThen HandleStartVote
  ∧ phase (state w) = idle
  ∧ autoRepeatTimer (state w) = Some (handle t)
  ∧ voteTimer (state w) = None
  ∧ nextVoteStartTime (state w) = Some (setAt t + delay t)
  ∧ 0 < setAt t + delay t.

(** The timers of a world are in order: stored remaining times are not
    negative, and either nothing is pending and the state holds no
    handle, or the session is not paused and exactly one timer is
    pending, the vote timer or the auto-repeat timer. *)
Definition timersConsistent (w : World) : Prop :=
  (∀ r, pausedVoteRemaining (state w) = Some r -> 0 <= r)
  ∧ (∀ r, pausedAutoRepeatRemaining (state w) = Some r -> 0 <= r)
  ∧ ((timeouts w = []
      ∧ voteTimer (state w) = None ∧ autoRepeatTimer (state w) = None)
     ∨ (∃ t, timeouts w = [t]
             ∧ isPaused (state w) = false
             ∧ (isVoteTimerOf w t ∨ isAutoRepeatTimerOf w t))).

(** The worlds reached by steps at instants that are not negative:
    [Date.now()] counts the milliseconds since 1970. *)
Inductive reachableInTime : World -> Prop :=
| inTime_init : reachableInTime Index.initialWorld
| inTime_step w now e w' :
    reachableInTime w -> 0 <= now -> Index.step w now e w' -> reachableInTime w'.


(** The ways in which the ledger [l] may become [l'] in one step at
    instant [now]: not at all, by being emptied, by a submission or by a
    vote. *)
Definition ledgerChange (now : Z) (st : State) (l' : list Submission) : Prop :=
  l' = submissions st
  ∨ l' = []
  ∨ (∃ user text debugMode,
        l' = submissions (Voting.handleSubmission now st user text debugMode))
  ∨ (∃ voter target debugMode,
        l' = submissions (Voting.handleVote st voter target debugMode)).

End Props.

(** ** Concrete sessions *)
Module Examples.
Import Types Runtime Constants.

Fixpoint repeatChar (c : ascii) (n : nat) : string :=
  match n with
  | O => EmptyString
  | S n' => String c (repeatChar c n')
  end.

(** A text of 201 characters. *)
Definition longText : string := repeatChar "a" 201.

(** Debug mode: Alice submits. *)
Definition freshDebugLedger : State :=
  Voting.handleSubmission 10 StateOps.createInitialState "Alice" "open the door" true.

(** Debug mode: Alice submits and votes for herself again, Bob and
    Carol vote for her. *)
Definition debugLedger : State :=
  let s0 := StateOps.createInitialState in
  let s1 := Voting.handleSubmission 10 s0 "Alice" "open the door" true in
  let s2 := Voting.handleVote s1 "alice" "alice" true in
  let s3 := Voting.handleVote s2 "bob" "alice" true in
  Voting.handleVote s3 "carol" "alice" true.

(** Normal mode: A, B and C submit in this order; one more vote each
    for A and B, so the counts are A:2, B:2, C:1. *)
Definition tiedLedger : State :=
  let s0 := set_phase vote StateOps.createInitialState in
  let s1 := Voting.handleSubmission 1 s0 "A" "open the door" false in
  let s2 := Voting.handleSubmission 2 s1 "B" "search the room" false in
  let s3 := Voting.handleSubmission 3 s2 "C" "wait" false in
  let s4 := Voting.handleVote s3 "dave" "a" false in
  Voting.handleVote s4 "erin" "b" false.

Definition tiedWorld : World := mkWorld tiedLedger [] 1%positive [].

(** Collaborators that always succeed: the game client accepts the
    action and [submitToAID] reports it in chat; the merge is not used in
    tally mode. *)
Definition okDeps : VotingDeps :=
  mkDeps (fun _ _ => ([ActionSubmitted], Resolved tt))
    (fun _ _ _ _ => Rejected "unused")
    (fun _ => None).

(** A vote started at instant 0 from the initial world: 40 seconds,
    deadline 40000, timer 1 pending. *)
Definition votingWorld : World := Index.handleStartVote 0 Index.initialWorld.

(** Auto-repeat every 30 seconds, scheduled at instant 1000 from the
    idle phase: next start at 31000, timer 1 pending. *)
Definition repeatingWorld : World :=
  Index.scheduleAutoRepeat 1000
    (with_state
       (fun st =>
          StateOps.updateConfig st
            (mkUpdates None None None None None None None (Some (Some 30))))
       Index.initialWorld).

(** Alice submits during the vote started at instant 0, and the vote
    is ended by hand: the phase is combine and the ledger holds her
    submission. *)
Definition aliceSubmits : TwitchMessage :=
  mkTwitchMessage "alice" "> open the door" false false.
Definition combiningWorld : World :=
  Index.handleEndVote (Index.handleTwitchChatMessage 100 votingWorld aliceSubmits).

(** The session of the end-to-end scenario: a vote is started at
    instant 0; Ann and Ben submit; three viewers vote for Ann; the vote
    timer fires at 40000; the game client accepts the action at 40500. *)
Definition say (user text : string) : TwitchMessage :=
  mkTwitchMessage user text false false.
Definition tallySession : World :=
  let w := Index.handleStartVote 0 Index.initialWorld in
  let w := Index.handleTwitchChatMessage 1000 w (say "Ann" "> open the door") in
  let w := Index.handleTwitchChatMessage 2000 w (say "Ben" ">search the room") in
  let w := Index.handleTwitchChatMessage 3000 w (say "v1" "+1 @ann") in
  let w := Index.handleTwitchChatMessage 3100 w (say "v2" "@ANN   +1") in
  let w := Index.handleTwitchChatMessage 3200 w (say "v3" "+1 @Ann") in
  let w := Index.runCallback (Direct HandleEndVote) 40000 (Index.expire 1 w) in
  Index.combineAndSubmit 40500 okDeps w.

(** A vote that arrives too late. *)
Definition lateVote : TwitchMessage :=
  mkTwitchMessage "bob" "+1 @alice" false false.

(** Blend mode: an API key is configured. *)
Definition blendConfig : Config :=
  mkConfig "sk-test" DEFAULT_MODEL 40 150 false "" "" None.

(** [n] submissions of one viewer. *)
Definition crowd (n : nat) : list Submission :=
  replicate n (mkSubmission "viewer" "go north" 5 {["viewer"]} None).

(** A language model that always answers the same, and a clock that
    reads [1000 + k] when the [k]-th response arrives. *)
Definition echoFetch : nat -> OpenRouter.Request -> Completion string :=
  fun _ _ => Resolved "heads north".
Definition tickClock : nat -> Z := fun k => 1000 + Z.of_nat k.

Definition quietNet : OpenRouter.Net := OpenRouter.mkNet [].

(** The vote started at instant 0 is paused at 15000, with 25 seconds
    left. *)
Definition pausedVote : World := Index.handleTogglePause 15000 votingWorld.

(** A cooldown of 30 seconds is saved; a vote is started at 600 and
    ended by hand at 700 with no submission; the combine step settles at
    1000 and schedules the next vote for 31000, timer 2 pending. *)
Definition autoRepeatSaved : ConfigUpdates :=
  mkUpdates None None None None None None None (Some (Some 30)).
Definition repeatingSession : World :=
  let w :=
    Index.broadcastState
      (with_state (fun st => StateOps.updateConfig st autoRepeatSaved)
         Index.initialWorld) in
  let w := Index.handleStartVote 600 w in
  let w := Index.handleEndVote w in
  Index.combineAndSubmit 1000 okDeps w.


(** A configuration that asks for votes of 2 seconds, and one that asks
    for a cooldown of 3 seconds. *)
Definition hastyWorld : World :=
  with_state
    (fun st =>
       StateOps.updateConfig st
         (mkUpdates None None (Some 2) None None None None (Some (Some 3))))
    Index.initialWorld.

End Examples.

Import Types Runtime Constants Props.

(** Settles a closed decidable proposition by evaluation. *)
Ltac by_evaluation :=
  match goal with
  | |- ?P => apply (bool_decide_unpack P); vm_compute; exact I
  end.

(** * The submission ledger *)
Section Ledger.

Lemma find_index_spec {A} (p : A -> bool) (l : list A) i x :
  Js.find_index p l = Some (i, x) ->
  l !! i = Some x ∧ p x = true.
Proof.
  revert i. induction l as [|y l IH]; intros i H; simpl in H; [discriminate|].
  destruct (p y) eqn:Hy.
  - injection H as <- <-. auto.
  - destruct (Js.find_index p l) as [[j z]|]; [|discriminate].
    injection H as <- <-. apply (IH j). reflexivity.
Qed.

Lemma find_index_insert {A} (p : A -> bool) (l : list A) i x y :
  Js.find_index p l = Some (i, x) ->
  p y = true ->
  Js.find_index p (<[i := y]> l) = Some (i, y).
Proof.
  revert i. induction l as [|z l IH]; intros i H Hy; simpl in H; [discriminate|].
  destruct (p z) eqn:Hz.
  - injection H as <- <-. simpl. rewrite Hy. reflexivity.
  - destruct (Js.find_index p l) as [[j u]|] eqn:Hf; [|discriminate].
    injection H as <- <-. simpl. rewrite Hz.
    rewrite (IH j); auto.
Qed.

Lemma set_submissions_same (st : State) :
  set_submissions (submissions st) st = st.
Proof. destruct st; reflexivity. Qed.

Lemma same_user_set_votes name v s :
  Voting.same_user name (set_votes v s) = Voting.same_user name s.
Proof. reflexivity. Qed.

(** In normal mode a vote from somebody who is already in the voter
    set of the target changes nothing. *)
Lemma handleVote_normal_already_voted st voter target i s :
  Js.find_index (Voting.same_user target) (submissions st) = Some (i, s) ->
  Js.toLowerCase voter ∈ votes s ->
  Voting.handleVote st voter target false = st.
Proof.
  intros Hf Hin. unfold Voting.handleVote. rewrite Hf.
  rewrite bool_decide_eq_true_2 by assumption. reflexivity.
Qed.

(** C7: in normal mode, voting a second time for the same target
    is a no-op: the state after two identical votes is the state after
    one, so neither the voter set nor the vote count of the target
    changes. *)
Theorem handleVote_normal_second_vote_noop (st : State) (voter target : string) :
  Voting.handleVote (Voting.handleVote st voter target false) voter target false
  = Voting.handleVote st voter target false.
Proof.
  destruct (Js.find_index (Voting.same_user target) (submissions st))
    as [[i s]|] eqn:Hf.
  - destruct (decide (Js.toLowerCase voter ∈ votes s)) as [Hin|Hout].
    + rewrite !(handleVote_normal_already_voted st voter target i s Hf Hin).
      reflexivity.
    + set (st1 := Voting.handleVote st voter target false).
      assert (Hst1 : st1 = set_submissions
                (<[i := set_votes ({[Js.toLowerCase voter]} ∪ votes s) s]>
                   (submissions st)) st).
      { unfold st1, Voting.handleVote. rewrite Hf.
        rewrite bool_decide_eq_false_2 by assumption. reflexivity. }
      apply (handleVote_normal_already_voted st1 voter target i
               (set_votes ({[Js.toLowerCase voter]} ∪ votes s) s)).
      * rewrite Hst1. simpl. apply find_index_insert with (x := s); [assumption|].
        rewrite same_user_set_votes. apply (find_index_spec _ _ _ _ Hf).
      * simpl. set_solver.
  - unfold Voting.handleVote at 2. rewrite Hf.
    unfold Voting.handleVote. rewrite Hf. reflexivity.
Qed.

(** C9: a text of length 0 or of more than 200 characters is
    rejected in both modes: the state, and so the ledger, is
    unchanged. *)
Theorem handleSubmission_bad_length_noop
    (now : Z) (st : State) (user text : string) (debugMode : bool) :
  String.length text = 0%nat ∨ (200 < String.length text)%nat ->
  Voting.handleSubmission now st user text debugMode = st.
Proof.
  intros H. unfold Voting.handleSubmission, MAX_SUBMISSION_LENGTH.
  destruct H as [H|H].
  - rewrite H. reflexivity.
  - apply Nat.ltb_lt in H. rewrite H. rewrite orb_true_r. reflexivity.
Qed.

End Ledger.

Section LedgerDebug.
Import Examples.

Lemma union_present (v : string) (X : gset string) : v ∈ X -> {[v]} ∪ X = X.
Proof.
  intros H. apply subseteq_union_1_L. apply singleton_subseteq_l. exact H.
Qed.

(** C6 (amended): in debug mode, a vote from a voter who is already in
    the voter set of the target leaves the set as it is and raises the
    vote count by exactly one, the previous count being the debug
    counter when there is one and the size of the set otherwise. The
    result is [max(previous count, set size) + 1] as long as the
    previous count is not below the size of the set. Counts are never
    negative. *)
Theorem handleVote_debug_duplicate_adds_one
    (st : State) (voter target : string) (i : nat) (s : Submission) :
  Js.find_index (Voting.same_user target) (submissions st) = Some (i, s) ->
  Js.toLowerCase voter ∈ votes s ->
  0 <= Voting.getVoteCount s ->
  ∃ s',
    Js.find_index (Voting.same_user target)
      (submissions (Voting.handleVote st voter target true)) = Some (i, s')
    ∧ votes s' = votes s
    ∧ Voting.getVoteCount s' = Voting.getVoteCount s + 1
    ∧ (Z.of_nat (size (votes s)) <= Voting.getVoteCount s ->
       Voting.getVoteCount s' =
       Z.max (Voting.getVoteCount s) (Z.of_nat (size (votes s))) + 1).
Proof.
  intros Hf Hin Hpos.
  exists (mkSubmission (user s) (text s) (timestamp s) (votes s)
            (Some (Voting.getVoteCount s + 1))).
  assert (Hcount :
    Voting.getVoteCount
      (mkSubmission (user s) (text s) (timestamp s) (votes s)
         (Some (Voting.getVoteCount s + 1))) = Voting.getVoteCount s + 1).
  { unfold Voting.getVoteCount at 1. simpl.
    destruct (Voting.getVoteCount s + 1 =? 0) eqn:Hz; [lia | reflexivity]. }
  split; [|split; [reflexivity|split; [exact Hcount|]]].
  - unfold Voting.handleVote. rewrite Hf.
    rewrite bool_decide_eq_true_2 by assumption. simpl.
    unfold set_debugVoteCount, set_votes. simpl.
    rewrite (union_present _ _ Hin).
    apply find_index_insert with (x := s); [assumption|].
    destruct (find_index_spec _ _ _ _ Hf) as [_ Hp]. exact Hp.
  - intros Hle. rewrite Hcount. lia.
Qed.

(** Witness for C6 (amended): Alice, who already votes for her own
    submission, votes for it once more; on the ledger with the counter at
    2 and three voters, and on the ledger with her submission alone. *)
Lemma handleVote_debug_duplicate_adds_one_witness :
  (∃ s',
      Js.find_index (Voting.same_user "alice")
        (submissions (Voting.handleVote debugLedger "Alice" "alice" true))
      = Some (0%nat, s')
      ∧ Voting.getVoteCount s' = 2 + 1)
  ∧ (∃ s',
        Js.find_index (Voting.same_user "alice")
          (submissions (Voting.handleVote freshDebugLedger "Alice" "alice" true))
        = Some (0%nat, s')
        ∧ Voting.getVoteCount s' = Z.max 1 1 + 1).
Proof.
  split.
  - destruct (handleVote_debug_duplicate_adds_one debugLedger "Alice" "alice" 0
                (mkSubmission "Alice" "open the door" 10
                   {["alice"; "bob"; "carol"]} (Some 2)))
      as (s' & Hf & _ & Hc & _).
    + vm_compute. reflexivity.
    + by_evaluation.
    + vm_compute. discriminate.
    + exists s'. split; [exact Hf | exact Hc].
  - destruct (handleVote_debug_duplicate_adds_one freshDebugLedger "Alice" "alice" 0
                (mkSubmission "Alice" "open the door" 10 {["alice"]} None))
      as (s' & Hf & _ & _ & Hmax).
    + vm_compute. reflexivity.
    + by_evaluation.
    + vm_compute. discriminate.
    + exists s'. split; [exact Hf|]. apply Hmax. vm_compute. discriminate.
Defined.

(** Counterexample to C6 as stated: after Alice's first duplicate vote
    the counter is 2; Bob and Carol then bring the voter set to size 3
    without touching the counter; Alice's next duplicate vote gives 3,
    not max(2, 3) + 1 = 4. *)
Lemma handleVote_debug_duplicate_not_max :
  ∃ s s',
    Js.find_index (Voting.same_user "alice") (submissions debugLedger)
    = Some (0%nat, s)
    ∧ Js.toLowerCase "Alice" ∈ votes s
    ∧ Js.find_index (Voting.same_user "alice")
        (submissions (Voting.handleVote debugLedger "Alice" "alice" true))
      = Some (0%nat, s')
    ∧ Voting.getVoteCount s = 2
    ∧ size (votes s) = 3%nat
    ∧ Voting.getVoteCount s' = 3
    ∧ Voting.getVoteCount s' ≠
      Z.max (Voting.getVoteCount s) (Z.of_nat (size (votes s))) + 1.
Proof.
  eexists. eexists.
  split; [vm_compute; reflexivity|].
  split; [by_evaluation|].
  split; [vm_compute; reflexivity|].
  repeat split; try (vm_compute; reflexivity).
  vm_compute. discriminate.
Qed.

(** Witness for C9: a text of 201 characters in debug mode, and an
    empty text in normal mode from a user who has a submission. *)
Lemma handleSubmission_bad_length_noop_witness :
  (String.length longText = 0%nat ∨ (200 < String.length longText)%nat)
  ∧ Voting.handleSubmission 99 debugLedger "bob" longText true = debugLedger
  ∧ Voting.handleSubmission 99 tiedLedger "A" "" false = tiedLedger.
Proof.
  assert (H : String.length longText = 0%nat ∨ (200 < String.length longText)%nat).
  { right. vm_compute. lia. }
  split; [exact H|]. split.
  - apply (handleSubmission_bad_length_noop 99 debugLedger "bob" longText true H).
  - apply (handleSubmission_bad_length_noop 99 tiedLedger "A" "" false).
    left. reflexivity.
Defined.

End LedgerDebug.

(** * Tally mode *)
Section Tally.
Import Examples.

Lemma comparator_nonpositive (a b : Submission) :
  Voting.byVotesThenRecency a b <= 0 <-> outranks a b.
Proof.
  unfold Voting.byVotesThenRecency, outranks.
  destruct (Voting.getVoteCount b - Voting.getVoteCount a =? 0) eqn:H; simpl.
  - apply Z.eqb_eq in H. lia.
  - apply Z.eqb_neq in H. lia.
Qed.

Lemma outranks_refl a : outranks a a.
Proof. unfold outranks. lia. Qed.

Lemma outranks_trans a b c : outranks a b -> outranks b c -> outranks a c.
Proof. unfold outranks. lia. Qed.

Lemma comparator_positive (a b : Submission) :
  0 < Voting.byVotesThenRecency a b -> outranks b a.
Proof.
  unfold Voting.byVotesThenRecency, outranks.
  destruct (Voting.getVoteCount b - Voting.getVoteCount a =? 0) eqn:H; simpl.
  - apply Z.eqb_eq in H. lia.
  - apply Z.eqb_neq in H. lia.
Qed.

Lemma insert_sorted_perm {A} (cmp : A -> A -> Z) x l :
  Js.insert_sorted cmp x l ≡ₚ x :: l.
Proof.
  induction l as [|y l IH]; simpl; [reflexivity|].
  destruct (0 <? cmp x y); [|reflexivity].
  rewrite IH. apply Permutation_swap.
Qed.

(** The sorted array holds the same submissions. *)
Lemma sort_perm {A} (cmp : A -> A -> Z) l : Js.sort cmp l ≡ₚ l.
Proof.
  induction l as [|x l IH]; simpl; [reflexivity|].
  rewrite insert_sorted_perm. rewrite IH. reflexivity.
Qed.

(** The first element of the sorted array ranks no later than any
    submission. *)
Lemma sort_head_outranks (l : list Submission) (d : Submission) :
  l ≠ [] ->
  let winner := hd d (Js.sort Voting.byVotesThenRecency l) in
  winner ∈ l ∧ ∀ s, s ∈ l -> outranks winner s.
Proof.
  induction l as [|x l IH]; intros Hne; [congruence|].
  simpl. destruct l as [|y l'].
  - simpl. split; [apply list_elem_of_singleton; reflexivity|].
    intros s Hs. apply list_elem_of_singleton in Hs. subst. apply outranks_refl.
  - destruct IH as [Hin Hall]; [discriminate|].
    set (sorted := Js.sort Voting.byVotesThenRecency (y :: l')) in *.
    destruct sorted as [|h r] eqn:Hs.
    + pose proof (sort_perm Voting.byVotesThenRecency (y :: l')) as Hp.
      fold sorted in Hp. rewrite Hs in Hp.
      apply Permutation_nil_l in Hp. discriminate.
    + simpl in *. destruct (0 <? Voting.byVotesThenRecency x h) eqn:Hc; simpl.
      * apply Z.ltb_lt in Hc. split; [apply elem_of_cons; right; exact Hin|].
        intros s Hs'. apply elem_of_cons in Hs' as [->|Hs'].
        -- apply comparator_positive. exact Hc.
        -- apply Hall. exact Hs'.
      * apply Z.ltb_ge in Hc. apply comparator_nonpositive in Hc.
        split; [apply elem_of_cons; left; reflexivity|].
        intros s Hs'. apply elem_of_cons in Hs' as [->|Hs'].
        -- apply outranks_refl.
        -- apply outranks_trans with h; [exact Hc|]. apply Hall. exact Hs'.
Qed.

Lemma getVoteCount_voteCount (s : Submission) :
  debugVoteCount s ≠ Some 0 -> Voting.getVoteCount s = voteCount s.
Proof.
  intros Hs. unfold Voting.getVoteCount, Js.or_else, voteCount.
  destruct (debugVoteCount s) as [c|]; [|reflexivity].
  destruct (Z.eqb_spec c 0) as [->|_]; [congruence | reflexivity].
Qed.

(** C1: in tally mode, on a ledger that is not empty and whose debug
    counters, where present, are not 0 (as in every reachable world),
    the winner is a submission of the ledger with the largest vote count,
    the count being the debug counter if present and else the number of
    voters, and, among those with that count, the latest timestamp. The
    winner's text, unchanged, is what is announced, with that count, and
    what is handed to the game client; then come the messages that the
    game client's call sends itself, and the error line if it fails. *)
Theorem tally_winner_most_votes_then_latest (w : World) (deps : VotingDeps) :
  submissions (state w) ≠ [] ->
  Js.nonempty (openRouterApiKey (config (state w))) = false ->
  (∀ s, s ∈ submissions (state w) -> debugVoteCount s ≠ Some 0) ->
  ∃ winner,
    winner ∈ submissions (state w)
    ∧ (∀ s, s ∈ submissions (state w) -> voteCount s <= voteCount winner)
    ∧ (∀ s, s ∈ submissions (state w) ->
            voteCount s = voteCount winner ->
            timestamp s <= timestamp winner)
    ∧ state (Voting.combineSubmissions w deps) = state w
    ∧ effects (Voting.combineSubmissions w deps) =
      effects w
      ++ [SendTwitchMessage (Winner (text winner) (voteCount winner));
          SubmitToAID (text winner)]
      ++ map SendTwitchMessage (fst (submitToAID deps (state w) (text winner)))
      ++ match snd (submitToAID deps (state w) (text winner)) with
         | Resolved _ => []
         | Rejected m => [SendTwitchMessage (ErrorNotice m)]
         end.
Proof.
  intros Hne Hkey Hcounted.
  destruct (submissions (state w)) as [|first rest] eqn:Hsubs; [congruence|].
  destruct (sort_head_outranks (first :: rest) first Hne) as [Hin Hall].
  set (winner := hd first (Js.sort Voting.byVotesThenRecency (first :: rest))) in *.
  assert (Hcount : ∀ s, s ∈ first :: rest -> Voting.getVoteCount s = voteCount s).
  { intros s Hs. apply getVoteCount_voteCount, Hcounted, Hs. }
  exists winner.
  split; [exact Hin|].
  split; [|split; [|split]].
  - intros s Hs. rewrite <- (Hcount s Hs), <- (Hcount winner Hin).
    destruct (Hall s Hs) as [H|[H _]]; lia.
  - intros s Hs. rewrite <- (Hcount s Hs), <- (Hcount winner Hin). intros Heq.
    destruct (Hall s Hs) as [H|[_ H]]; lia.
  - unfold Voting.combineSubmissions, Voting.settle. rewrite Hsubs, Hkey. simpl.
    destruct (submitToAID deps (state w) _) as [sent [u|m]]; reflexivity.
  - rewrite <- (Hcount winner Hin).
    unfold Voting.combineSubmissions, Voting.settle. rewrite Hsubs, Hkey.
    simpl negb. cbv iota. fold winner.
    destruct (submitToAID deps (state w) (text winner)) as [sent [u|m]]; simpl;
      rewrite <- ?app_assoc; simpl; rewrite ?app_nil_r; reflexivity.
Qed.

(** Witness for C1, the tie of the specification: A and B have two
    votes each, C has one, and B submitted after A. The winner that the
    theorem gives can only be B: B's text is announced with 2 votes and
    handed to the game client, which reports that it took it. *)
Lemma tally_winner_most_votes_then_latest_witness :
  map (fun s => (user s, voteCount s, timestamp s)) (submissions (state tiedWorld))
  = [("A", 2, 1); ("B", 2, 2); ("C", 1, 3)]
  ∧ effects (Voting.combineSubmissions tiedWorld okDeps) =
    [SendTwitchMessage (Winner "search the room" 2);
     SubmitToAID "search the room";
     SendTwitchMessage ActionSubmitted].
Proof.
  split; [vm_compute; reflexivity|].
  destruct (tally_winner_most_votes_then_latest tiedWorld okDeps)
    as (winner & Hin & Hmax & Hlatest & _ & Heff).
  - vm_compute. discriminate.
  - vm_compute. reflexivity.
  - apply Forall_forall. by_evaluation.
  - rewrite Heff. clear Heff.
    set (a := mkSubmission "A" "open the door" 1 ({["dave"]} ∪ {["a"]}) None).
    set (b := mkSubmission "B" "search the room" 2 ({["erin"]} ∪ {["b"]}) None).
    set (c := mkSubmission "C" "wait" 3 {["c"]} None).
    assert (Hl : submissions (state tiedWorld) = [a; b; c])
      by (vm_compute; reflexivity).
    assert (Ha : voteCount a = 2 ∧ timestamp a = 1) by (vm_compute; auto).
    assert (Hb : voteCount b = 2 ∧ timestamp b = 2) by (vm_compute; auto).
    assert (Hc : voteCount c = 1) by (vm_compute; auto).
    rewrite Hl in Hin, Hmax, Hlatest.
    assert (Hina : a ∈ [a; b; c]) by apply list_elem_of_here.
    assert (Hinb : b ∈ [a; b; c])
      by (apply elem_of_cons; right; apply list_elem_of_here).
    destruct Ha as [Ha Hta]. destruct Hb as [Hb Htb].
    apply elem_of_cons in Hin as [->|Hin];
      [|apply elem_of_cons in Hin as [->|Hin];
        [|apply list_elem_of_singleton in Hin as ->]].
    + exfalso. pose proof (Hlatest b Hinb) as H. lia.
    + reflexivity.
    + exfalso. pose proof (Hmax a Hina) as H. lia.
Defined.

(** End to end: the action handed to the game client is Ann's text, with
    her own vote and the three others, and the session is idle again. *)
Example tally_session_submits_most_voted :
  effects tallySession =
  [SendTwitchMessage (VotingStarted 40); BroadcastState;
   BroadcastState; BroadcastState; BroadcastState; BroadcastState; BroadcastState;
   SendTwitchMessage (VotingClosed 2 "Tallying votes..."); BroadcastState;
   SendTwitchMessage (Winner "open the door" 4); SubmitToAID "open the door";
   SendTwitchMessage ActionSubmitted;
   BroadcastState]
  ∧ phase (state tallySession) = idle
  ∧ timeouts tallySession = [].
Proof. vm_compute. repeat split. Qed.

(** On that ledger the action handed to the game client is B's. *)
Example tally_tie_goes_to_latest :
  effects (Voting.combineSubmissions tiedWorld okDeps) =
  [SendTwitchMessage (Winner "search the room" 2); SubmitToAID "search the room";
   SendTwitchMessage ActionSubmitted].
Proof. vm_compute. reflexivity. Qed.

End Tally.

(** * Phase transitions *)
Section Transitions.
Import Examples.

Lemma clearTimeout_not_pending (h : positive) (w : World) :
  ¬ pending h (clearTimeout h w).
Proof.
  intros (t & Hin & Hh). unfold clearTimeout in Hin. simpl in Hin.
  apply list_elem_of_filter in Hin as [Hne _]. contradiction.
Qed.

Lemma cancelVoteTimer_spec (w : World) :
  voteTimer (state (StateOps.cancelVoteTimer w)) = None
  ∧ (∀ h, voteTimer (state w) = Some h -> ¬ pending h (StateOps.cancelVoteTimer w))
  ∧ phase (state (StateOps.cancelVoteTimer w)) = phase (state w)
  ∧ submissions (state (StateOps.cancelVoteTimer w)) = submissions (state w)
  ∧ voteEndTime (state (StateOps.cancelVoteTimer w)) = voteEndTime (state w).
Proof.
  unfold StateOps.cancelVoteTimer.
  destruct (voteTimer (state w)) as [h|] eqn:Ht; simpl.
  - repeat split. intros h' [= <-]. apply (clearTimeout_not_pending h w).
  - rewrite Ht. repeat split. intros h' [=].
Qed.

(** C3: [transitionToVote] returns false and leaves the world as it is
    unless the phase is idle, and from idle it empties the ledger and
    enters vote; [transitionToCombine] returns false and leaves the
    world as it is unless the phase is vote, and from vote it cancels
    the vote timer and enters combine; [transitionToIdle] ends in idle
    from every phase, with the vote timer cancelled and the vote
    deadline cleared. *)
Theorem transitions_guarded (w : World) :
  (phase (state w) ≠ idle -> StateOps.transitionToVote w = (false, w))
  ∧ (phase (state w) = idle ->
     ∃ w', StateOps.transitionToVote w = (true, w')
           ∧ phase (state w') = vote ∧ submissions (state w') = [])
  ∧ (phase (state w) ≠ vote -> StateOps.transitionToCombine w = (false, w))
  ∧ (phase (state w) = vote ->
     ∃ w', StateOps.transitionToCombine w = (true, w')
           ∧ phase (state w') = combine
           ∧ voteTimer (state w') = None
           ∧ ∀ h, voteTimer (state w) = Some h -> ¬ pending h w')
  ∧ (phase (state (StateOps.transitionToIdle w)) = idle
     ∧ voteTimer (state (StateOps.transitionToIdle w)) = None
     ∧ voteEndTime (state (StateOps.transitionToIdle w)) = None
     ∧ ∀ h, voteTimer (state w) = Some h ->
            ¬ pending h (StateOps.transitionToIdle w)).
Proof.
  destruct (cancelVoteTimer_spec w) as (Hnone & Hcancel & _ & _ & _).
  repeat split.
  - intros H. unfold StateOps.transitionToVote.
    rewrite bool_decide_eq_false_2 by assumption. reflexivity.
  - intros H. unfold StateOps.transitionToVote.
    rewrite bool_decide_eq_true_2 by assumption. simpl.
    eexists. repeat split.
  - intros H. unfold StateOps.transitionToCombine.
    rewrite bool_decide_eq_false_2 by assumption. reflexivity.
  - intros H. unfold StateOps.transitionToCombine.
    rewrite bool_decide_eq_true_2 by assumption. simpl.
    eexists. split; [reflexivity|]. simpl.
    split; [reflexivity|]. split; [exact Hnone|]. exact Hcancel.
  - simpl. exact Hnone.
  - exact Hcancel.
Qed.

(** Witness for C3: the guards on a world in the vote phase with its
    timer pending, and on the initial, idle world. *)
Lemma transitions_guarded_witness :
  StateOps.transitionToVote votingWorld = (false, votingWorld)
  ∧ (∃ w', StateOps.transitionToCombine votingWorld = (true, w')
           ∧ phase (state w') = combine
           ∧ ¬ pending 1%positive w')
  ∧ (∃ w', StateOps.transitionToVote Index.initialWorld = (true, w')
           ∧ phase (state w') = vote ∧ submissions (state w') = [])
  ∧ StateOps.transitionToCombine Index.initialWorld = (false, Index.initialWorld).
Proof.
  destruct (transitions_guarded votingWorld) as (H1 & _ & _ & H4 & _).
  destruct (transitions_guarded Index.initialWorld) as (_ & H2 & H3 & _).
  split; [apply H1; vm_compute; discriminate|].
  split.
  - destruct H4 as (w' & Hw & Hp & _ & Hc); [vm_compute; reflexivity|].
    exists w'. split; [exact Hw|]. split; [exact Hp|].
    apply Hc. vm_compute. reflexivity.
  - split; [apply H2; vm_compute; reflexivity|].
    apply H3. vm_compute. discriminate.
Defined.

End Transitions.

(** * Starting a vote *)
Section StartVote.
Import Examples.

Lemma clearAutoRepeatTimer_spec (w : World) :
  let w' := StateOps.clearAutoRepeatTimer w in
  autoRepeatTimer (state w') = None
  ∧ nextVoteStartTime (state w') = None
  ∧ (∀ h, autoRepeatTimer (state w) = Some h -> ¬ pending h w')
  ∧ phase (state w') = phase (state w)
  ∧ submissions (state w') = submissions (state w)
  ∧ nextHandle w' = nextHandle w
  ∧ (∀ t, t ∈ timeouts w' -> t ∈ timeouts w).
Proof.
  unfold StateOps.clearAutoRepeatTimer.
  destruct (autoRepeatTimer (state w)) as [h|] eqn:Ht; simpl.
  - repeat split.
    + intros h' [= <-]. apply (clearTimeout_not_pending h w).
    + intros t Hin. apply list_elem_of_filter in Hin as [_ Hin]. exact Hin.
  - rewrite Ht. repeat split; [intros h' [=] | auto].
Qed.

(** The auto-repeat timer of the state is no longer pending after
    [handleStartVote], whether the vote starts or not; its handle is
    below the next handle, so the new vote timer is another one. *)
Lemma handleStartVote_cancels_auto_repeat (now : Z) (w : World) (h : positive) :
  autoRepeatTimer (state w) = Some h ->
  (h < nextHandle w)%positive ->
  ¬ pending h (Index.handleStartVote now w).
Proof.
  intros Hh Hlt.
  destruct (clearAutoRepeatTimer_spec w) as (_ & _ & Hcancel & _).
  unfold Index.handleStartVote, StateOps.transitionToVote.
  destruct (bool_decide _); simpl.
  - unfold Voting.setVoteTimer. simpl.
    intros (t & Hin & Ht). simpl in Hin.
    apply elem_of_app in Hin as [Hin|Hin].
    + apply (Hcancel h Hh). exists t. split; [exact Hin | exact Ht].
    + apply list_elem_of_singleton in Hin. subst t. simpl in Ht.
      rewrite Hh in Ht. simpl in Ht. lia.
  - apply (Hcancel h Hh).
Qed.

(** C10: [handleStartVote] first cancels the pending auto-repeat
    timer, sets [isPaused] to false and clears both stored remaining
    durations, and only then attempts the transition to vote; when the
    transition fails that world is the result, and when it succeeds the
    result still has all four properties. The timer handle in the state
    is one that [setTimeout] has handed out, so it is below the next
    handle (as it is in every reachable world). *)
Theorem handleStartVote_resets_pause_state (now : Z) (w : World) :
  let w1 := startVotePrologue w in
  let w' := Index.handleStartVote now w in
  (autoRepeatTimer (state w1) = None
   ∧ isPaused (state w1) = false
   ∧ pausedVoteRemaining (state w1) = None
   ∧ pausedAutoRepeatRemaining (state w1) = None
   ∧ (∀ h, autoRepeatTimer (state w) = Some h -> ¬ pending h w1))
  ∧ (fst (StateOps.transitionToVote w1) = false -> w' = w1)
  ∧ (fst (StateOps.transitionToVote w1) = true ->
     phase (state w') = vote ∧ submissions (state w') = [])
  ∧ (autoRepeatTimer (state w') = None
     ∧ isPaused (state w') = false
     ∧ pausedVoteRemaining (state w') = None
     ∧ pausedAutoRepeatRemaining (state w') = None
     ∧ (∀ h, autoRepeatTimer (state w) = Some h ->
             (h < nextHandle w)%positive -> ¬ pending h w')).
Proof.
  intros w1 w'.
  destruct (clearAutoRepeatTimer_spec w) as (Hat & _ & Hcancel & _).
  assert (Hpro : autoRepeatTimer (state w1) = None
                 ∧ isPaused (state w1) = false
                 ∧ pausedVoteRemaining (state w1) = None
                 ∧ pausedAutoRepeatRemaining (state w1) = None
                 ∧ (∀ h, autoRepeatTimer (state w) = Some h -> ¬ pending h w1)).
  { repeat split; [exact Hat | exact Hcancel]. }
  assert (Hcases :
    (fst (StateOps.transitionToVote w1) = false ∧ w' = w1)
    ∨ (fst (StateOps.transitionToVote w1) = true
       ∧ phase (state w') = vote ∧ submissions (state w') = []
       ∧ autoRepeatTimer (state w') = None
       ∧ isPaused (state w') = false
       ∧ pausedVoteRemaining (state w') = None
       ∧ pausedAutoRepeatRemaining (state w') = None)).
  { unfold w', Index.handleStartVote. fold (startVotePrologue w). fold w1.
    unfold StateOps.transitionToVote.
    destruct (bool_decide (phase (state w1) = idle)); simpl.
    - right. unfold Voting.setVoteTimer. simpl. repeat split. exact Hat.
    - left. split; reflexivity. }
  split; [exact Hpro|].
  destruct Hpro as (H1 & H2 & H3 & H4 & H5).
  destruct Hcases as [[Hf Hw]|(Ht & Hp & Hs & G1 & G2 & G3 & G4)].
  - rewrite Hf, Hw. split; [reflexivity|]. split; [discriminate|].
    repeat split; try assumption. intros h Hh _. apply H5, Hh.
  - rewrite Ht. split; [discriminate|]. split; [auto|].
    repeat split; try assumption.
    intros h Hh Hlt. apply (handleStartVote_cancels_auto_repeat now w h Hh Hlt).
Qed.

(** Witness for C10: a start during a running vote, where the transition
    fails, and a manual start at instant 5000 while the auto-repeat
    timer 1 is pending. *)
Lemma handleStartVote_resets_pause_state_witness :
  Index.handleStartVote 7000 votingWorld = startVotePrologue votingWorld
  ∧ autoRepeatTimer (state repeatingWorld) = Some 1%positive
  ∧ pending 1%positive repeatingWorld
  ∧ phase (state (Index.handleStartVote 5000 repeatingWorld)) = vote
  ∧ autoRepeatTimer (state (Index.handleStartVote 5000 repeatingWorld)) = None
  ∧ ¬ pending 1%positive (Index.handleStartVote 5000 repeatingWorld).
Proof.
  destruct (handleStartVote_resets_pause_state 7000 votingWorld)
    as (_ & Hfail & _).
  destruct (handleStartVote_resets_pause_state 5000 repeatingWorld)
    as (_ & _ & Hok & Hat & _ & _ & _ & Hcancel).
  split; [apply Hfail; vm_compute; reflexivity|].
  split; [vm_compute; reflexivity|].
  split; [eexists; split; [apply list_elem_of_singleton; vm_compute; reflexivity | reflexivity]|].
  split; [apply Hok; vm_compute; reflexivity|].
  split; [exact Hat|].
  apply Hcancel; vm_compute; reflexivity.
Defined.

End StartVote.

(** * Pause and resume *)
Section PauseResume.
Import Examples.

(** Pausing in the vote phase stores [max(0, deadline - now)] and
    cancels the vote timer. *)
Lemma pause_vote (p d : Z) (w : World) :
  phase (state w) = vote ->
  voteEndTime (state w) = Some d ->
  d ≠ 0 ->
  isPaused (state w) = false ->
  let w1 := Index.handleTogglePause p w in
  phase (state w1) = vote
  ∧ isPaused (state w1) = true
  ∧ pausedVoteRemaining (state w1) = Some (Z.max 0 (d - p))
  ∧ voteTimer (state w1) = None
  ∧ (∀ h, voteTimer (state w) = Some h -> ¬ pending h w1).
Proof.
  intros Hph Hend Hd0 Hp.
  assert (Hd : (d =? 0) = false) by (apply Z.eqb_neq; exact Hd0).
  destruct w as [st tos nh eff]. destruct st. simpl in *. subst.
  unfold Index.handleTogglePause, Pause.togglePause, Pause.pauseTimers,
    StateOps.cancelVoteTimer. simpl. rewrite Hd. simpl.
  destruct voteTimer0 as [h|]; simpl; repeat split; try discriminate.
  intros h' [= <-] (t & Hin & Ht). simpl in Hin.
  apply list_elem_of_filter in Hin as [Hne _]. contradiction.
Qed.

(** Resuming in the vote phase with a stored remaining time [r] other
    than 0 schedules the expiry callback [r] after the resume instant
    and moves the deadline there. *)
Lemma resume_vote (t r : Z) (w1 : World) :
  phase (state w1) = vote ->
  isPaused (state w1) = true ->
  pausedVoteRemaining (state w1) = Some r ->
  r ≠ 0 ->
  let w2 := Index.handleTogglePause t w1 in
  voteEndTime (state w2) = Some (t + r)
  ∧ timeouts w2 = timeouts w1 ++ [mkTimeout (nextHandle w1) (Direct HandleEndVote) t r]
  ∧ voteTimer (state w2) = Some (nextHandle w1)
  ∧ pausedVoteRemaining (state w2) = None
  ∧ isPaused (state w2) = false.
Proof.
  intros Hph Hp Hrem Hr0.
  assert (Hr : (r =? 0) = false) by (apply Z.eqb_neq; exact Hr0).
  destruct w1 as [st tos nh eff]. destruct st. simpl in *. subst.
  unfold Index.handleTogglePause, Pause.togglePause, Pause.resumeTimers.
  simpl. rewrite Hr. simpl. repeat split.
Qed.

Lemma pause_auto_repeat (p d : Z) (w : World) :
  phase (state w) = idle ->
  nextVoteStartTime (state w) = Some d ->
  d ≠ 0 ->
  isPaused (state w) = false ->
  let w1 := Index.handleTogglePause p w in
  phase (state w1) = idle
  ∧ isPaused (state w1) = true
  ∧ pausedAutoRepeatRemaining (state w1) = Some (Z.max 0 (d - p))
  ∧ autoRepeatTimer (state w1) = None
  ∧ (∀ h, autoRepeatTimer (state w) = Some h -> ¬ pending h w1).
Proof.
  intros Hph Hend Hd0 Hp.
  assert (Hd : (d =? 0) = false) by (apply Z.eqb_neq; exact Hd0).
  destruct w as [st tos nh eff]. destruct st. simpl in *. subst.
  unfold Index.handleTogglePause, Pause.togglePause, Pause.pauseTimers,
    StateOps.clearAutoRepeatTimer, Pause.and_truthy. simpl. rewrite Hd. simpl.
  destruct voteEndTime0, autoRepeatTimer0 as [h|]; simpl;
    repeat split; try discriminate;
    intros h' [= <-] (t & Hin & Ht); simpl in Hin;
    apply list_elem_of_filter in Hin as [Hne _]; contradiction.
Qed.

Lemma resume_auto_repeat (t r : Z) (w1 : World) :
  phase (state w1) = idle ->
  isPaused (state w1) = true ->
  pausedAutoRepeatRemaining (state w1) = Some r ->
  r ≠ 0 ->
  let w2 := Index.handleTogglePause t w1 in
  nextVoteStartTime (state w2) = Some (t + r)
  ∧ timeouts w2 =
    timeouts w1 ++ [mkTimeout (nextHandle w1) (AutoRepeatThen HandleStartVote) t r]
  ∧ autoRepeatTimer (state w2) = Some (nextHandle w1)
  ∧ pausedAutoRepeatRemaining (state w2) = None
  ∧ isPaused (state w2) = false.
Proof.
  intros Hph Hp Hrem Hr0.
  assert (Hr : (r =? 0) = false) by (apply Z.eqb_neq; exact Hr0).
  destruct w1 as [st tos nh eff]. destruct st. simpl in *. subst.
  unfold Index.handleTogglePause, Pause.togglePause, Pause.resumeTimers,
    Pause.and_truthy.
  simpl. rewrite Hr. simpl. destruct pausedVoteRemaining0; repeat split.
Qed.

(** X25: a vote timer paused with a positive remaining time [r] is
    resumed with a fresh callback due exactly [r] after the resume
    instant [t], and the new deadline is [t + r], whatever [t] is. *)
Lemma pause_resume_vote_exact (p t d : Z) (w : World) :
  phase (state w) = vote ->
  voteEndTime (state w) = Some d ->
  d ≠ 0 ->
  isPaused (state w) = false ->
  let r := Z.max 0 (d - p) in
  0 < r ->
  let w1 := Index.handleTogglePause p w in
  let w2 := Index.handleTogglePause t w1 in
  voteEndTime (state w2) = Some (t + r)
  ∧ timeouts w2 = timeouts w1 ++ [mkTimeout (nextHandle w1) (Direct HandleEndVote) t r]
  ∧ voteTimer (state w2) = Some (nextHandle w1)
  ∧ pausedVoteRemaining (state w2) = None
  ∧ isPaused (state w2) = false.
Proof.
  intros Hph Hend Hd0 Hp r Hr w1 w2.
  destruct (pause_vote p d w Hph Hend Hd0 Hp) as (H1 & H2 & H3 & _).
  apply (resume_vote t r w1 H1 H2 H3). lia.
Qed.

(** X26: an auto-repeat timer paused with a positive remaining time [r]
    is resumed with a fresh callback due exactly [r] after the resume
    instant [t], and the next start shown is [t + r], whatever [t] is. *)
Lemma pause_resume_auto_repeat_exact (p t d : Z) (w : World) :
  phase (state w) = idle ->
  nextVoteStartTime (state w) = Some d ->
  d ≠ 0 ->
  isPaused (state w) = false ->
  let r := Z.max 0 (d - p) in
  0 < r ->
  let w1 := Index.handleTogglePause p w in
  let w2 := Index.handleTogglePause t w1 in
  nextVoteStartTime (state w2) = Some (t + r)
  ∧ timeouts w2 =
    timeouts w1 ++ [mkTimeout (nextHandle w1) (AutoRepeatThen HandleStartVote) t r]
  ∧ autoRepeatTimer (state w2) = Some (nextHandle w1)
  ∧ pausedAutoRepeatRemaining (state w2) = None
  ∧ isPaused (state w2) = false.
Proof.
  intros Hph Hend Hd0 Hp r Hr w1 w2.
  destruct (pause_auto_repeat p d w Hph Hend Hd0 Hp) as (H1 & H2 & H3 & _).
  apply (resume_auto_repeat t r w1 H1 H2 H3). lia.
Qed.

(** C4, vote timer paused exactly at its deadline: the remaining time
    stored is 0; on resume, 20 seconds later, no callback is scheduled,
    the vote timer stays empty and the deadline keeps its old value
    instead of becoming the resume instant plus 0. *)
Theorem resume_with_zero_remaining_schedules_nothing :
  let paused := Index.handleTogglePause 40000 votingWorld in
  let resumed := Index.handleTogglePause 60000 paused in
  voteEndTime (state votingWorld) = Some 40000
  ∧ pausedVoteRemaining (state paused) = Some (Z.max 0 (40000 - 40000))
  ∧ timeouts paused = []
  ∧ phase (state resumed) = vote
  ∧ isPaused (state resumed) = false
  ∧ timeouts resumed = []
  ∧ voteTimer (state resumed) = None
  ∧ voteEndTime (state resumed) = Some 40000
  ∧ voteEndTime (state resumed) ≠ Some (60000 + Z.max 0 (40000 - 40000)).
Proof. vm_compute. repeat split; discriminate. Qed.

(** The same instants for the auto-repeat timer: paused at the planned
    start 31000 with 0 remaining, resumed at 50000; the resume falls
    through to a fresh cooldown of 30 seconds instead of a callback due
    at once. *)
Example resume_auto_repeat_with_zero_remaining_starts_over :
  let paused := Index.handleTogglePause 31000 repeatingWorld in
  let resumed := Index.handleTogglePause 50000 paused in
  nextVoteStartTime (state repeatingWorld) = Some 31000
  ∧ pausedAutoRepeatRemaining (state paused) = Some 0
  ∧ timeouts resumed = [mkTimeout 2 (AutoRepeatThen HandleStartVote) 50000 30000]
  ∧ nextVoteStartTime (state resumed) = Some 80000.
Proof. vm_compute. repeat split. Qed.

(** The world of that run is one the event loop can reach: the start
    of the vote, the pause and the resume are three steps. *)
Lemma resumed_world_reachable :
  Index.reachable
    (Index.handleTogglePause 60000 (Index.handleTogglePause 40000 votingWorld)).
Proof.
  apply (Index.reachable_step (Index.handleTogglePause 40000 votingWorld)
           60000 Index.TogglePause);
    [|exact (Index.step_pause (Index.handleTogglePause 40000 votingWorld) 60000)].
  apply (Index.reachable_step votingWorld 40000 Index.TogglePause);
    [|exact (Index.step_pause votingWorld 40000)].
  apply (Index.reachable_step Index.initialWorld 0 Index.StartVote);
    [exact Index.reachable_init | exact (Index.step_start Index.initialWorld 0)].
Qed.

End PauseResume.

(** * The ledger along the event loop *)
Section LedgerInvariant.
Import Examples.

Lemma handleStartVote_ledger (now : Z) (w : World) :
  (phase (state w) = idle ->
   phase (state (Index.handleStartVote now w)) = vote
   ∧ submissions (state (Index.handleStartVote now w)) = [])
  ∧ (phase (state w) ≠ idle ->
     phase (state (Index.handleStartVote now w)) = phase (state w)
     ∧ submissions (state (Index.handleStartVote now w)) = submissions (state w)).
Proof.
  unfold Index.handleStartVote, StateOps.transitionToVote,
    StateOps.clearAutoRepeatTimer.
  destruct (autoRepeatTimer (state w)); simpl; split; intros H.
  all: try (rewrite bool_decide_eq_true_2 by assumption; simpl; auto).
  all: rewrite bool_decide_eq_false_2 by assumption; simpl; auto.
Qed.

Lemma handleEndVote_ledger (w : World) :
  submissions (state (Index.handleEndVote w)) = submissions (state w)
  ∧ (phase (state w) = vote -> phase (state (Index.handleEndVote w)) = combine)
  ∧ (phase (state w) ≠ vote ->
     phase (state (Index.handleEndVote w)) = phase (state w)).
Proof.
  unfold Index.handleEndVote, StateOps.transitionToCombine. simpl.
  destruct (decide (phase (state w) = vote)) as [H|H].
  - rewrite bool_decide_eq_true_2 by assumption. simpl.
    destruct (cancelVoteTimer_spec
                (with_state (set_pausedVoteRemaining None) w))
      as (_ & _ & _ & Hsub & _).
    repeat split; [exact Hsub | congruence].
  - rewrite bool_decide_eq_false_2 by assumption. simpl.
    repeat split; congruence.
Qed.

Lemma scheduleAutoRepeat_ledger (now : Z) (w : World) :
  phase (state (Index.scheduleAutoRepeat now w)) = phase (state w)
  ∧ submissions (state (Index.scheduleAutoRepeat now w)) = submissions (state w).
Proof.
  unfold Index.scheduleAutoRepeat.
  destruct (isPaused (state w)); [auto|].
  destruct (autoRepeatCooldownSeconds (config (state w))) as [n|]; [|auto].
  destruct (n =? 0); auto.
Qed.

Lemma handleTogglePause_ledger (now : Z) (w : World) :
  phase (state (Index.handleTogglePause now w)) = phase (state w)
  ∧ submissions (state (Index.handleTogglePause now w)) = submissions (state w).
Proof.
  unfold Index.handleTogglePause, Pause.togglePause. simpl.
  set (w1 := with_state (fun s => set_isPaused (negb (isPaused s)) s) w).
  assert (H1 : phase (state w1) = phase (state w)
               ∧ submissions (state w1) = submissions (state w)) by auto.
  destruct H1 as [<- <-].
  destruct (negb (isPaused (state w))).
  - unfold Pause.pauseTimers.
    destruct (Pause.and_truthy _ (voteEndTime (state w1))).
    + destruct (cancelVoteTimer_spec
                  (with_state (set_pausedVoteRemaining (Some (Z.max 0 (z - now)))) w1))
        as (_ & _ & Hph & Hsub & _). auto.
    + destruct (Pause.and_truthy _ (nextVoteStartTime (state w1))); [|auto].
      destruct (clearAutoRepeatTimer_spec
                  (with_state
                     (set_pausedAutoRepeatRemaining (Some (Z.max 0 (z - now)))) w1))
        as (_ & _ & _ & Hph & Hsub & _). auto.
  - unfold Pause.resumeTimers.
    destruct (Pause.and_truthy _ (pausedVoteRemaining (state w1))); [auto|].
    destruct (Pause.and_truthy _ (pausedAutoRepeatRemaining (state w1))); [auto|].
    destruct (_ && _); [|auto].
    apply scheduleAutoRepeat_ledger.
Qed.

Lemma combineSubmissions_ledger (w : World) (deps : VotingDeps) :
  phase (state (Voting.combineSubmissions w deps)) = phase (state w)
  ∧ submissions (state (Voting.combineSubmissions w deps)) = submissions (state w).
Proof.
  unfold Voting.combineSubmissions, Voting.settle.
  destruct (submissions (state w)) as [|first rest] eqn:Hs; [simpl; auto|].
  destruct (negb _).
  - destruct (submitToAID deps _ _) as [sent [u|m]]; simpl; auto.
  - destruct (recursiveMerge deps _ _ _ _) as [merged|m]; [|simpl; auto].
    destruct (debugInfo merged); destruct (submitToAID deps _ _) as [sent [u|m']];
      simpl; auto.
Qed.

Lemma combineAndSubmit_ledger (now : Z) (deps : VotingDeps) (w : World) :
  phase (state (Index.combineAndSubmit now deps w)) = idle
  ∧ submissions (state (Index.combineAndSubmit now deps w)) = submissions (state w).
Proof.
  unfold Index.combineAndSubmit, Index.broadcastState. simpl.
  destruct (scheduleAutoRepeat_ledger now
              (StateOps.transitionToIdle (Voting.combineSubmissions w deps)))
    as [-> ->].
  destruct (combineSubmissions_ledger w deps) as [_ <-].
  unfold StateOps.transitionToIdle. simpl.
  destruct (cancelVoteTimer_spec (Voting.combineSubmissions w deps))
    as (_ & _ & _ & Hsub & _).
  auto.
Qed.

Lemma handleSubmission_length (now : Z) (st : State) (user text : string)
    (debugMode : bool) :
  phase (Voting.handleSubmission now st user text debugMode) = phase st
  ∧ (length (submissions st)
     <= length (submissions (Voting.handleSubmission now st user text debugMode)))%nat.
Proof.
  unfold Voting.handleSubmission.
  destruct (_ || _); [auto|].
  destruct debugMode; simpl.
  - rewrite length_app. simpl. split; [reflexivity | lia].
  - destruct (Js.find_index _ _) as [[i existing]|]; simpl.
    + rewrite length_insert. auto.
    + rewrite length_app. simpl. split; [reflexivity | lia].
Qed.

Lemma handleVote_length (st : State) (voter target : string) (debugMode : bool) :
  phase (Voting.handleVote st voter target debugMode) = phase st
  ∧ length (submissions (Voting.handleVote st voter target debugMode))
    = length (submissions st).
Proof.
  unfold Voting.handleVote.
  destruct (Js.find_index _ _) as [[i s]|]; [|auto].
  destruct (_ || _); [|auto]. simpl. rewrite length_insert. auto.
Qed.

Lemma parseVoteOrSubmission_ledger (now : Z) (w : World) (user text : string) :
  phase (state (Index.parseVoteOrSubmission now w user text)) = phase (state w)
  ∧ (length (submissions (state w))
     <= length (submissions (state (Index.parseVoteOrSubmission now w user text))))%nat.
Proof.
  unfold Index.parseVoteOrSubmission.
  destruct (Index.matchVote text) as [name|]; simpl.
  - destruct (handleVote_length (state w) user (Js.toLowerCase name)
                (debugMode (config (state w)))) as [-> ->]. auto.
  - destruct (Index.matchSubmission text) as [captured|]; simpl; [|auto].
    apply handleSubmission_length.
Qed.

Lemma ledgerStep_unchanged (w w' : World) :
  phase (state w') = phase (state w) ->
  submissions (state w') = submissions (state w) ->
  ledgerStep w w'.
Proof.
  intros Hp Hs. unfold ledgerStep. rewrite Hp, Hs.
  repeat split; try congruence; auto.
Qed.

Lemma ledgerStep_same_state (w w1 w' : World) :
  phase (state w1) = phase (state w) ->
  submissions (state w1) = submissions (state w) ->
  ledgerStep w1 w' -> ledgerStep w w'.
Proof. unfold ledgerStep. intros -> ->. auto. Qed.

Lemma handleStartVote_ledgerStep (now : Z) (w : World) :
  ledgerStep w (Index.handleStartVote now w).
Proof.
  destruct (handleStartVote_ledger now w) as [Hidle Hother].
  destruct (decide (phase (state w) = idle)) as [H|H].
  - destruct (Hidle H) as [Hp Hs]. unfold ledgerStep. rewrite Hp, Hs.
    repeat split; auto; congruence.
  - destruct (Hother H). apply ledgerStep_unchanged; assumption.
Qed.

Lemma handleEndVote_ledgerStep (w : World) :
  ledgerStep w (Index.handleEndVote w).
Proof.
  destruct (handleEndVote_ledger w) as (Hs & Hvote & Hother).
  destruct (decide (phase (state w) = vote)) as [H|H].
  - unfold ledgerStep. rewrite Hs, (Hvote H).
    repeat split; auto; congruence.
  - apply ledgerStep_unchanged; auto.
Qed.

Lemma runCallback_ledgerStep (cb : Callback) (now : Z) (w : World) :
  ledgerStep w (Index.runCallback cb now w).
Proof.
  destruct cb as [h|h]; simpl.
  - destruct h; [apply handleStartVote_ledgerStep | apply handleEndVote_ledgerStep].
  - eapply ledgerStep_same_state;
      [| | destruct h; [apply handleStartVote_ledgerStep
                       | apply handleEndVote_ledgerStep]]; reflexivity.
Qed.

Lemma parseVoteOrSubmission_ledgerStep (now : Z) (w : World) (user text : string) :
  phase (state w) = vote ->
  ledgerStep w (Index.parseVoteOrSubmission now w user text).
Proof.
  intros Hv.
  destruct (parseVoteOrSubmission_ledger now w user text) as [Hp Hl].
  unfold ledgerStep. rewrite Hp. repeat split; auto; congruence.
Qed.

Lemma handleTwitchChatMessage_ledgerStep (now : Z) (w : World) (m : TwitchMessage) :
  ledgerStep w (Index.handleTwitchChatMessage now w m).
Proof.
  unfold Index.handleTwitchChatMessage.
  destruct (String.eqb _ "!vote").
  { destruct (_ || _); [apply handleStartVote_ledgerStep
                       | apply ledgerStep_unchanged; reflexivity]. }
  destruct (String.eqb _ "!tally").
  { destruct (_ || _); [apply handleEndVote_ledgerStep
                       | apply ledgerStep_unchanged; reflexivity]. }
  destruct (decide (phase (state w) = vote)) as [Hv|Hv].
  - rewrite bool_decide_eq_true_2 by assumption. simpl.
    apply parseVoteOrSubmission_ledgerStep. exact Hv.
  - rewrite bool_decide_eq_false_2 by assumption. simpl.
    apply ledgerStep_unchanged; reflexivity.
Qed.

(** Every step of the event loop is a ledger step. *)
Lemma step_ledgerStep (w : World) (now : Z) (e : Index.Event) (w' : World) :
  Index.step w now e w' -> ledgerStep w w'.
Proof.
  intros Hstep. destruct Hstep.
  - apply handleTwitchChatMessage_ledgerStep.
  - unfold Index.handleYouTubeChatMessage.
    destruct (decide (phase (state w) = vote)) as [Hv|Hv].
    + rewrite bool_decide_eq_true_2 by assumption. simpl.
      apply parseVoteOrSubmission_ledgerStep. exact Hv.
    + rewrite bool_decide_eq_false_2 by assumption. simpl.
      apply ledgerStep_unchanged; reflexivity.
  - apply ledgerStep_unchanged; reflexivity.
  - apply handleStartVote_ledgerStep.
  - apply handleEndVote_ledgerStep.
  - apply ledgerStep_unchanged; apply handleTogglePause_ledger.
  - eapply ledgerStep_same_state; [| |apply runCallback_ledgerStep]; reflexivity.
  - destruct (combineAndSubmit_ledger now deps w) as [Hp Hs].
    unfold ledgerStep. rewrite Hp, Hs. repeat split; auto; congruence.
  - apply ledgerStep_unchanged; reflexivity.
  - apply ledgerStep_unchanged; reflexivity.
Qed.

(** A chat line that parses as a vote or as a submission is not one of
    the two commands. *)
Lemma vote_or_submission_not_command (text : string) :
  Index.matchVote text ≠ None ∨ Index.matchSubmission text ≠ None ->
  isCommand text = false.
Proof.
  intros H. unfold isCommand.
  destruct text as [|c r]; [destruct H as [H|H]; exfalso; apply H; reflexivity|].
  destruct (Ascii.eqb c "+") eqn:Hplus; [apply Ascii.eqb_eq in Hplus; subst; reflexivity|].
  destruct (Ascii.eqb c "@") eqn:Hat; [apply Ascii.eqb_eq in Hat; subst; reflexivity|].
  destruct (Ascii.eqb c ">") eqn:Hgt; [apply Ascii.eqb_eq in Hgt; subst; reflexivity|].
  exfalso.
  destruct c as [[] [] [] [] [] [] [] []]; simpl in *;
    try discriminate; destruct H as [H|H]; apply H; reflexivity.
Qed.

(** C5: along the event loop, from every reachable world: a chat line
    that is a vote or a submission and arrives outside the vote phase
    leaves the world, and so the ledger, unchanged; a step that enters
    the vote phase starts from idle and leaves an empty ledger; a step
    that starts and ends outside the vote phase leaves the ledger
    unchanged; and a step inside the vote phase never shortens the
    ledger. *)
Theorem ledger_changes_only_in_vote_phase
    (w : World) (now : Z) (e : Index.Event) (w' : World) :
  Index.reachable w ->
  Index.step w now e w' ->
  (phase (state w) ≠ vote ->
   (∀ user text, e = Index.YouTubeChat user text -> w' = w)
   ∧ (∀ m, e = Index.TwitchChat m ->
           Index.matchVote (msgText m) ≠ None
           ∨ Index.matchSubmission (msgText m) ≠ None ->
           w' = w))
  ∧ (phase (state w) ≠ vote -> phase (state w') = vote ->
     phase (state w) = idle ∧ submissions (state w') = [])
  ∧ (phase (state w) ≠ vote -> phase (state w') ≠ vote ->
     submissions (state w') = submissions (state w))
  ∧ (phase (state w) = vote ->
     (length (submissions (state w)) <= length (submissions (state w')))%nat).
Proof.
  intros _ Hstep.
  destruct (step_ledgerStep w now e w' Hstep) as (Henter & Hout & Hin).
  split; [|split; [exact Henter|split; [exact Hout|]]].
  - intros Hph. split.
    + intros user text ->. inversion Hstep; subst; [|reflexivity].
      unfold Index.handleYouTubeChatMessage.
      rewrite bool_decide_eq_false_2 by assumption. reflexivity.
    + intros m -> Hm. inversion Hstep; subst.
      apply vote_or_submission_not_command in Hm. unfold isCommand in Hm.
      apply orb_false_iff in Hm as [Hv Ht].
      unfold Index.handleTwitchChatMessage. rewrite Hv, Ht.
      rewrite bool_decide_eq_false_2 by assumption. reflexivity.
  - intros Hph. apply (Hin Hph).
Qed.

Lemma votingWorld_reachable : Index.reachable votingWorld.
Proof.
  apply (Index.reachable_step Index.initialWorld 0 Index.StartVote);
    [exact Index.reachable_init | exact (Index.step_start Index.initialWorld 0)].
Qed.

Lemma combiningWorld_reachable : Index.reachable combiningWorld.
Proof.
  apply (Index.reachable_step
           (Index.handleTwitchChatMessage 100 votingWorld aliceSubmits) 150
           Index.EndVote);
    [|exact (Index.step_end _ 150)].
  apply (Index.reachable_step votingWorld 100 (Index.TwitchChat aliceSubmits));
    [|exact (Index.step_twitch votingWorld 100 aliceSubmits)].
  exact votingWorld_reachable.
Qed.

(** Witness for C5: Bob's vote arrives in the combine phase and changes
    nothing, the ledger still holding Alice's submission; the start of a
    vote from the initial world enters the vote phase with an empty
    ledger; a pause toggled in the combine phase keeps the ledger; and
    Alice's submission in the vote phase does not shorten it. *)
Lemma ledger_changes_only_in_vote_phase_witness :
  phase (state combiningWorld) = combine
  ∧ length (submissions (state combiningWorld)) = 1%nat
  ∧ Index.handleTwitchChatMessage 200 combiningWorld lateVote = combiningWorld
  ∧ submissions (state (Index.handleStartVote 0 Index.initialWorld)) = []
  ∧ submissions (state (Index.handleTogglePause 300 combiningWorld))
    = submissions (state combiningWorld)
  ∧ (length (submissions (state votingWorld))
     <= length (submissions
                  (state (Index.handleTwitchChatMessage 100 votingWorld aliceSubmits))))%nat.
Proof.
  destruct (ledger_changes_only_in_vote_phase combiningWorld 300
              Index.TogglePause (Index.handleTogglePause 300 combiningWorld)
              combiningWorld_reachable (Index.step_pause combiningWorld 300))
    as (_ & _ & Hstay & _).
  destruct (ledger_changes_only_in_vote_phase votingWorld 100
              (Index.TwitchChat aliceSubmits)
              (Index.handleTwitchChatMessage 100 votingWorld aliceSubmits)
              votingWorld_reachable
              (Index.step_twitch votingWorld 100 aliceSubmits))
    as (_ & _ & _ & Hgrow).
  destruct (ledger_changes_only_in_vote_phase combiningWorld 200
              (Index.TwitchChat lateVote)
              (Index.handleTwitchChatMessage 200 combiningWorld lateVote)
              combiningWorld_reachable
              (Index.step_twitch combiningWorld 200 lateVote))
    as (Hchat & _).
  destruct (ledger_changes_only_in_vote_phase Index.initialWorld 0
              Index.StartVote (Index.handleStartVote 0 Index.initialWorld)
              Index.reachable_init (Index.step_start Index.initialWorld 0))
    as (_ & Henter & _).
  split; [vm_compute; reflexivity|].
  split; [vm_compute; reflexivity|].
  split.
  - destruct Hchat as [_ Htwitch]; [vm_compute; discriminate|].
    apply (Htwitch lateVote eq_refl). left. vm_compute. discriminate.
  - split; [apply Henter; vm_compute; [discriminate | reflexivity]|].
    split; [apply Hstay; vm_compute; discriminate|].
    apply Hgrow. vm_compute. reflexivity.
Defined.

End LedgerInvariant.

(** * The recursive merge *)
Section Batches.
Context {A : Type}.
Implicit Types (l : list A) (size fuel i k : nat).

Local Open Scope nat_scope.

(** The batches of the loop, glued back together, are the part of the
    list from the start index on, provided the loop was given enough
    iterations. *)
Lemma batchLoop_concat fuel i size l :
  1 <= size -> length l <= i + fuel ->
  concat (OpenRouter.batchLoop fuel i size l) = drop i l.
Proof.
  intros Hsize. revert i. induction fuel as [|fuel IH]; intros i Hfuel; simpl.
  - symmetry. apply drop_ge. lia.
  - destruct (i <? length l) eqn:Hi.
    + simpl. rewrite IH by lia. unfold OpenRouter.slice.
      replace (i + size - i) with size by lia.
      rewrite <- (drop_drop l size i). apply take_drop.
    + apply Nat.ltb_ge in Hi. symmetry. apply drop_ge. exact Hi.
Qed.

(** The [k]-th batch is the slice that starts [k] batch sizes after the
    start index. *)
Lemma batchLoop_lookup fuel i size l k b :
  OpenRouter.batchLoop fuel i size l !! k = Some b ->
  b = take size (drop (i + k * size) l) ∧ i + k * size < length l.
Proof.
  revert i k. induction fuel as [|fuel IH]; intros i k H; simpl in H.
  - discriminate.
  - destruct (i <? length l) eqn:Hi; [|discriminate].
    apply Nat.ltb_lt in Hi. destruct k as [|k]; simpl in H.
    + injection H as <-. unfold OpenRouter.slice.
      replace (i + size - i) with size by lia.
      replace (i + 0 * size) with i by lia. auto.
    + apply IH in H as [-> Hlt].
      replace (i + size + k * size) with (i + S k * size) in * by lia. auto.
Qed.

(** All batches but possibly the last are full, and the last one is
    not empty: with [n] batches, [(n - 1) * size] elements are not
    enough to fill the list. *)
Lemma batchLoop_count fuel i size l :
  let n := length (OpenRouter.batchLoop fuel i size l) in
  n = 0 ∨ (n - 1) * size < length l - i.
Proof.
  revert i. induction fuel as [|fuel IH]; intros i; simpl; [auto|].
  destruct (i <? length l) eqn:Hi; [|auto].
  apply Nat.ltb_lt in Hi. right. simpl.
  destruct (IH (i + size)) as [H0|Hn].
  - rewrite H0. simpl. lia.
  - set (n := length (OpenRouter.batchLoop fuel (i + size) size l)) in *.
    destruct n as [|n]; simpl in *; nia.
Qed.

(** With enough iterations the loop covers the list: the number of
    batches times the batch size reaches the length. *)
Lemma batchLoop_covers fuel i size l :
  1 <= size -> length l <= i + fuel ->
  length l - i <= length (OpenRouter.batchLoop fuel i size l) * size.
Proof.
  intros Hsize. revert i. induction fuel as [|fuel IH]; intros i Hfuel; simpl.
  - lia.
  - destruct (i <? length l) eqn:Hi.
    + simpl. specialize (IH (i + size) ltac:(lia)). lia.
    + apply Nat.ltb_ge in Hi. simpl. lia.
Qed.

Lemma splitBatches_concat size l :
  1 <= size -> concat (OpenRouter.splitBatches size l) = l.
Proof.
  intros Hsize. unfold OpenRouter.splitBatches.
  rewrite batchLoop_concat by lia. apply drop_0.
Qed.

Lemma splitBatches_lookup size l k b :
  OpenRouter.splitBatches size l !! k = Some b ->
  b = take size (drop (k * size) l) ∧ k * size < length l.
Proof.
  intros H. apply batchLoop_lookup in H. exact H.
Qed.

(** More than one batch means fewer batches than elements, as soon as
    a batch holds two elements or more. *)
Lemma splitBatches_fewer size l :
  2 <= size ->
  1 < length (OpenRouter.splitBatches size l) ->
  length (OpenRouter.splitBatches size l) < length l.
Proof.
  intros Hsize Hmany. unfold OpenRouter.splitBatches in *.
  destruct (batchLoop_count (length l) 0 size l) as [H0|Hn]; [lia|].
  set (n := length (OpenRouter.batchLoop (length l) 0 size l)) in *.
  nia.
Qed.

(** A list longer than the batch size gives at least two batches. *)
Lemma splitBatches_many size l :
  1 <= size -> size < length l ->
  1 < length (OpenRouter.splitBatches size l).
Proof.
  intros Hsize Hlong. unfold OpenRouter.splitBatches.
  pose proof (batchLoop_covers (length l) 0 size l Hsize ltac:(lia)) as H.
  set (n := length (OpenRouter.batchLoop (length l) 0 size l)) in *.
  destruct n as [|[|n]]; simpl in *; lia.
Qed.

End Batches.

Section RecursiveMerge.
Import Examples OpenRouter.

Variable fetchCompletion : nat -> Request -> Completion string.
Variable completedAt : nat -> Z.

Local Open Scope nat_scope.

Lemma batchSize_value : batchSize = 320.
Proof. vm_compute. reflexivity. Qed.

Lemma promiseAll_resolved {A} (cs : list (Completion A)) (l : list A) :
  promiseAll cs = Resolved l -> cs = Resolved <$> l.
Proof.
  revert l. induction cs as [|c cs IH]; intros l H; simpl in H.
  - injection H as <-. reflexivity.
  - destruct c as [a|m]; [|discriminate].
    destruct (promiseAll cs) as [l'|m]; [|discriminate].
    injection H as <-. simpl. rewrite (IH l'); reflexivity.
Qed.

Lemma callOpenRouter_with_key net config systemPrompt userPrompt :
  Js.nonempty (openRouterApiKey config) = true ->
  callOpenRouter fetchCompletion net config systemPrompt userPrompt =
  (fetchCompletion (length (issued net)) (requestOf config systemPrompt userPrompt),
   mkNet (issued net ++ [requestOf config systemPrompt userPrompt])).
Proof. intros H. unfold callOpenRouter. rewrite H. reflexivity. Qed.

Lemma mergeBatches_spec net config storyContext lastAIOutput party systemPrompt
    batches idx :
  Js.nonempty (openRouterApiKey config) = true ->
  let run :=
    mergeBatches fetchCompletion completedAt net config storyContext lastAIOutput
      party systemPrompt batches idx in
  issued (snd run) =
    issued net
    ++ map (fun b =>
              requestOf config systemPrompt
                (buildCombinePrompt storyContext lastAIOutput b party)) batches
  ∧ fst run =
    imap (batchPromise fetchCompletion completedAt config storyContext lastAIOutput party systemPrompt
            (length (issued net)) idx) batches.
Proof.
  intros Hkey. revert net idx.
  induction batches as [|b rest IH]; intros net idx; simpl.
  - rewrite app_nil_r. auto.
  - unfold mergeBatch. rewrite callOpenRouter_with_key by assumption.
    set (req := requestOf config systemPrompt
                  (buildCombinePrompt storyContext lastAIOutput b party)).
    set (net1 := mkNet (issued net ++ [req])).
    specialize (IH net1 (S idx)).
    assert (Hbase : length (issued net1) = S (length (issued net))).
    { unfold net1. simpl. rewrite length_app. simpl. lia. }
    assert (Hrest :
      imap (batchPromise fetchCompletion completedAt config storyContext lastAIOutput party systemPrompt
              (length (issued net1)) (S idx)) rest
      = imap (batchPromise fetchCompletion completedAt config storyContext lastAIOutput party systemPrompt
                (length (issued net)) idx ∘ S) rest).
    { apply imap_ext. intros k x _. unfold batchPromise. rewrite Hbase.
      unfold compose.
      replace (S (length (issued net)) + k) with (length (issued net) + S k) by lia.
      replace (S idx + k + 1) with (idx + S k + 1) by lia. reflexivity. }
    assert (Hhead :
      batchPromise fetchCompletion completedAt config storyContext lastAIOutput party systemPrompt
        (length (issued net)) idx 0 b
      = match fetchCompletion (length (issued net)) req with
        | Resolved r =>
            Resolved (mkSubmission ("Batch" +:+ pretty (idx + 1)) r
                        (completedAt (length (issued net))) ∅ None)
        | Rejected m => Rejected m
        end).
    { unfold batchPromise. fold req.
      replace (length (issued net) + 0) with (length (issued net)) by lia.
      replace (idx + 0 + 1) with (idx + 1) by lia. reflexivity. }
    rewrite Hhead. clear Hhead.
    rewrite Hrest in IH. clear Hrest. revert IH.
    destruct (fetchCompletion (length (issued net)) req) as [r|m]; simpl;
      destruct (mergeBatches fetchCompletion completedAt net1 config storyContext
                  lastAIOutput party systemPrompt rest (S idx)) as [cs net2];
      simpl; intros [-> ->]; rewrite <- app_assoc; auto.
Qed.

(** One unfolding of the recursion away from the base case. *)
Lemma recursiveMerge_unfold fuel net config context submissions lastAIOutput :
  length submissions ≠ 1 ->
  recursiveMerge fetchCompletion completedAt (S fuel) net config context
    submissions lastAIOutput =
  if length submissions <=? batchSize then
    match callOpenRouter fetchCompletion net config (systemPromptFor config)
            (userPromptFor config context lastAIOutput submissions) with
    | (Resolved r, net') =>
        Some (Resolved
                (mkMergeResult r
                   (Some (mkDebug (systemPromptFor config)
                            (userPromptFor config context lastAIOutput submissions)
                            r (model config) (completedAt (length (issued net)))))),
              net')
    | (Rejected m, net') => Some (Rejected m, net')
    end
  else
    let run :=
      mergeBatches fetchCompletion completedAt net config
        (extractStoryContext context) lastAIOutput (partyNameFor config)
        (systemPromptFor config) (splitBatches batchSize submissions) 0 in
    match promiseAll (fst run) with
    | Resolved intermediateResults =>
        recursiveMerge fetchCompletion completedAt fuel (snd run) config context
          intermediateResults None
    | Rejected m => Some (Rejected m, snd run)
    end.
Proof.
  intros Hlen.
  destruct submissions as [|a [|b rest]]; [|simpl in Hlen; congruence|].
  - reflexivity.
  - change (recursiveMerge fetchCompletion completedAt (S fuel) net config context
              (a :: b :: rest) lastAIOutput)
      with (if length (a :: b :: rest) <=? batchSize then
              match callOpenRouter fetchCompletion net config (systemPromptFor config)
                      (userPromptFor config context lastAIOutput (a :: b :: rest)) with
              | (Resolved r, net') =>
                  Some (Resolved
                          (mkMergeResult r
                             (Some (mkDebug (systemPromptFor config)
                                      (userPromptFor config context lastAIOutput
                                         (a :: b :: rest))
                                      r (model config)
                                      (completedAt (length (issued net)))))),
                        net')
              | (Rejected m, net') => Some (Rejected m, net')
              end
            else
              let '(promises, net') :=
                mergeBatches fetchCompletion completedAt net config
                  (extractStoryContext context) lastAIOutput (partyNameFor config)
                  (systemPromptFor config) (splitBatches batchSize (a :: b :: rest)) 0 in
              match promiseAll promises with
              | Resolved intermediateResults =>
                  recursiveMerge fetchCompletion completedAt fuel net' config context
                    intermediateResults None
              | Rejected m => Some (Rejected m, net')
              end).
    destruct (length (a :: b :: rest) <=? batchSize); [reflexivity|].
    destruct (mergeBatches _ _ _ _ _ _ _ _ _ _); reflexivity.
Qed.

Lemma mergeBatches_round net config context lastAIOutput batches :
  Js.nonempty (openRouterApiKey config) = true ->
  let run :=
    mergeBatches fetchCompletion completedAt net config
      (extractStoryContext context) lastAIOutput (partyNameFor config)
      (systemPromptFor config) batches 0 in
  issued (snd run) = issued net ++ map (requestFor config context lastAIOutput) batches
  ∧ fst run = imap (batchOutcome fetchCompletion completedAt config context lastAIOutput (length (issued net))) batches.
Proof.
  intros Hkey.
  destruct (mergeBatches_spec net config (extractStoryContext context) lastAIOutput
              (partyNameFor config) (systemPromptFor config) batches 0 Hkey)
    as [Hi Hp].
  split; [exact Hi|]. simpl. rewrite Hp. apply imap_ext. intros k b _. reflexivity.
Qed.

Lemma mergeBatches_length net config storyContext lastAIOutput party systemPrompt
    batches idx :
  length (fst (mergeBatches fetchCompletion completedAt net config storyContext
                 lastAIOutput party systemPrompt batches idx)) = length batches.
Proof.
  revert net idx. induction batches as [|b rest IH]; intros net idx; simpl.
  - reflexivity.
  - destruct (mergeBatch _ _ _ _ _ _ _ _ _ _) as [c net1].
    specialize (IH net1 (S idx)).
    destruct (mergeBatches _ _ _ _ _ _ _ _ _ _) as [cs net2].
    simpl in *. rewrite IH. reflexivity.
Qed.

(** More fuel does not change a result. *)
Lemma recursiveMerge_fuel_mono fuel :
  ∀ fuel' net config context submissions lastAIOutput outcome,
    recursiveMerge fetchCompletion completedAt fuel net config context
      submissions lastAIOutput = Some outcome ->
    fuel <= fuel' ->
    recursiveMerge fetchCompletion completedAt fuel' net config context
      submissions lastAIOutput = Some outcome.
Proof.
  induction fuel as [|fuel IH]; intros fuel' net config context submissions
    lastAIOutput outcome H Hle; [discriminate|].
  destruct fuel' as [|fuel']; [lia|].
  destruct (decide (length submissions = 1)) as [H1|H1].
  - destruct submissions as [|a [|b rest]]; simpl in H1; try congruence.
    exact H.
  - rewrite recursiveMerge_unfold in * by assumption.
    destruct (length submissions <=? batchSize); [exact H|].
    cbv zeta in *.
    destruct (promiseAll _) as [inter|m]; [|exact H].
    apply IH; [exact H | lia].
Qed.

(** Fuel above the number of submissions is enough. *)
Lemma recursiveMerge_enough_fuel n :
  ∀ fuel net config context submissions lastAIOutput,
    length submissions <= n -> n < fuel ->
    is_Some (recursiveMerge fetchCompletion completedAt fuel net config context
               submissions lastAIOutput).
Proof.
  induction n as [|n IH]; intros fuel net config context submissions lastAIOutput
    Hlen Hfuel; (destruct fuel as [|fuel]; [lia|]).
  - destruct submissions; [|simpl in Hlen; lia].
    rewrite recursiveMerge_unfold by (simpl; lia).
    simpl. destruct (callOpenRouter _ _ _ _ _) as [[r|m] net']; eauto.
  - destruct (decide (length submissions = 1)) as [H1|H1].
    { destruct submissions as [|a [|b rest]]; simpl in H1; try congruence.
      simpl. eauto. }
    rewrite recursiveMerge_unfold by assumption.
    destruct (length submissions <=? batchSize) eqn:Hb.
    { destruct (callOpenRouter _ _ _ _ _) as [[r|m] net']; eauto. }
    apply Nat.leb_gt in Hb. cbv zeta.
    destruct (promiseAll _) as [inter|m] eqn:Hall; [|eauto].
    apply IH; [|lia].
    apply promiseAll_resolved in Hall.
    apply (f_equal length) in Hall.
    rewrite mergeBatches_length, length_fmap in Hall.
    pose proof batchSize_value as Hv.
    pose proof (splitBatches_many batchSize submissions ltac:(lia) Hb) as Hmany.
    pose proof (splitBatches_fewer batchSize submissions ltac:(lia) Hmany) as Hfew.
    lia.
Qed.

(** C8: whenever more than one batch is formed, with a batch size of
    at least 3, there are fewer batches than submissions; and the
    recursion ends on every list: any fuel above the number of
    submissions gives the same outcome, be it the merged action or the
    failure of a call. *)
Theorem recursiveMerge_terminates
    (net : Net) (config : Config) (context : option AIDContext)
    (submissions : list Submission) (lastAIOutput : option string) :
  (∀ (size : nat) (l : list Submission),
      3 <= size ->
      1 < length (splitBatches size l) ->
      length (splitBatches size l) < length l)
  ∧ ∃ outcome,
      ∀ fuel, length submissions < fuel ->
        recursiveMerge fetchCompletion completedAt fuel net config context
          submissions lastAIOutput = Some outcome.
Proof.
  split.
  - intros size l Hsize Hmany. apply splitBatches_fewer; [lia | exact Hmany].
  - destruct (recursiveMerge_enough_fuel (length submissions)
                (S (length submissions)) net config context submissions
                lastAIOutput ltac:(lia) ltac:(lia)) as [outcome Hout].
    exists outcome. intros fuel Hfuel.
    apply (recursiveMerge_fuel_mono _ _ _ _ _ _ _ _ Hout). lia.
Qed.

Lemma splitBatches_lengths (size : nat) (l : list Submission) k b :
  splitBatches size l !! k = Some b ->
  b = take size (drop (k * size) l)
  ∧ length b = Nat.min size (length l - k * size)
  ∧ k * size < length l.
Proof.
  intros H. apply splitBatches_lookup in H as [-> Hlt].
  rewrite length_take, length_drop. auto.
Qed.

(** Seven hundred submissions are cut 320/320/60. *)
Lemma splitBatches_700 (l : list Submission) :
  length l = 700 -> map length (splitBatches batchSize l) = [320; 320; 60].
Proof.
  intros Hl. rewrite batchSize_value.
  pose proof (batchLoop_covers (length l) 0 320 l ltac:(lia) ltac:(lia)) as Hcov.
  pose proof (batchLoop_count (length l) 0 320 l) as Hcnt.
  fold (splitBatches 320 l) in Hcov, Hcnt. cbv zeta in Hcnt.
  destruct (splitBatches 320 l) as [|b0 [|b1 [|b2 [|b3 rest]]]] eqn:Hs;
    simpl in Hcov, Hcnt; try lia.
  assert (H0 : splitBatches 320 l !! 0 = Some b0) by (rewrite Hs; reflexivity).
  assert (H1 : splitBatches 320 l !! 1 = Some b1) by (rewrite Hs; reflexivity).
  assert (H2 : splitBatches 320 l !! 2 = Some b2) by (rewrite Hs; reflexivity).
  apply splitBatches_lengths in H0 as (_ & H0 & _).
  apply splitBatches_lengths in H1 as (_ & H1 & _).
  apply splitBatches_lengths in H2 as (_ & H2 & _).
  simpl. rewrite H0, H1, H2, Hl. reflexivity.
Qed.

(** C2 (amended): the batch size is 320, and 700 submissions are cut
    320/320/60. A list of more than one and at most 320 submissions costs
    exactly one request. A longer list is
    cut into consecutive batches of 320, the last one possibly shorter
    and never empty; one request per batch is issued, all of them
    before the recursive call; the outcome of batch [k] (counted from
    0) is wrapped as a submission of user [Batch<k+1>] whose timestamp
    is the instant its response was read and whose voter set is empty;
    and the result is that of the recursion on these intermediate
    submissions with no last action. *)
Theorem recursiveMerge_batches
    (fuel : nat) (net : Net) (config : Config) (context : option AIDContext)
    (submissions : list Submission) (lastAIOutput : option string) :
  Js.nonempty (openRouterApiKey config) = true ->
  let batches := splitBatches batchSize submissions in
  let base := length (issued net) in
  batchSize = 320
  ∧ (length submissions = 700 -> map length batches = [320; 320; 60])
  ∧ (1 < length submissions <= 320 ->
     ∃ outcome,
       recursiveMerge fetchCompletion completedAt (S fuel) net config context
         submissions lastAIOutput =
       Some (outcome,
             mkNet (issued net ++ [requestFor config context lastAIOutput submissions])))
  ∧ (320 < length submissions ->
     concat batches = submissions
     ∧ 1 < length batches
     ∧ (∀ k b, batches !! k = Some b ->
               b = take 320 (drop (k * 320) submissions)
               ∧ 0 < length b <= 320
               ∧ (S k < length batches -> length b = 320))
     ∧ ∃ net',
         issued net' =
           issued net ++ map (requestFor config context lastAIOutput) batches
         ∧ recursiveMerge fetchCompletion completedAt (S fuel) net config context
             submissions lastAIOutput =
           match promiseAll (imap (batchOutcome fetchCompletion completedAt config context lastAIOutput base) batches) with
           | Resolved intermediateResults =>
               recursiveMerge fetchCompletion completedAt fuel net' config context
                 intermediateResults None
           | Rejected m => Some (Rejected m, net')
           end).
Proof.
  intros Hkey batches base. pose proof batchSize_value as Hv.
  split; [exact Hv|].
  split; [apply splitBatches_700|]. split.
  - intros [Hlo Hhi].
    rewrite recursiveMerge_unfold by lia.
    rewrite Hv. rewrite (proj2 (Nat.leb_le _ _) Hhi).
    rewrite callOpenRouter_with_key by assumption.
    fold (requestFor config context lastAIOutput submissions).
    destruct (fetchCompletion _ _); eauto.
  - intros Hlong. unfold batches. rewrite Hv.
    split; [apply splitBatches_concat; lia|].
    split; [apply splitBatches_many; lia|].
    split.
    + intros k b Hb. pose proof Hb as Hb'.
      apply splitBatches_lengths in Hb as (Heq & Hlen & Hlt).
      split; [exact Heq|]. split; [lia|].
      intros Hnext.
      destruct (lookup_lt_is_Some_2 (splitBatches 320 submissions) (S k) Hnext)
        as [b2 Hb2].
      apply splitBatches_lengths in Hb2 as (_ & _ & Hlt2). lia.
    + destruct (mergeBatches_round net config context lastAIOutput
                  (splitBatches 320 submissions) Hkey) as [Hi Hp].
      eexists. split; [exact Hi|].
      rewrite recursiveMerge_unfold by lia.
      rewrite Hv. rewrite (proj2 (Nat.leb_gt _ _) Hlong).
      cbv zeta. rewrite Hp. reflexivity.
Qed.

End RecursiveMerge.

Section MergeExamples.
Import Examples OpenRouter.

Local Open Scope nat_scope.

(** Witness for C2 (amended): twelve submissions cost one request;
    seven hundred are cut into more than one batch that glue back to
    the list. *)
Lemma recursiveMerge_batches_witness :
  (∃ outcome,
      recursiveMerge echoFetch tickClock 1 quietNet blendConfig None (crowd 12) None
      = Some (outcome, mkNet [requestFor blendConfig None None (crowd 12)]))
  ∧ map length (splitBatches batchSize (crowd 700)) = [320; 320; 60]
  ∧ concat (splitBatches batchSize (crowd 700)) = crowd 700
  ∧ 1 < length (splitBatches batchSize (crowd 700)).
Proof.
  destruct (recursiveMerge_batches echoFetch tickClock 0 quietNet blendConfig None
              (crowd 12) None eq_refl) as (_ & _ & Hone & _).
  destruct (recursiveMerge_batches echoFetch tickClock 1 quietNet blendConfig None
              (crowd 700) None eq_refl) as (_ & Hcut & _ & Hmany).
  split.
  - apply Hone. unfold crowd. rewrite length_replicate. lia.
  - split; [apply Hcut; unfold crowd; apply length_replicate|].
    destruct Hmany as (Hcat & Hlen & _).
    + unfold crowd. rewrite length_replicate. lia.
    + split; [exact Hcat | exact Hlen].
Defined.

(** Counterexample to C2 as stated: on 321 submissions the two promises
    of the fan-out resolve to [Batch1] and [Batch2] with an empty voter
    set, not a singleton, and the merge recurses on these. *)
Lemma batch_results_have_no_voters :
  let intermediateResults :=
    [mkSubmission "Batch1" "heads north" 1000 ∅ None;
     mkSubmission "Batch2" "heads north" 1001 ∅ None] in
  let net' :=
    mkNet (map (requestFor blendConfig None None)
             (splitBatches batchSize (crowd 321))) in
  promiseAll
    (fst (mergeBatches echoFetch tickClock quietNet blendConfig
            (extractStoryContext None) None (partyNameFor blendConfig)
            (systemPromptFor blendConfig) (splitBatches batchSize (crowd 321)) 0))
  = Resolved intermediateResults
  ∧ snd (mergeBatches echoFetch tickClock quietNet blendConfig
           (extractStoryContext None) None (partyNameFor blendConfig)
           (systemPromptFor blendConfig) (splitBatches batchSize (crowd 321)) 0)
    = net'
  ∧ recursiveMerge echoFetch tickClock 2 quietNet blendConfig None (crowd 321) None
    = recursiveMerge echoFetch tickClock 1 net' blendConfig None
        intermediateResults None
  ∧ map (λ s, size (votes s)) intermediateResults = [0; 0]
  ∧ ¬ Forall (λ s, size (votes s) = 1) intermediateResults.
Proof.
  split; [vm_compute; reflexivity|].
  split; [vm_compute; reflexivity|].
  split; [vm_compute; reflexivity|].
  split; [vm_compute; reflexivity|].
  intros H. apply Forall_cons in H as [H _]. vm_compute in H. discriminate.
Qed.

(** Witness for C8: 700 submissions with batches of 320. *)
Lemma recursiveMerge_terminates_witness :
  length (splitBatches 320 (crowd 700)) < length (crowd 700)
  ∧ ∃ outcome,
      recursiveMerge echoFetch tickClock 701 quietNet blendConfig None (crowd 700) None
      = Some outcome.
Proof.
  destruct (recursiveMerge_terminates echoFetch tickClock quietNet blendConfig None
              (crowd 700) None) as [Hfew [outcome Hout]].
  split.
  - apply Hfew; [lia|]. vm_compute. lia.
  - exists outcome. apply Hout. unfold crowd. rewrite length_replicate. lia.
Defined.

(** On 700 submissions two rounds are enough and one is not: three
    requests for the batches, one for the three intermediate results. *)
Example recursiveMerge_700_two_rounds :
  recursiveMerge echoFetch tickClock 1 quietNet blendConfig None (crowd 700) None = None
  ∧ mergedTextAndCalls
      (recursiveMerge echoFetch tickClock 2 quietNet blendConfig None (crowd 700) None)
    = Some ("heads north", 4).
Proof. split; vm_compute; reflexivity. Qed.

End MergeExamples.

(** * Timer handles along the event loop *)
Section TimerHandles.

Lemma fresh_same_timers (w w' : World) :
  timeouts w' = timeouts w ->
  nextHandle w' = nextHandle w ->
  voteTimer (state w') = voteTimer (state w) ->
  autoRepeatTimer (state w') = autoRepeatTimer (state w) ->
  handlesFresh w -> handlesFresh w'.
Proof. unfold handlesFresh. intros -> -> -> ->. auto. Qed.

Lemma fresh_clearTimeout (h : positive) (w : World) :
  handlesFresh w -> handlesFresh (clearTimeout h w).
Proof.
  intros (Ht & Hv & Ha). repeat split; simpl; auto.
  intros t Hin. apply list_elem_of_filter in Hin as [_ Hin]. auto.
Qed.

Lemma fresh_drop_voteTimer (w : World) :
  handlesFresh w -> handlesFresh (with_state (set_voteTimer None) w).
Proof. intros (Ht & Hv & Ha). repeat split; simpl; auto. discriminate. Qed.

Lemma fresh_drop_autoRepeatTimer (w : World) :
  handlesFresh w -> handlesFresh (with_state (set_autoRepeatTimer None) w).
Proof. intros (Ht & Hv & Ha). repeat split; simpl; auto. discriminate. Qed.

Lemma fresh_setTimeout_vote (cb : Callback) (ms now : Z) (w : World) :
  handlesFresh w ->
  handlesFresh
    (with_state (set_voteTimer (Some (fst (setTimeout cb ms now w))))
       (snd (setTimeout cb ms now w))).
Proof.
  intros (Ht & Hv & Ha). repeat split; simpl.
  - intros t Hin. apply elem_of_app in Hin as [Hin|Hin].
    + specialize (Ht t Hin). lia.
    + apply list_elem_of_singleton in Hin. subst t. simpl. lia.
  - intros h [= <-]. lia.
  - intros h Hh. specialize (Ha h Hh). lia.
Qed.

Lemma fresh_setTimeout_autoRepeat (cb : Callback) (ms now : Z) (w : World) :
  handlesFresh w ->
  handlesFresh
    (with_state (set_autoRepeatTimer (Some (fst (setTimeout cb ms now w))))
       (snd (setTimeout cb ms now w))).
Proof.
  intros (Ht & Hv & Ha). repeat split; simpl.
  - intros t Hin. apply elem_of_app in Hin as [Hin|Hin].
    + specialize (Ht t Hin). lia.
    + apply list_elem_of_singleton in Hin. subst t. simpl. lia.
  - intros h Hh. specialize (Hv h Hh). lia.
  - intros h [= <-]. lia.
Qed.

Lemma fresh_cancelVoteTimer (w : World) :
  handlesFresh w -> handlesFresh (StateOps.cancelVoteTimer w).
Proof.
  intros H. unfold StateOps.cancelVoteTimer.
  destruct (voteTimer (state w)); [|exact H].
  apply fresh_drop_voteTimer, fresh_clearTimeout, H.
Qed.

Lemma fresh_clearAutoRepeatTimer (w : World) :
  handlesFresh w -> handlesFresh (StateOps.clearAutoRepeatTimer w).
Proof.
  intros H. unfold StateOps.clearAutoRepeatTimer.
  destruct (autoRepeatTimer (state w)).
  - eapply fresh_same_timers;
      [| | | |apply fresh_drop_autoRepeatTimer, fresh_clearTimeout, H]; reflexivity.
  - eapply fresh_same_timers; [| | | |exact H]; reflexivity.
Qed.

Lemma fresh_handleStartVote (now : Z) (w : World) :
  handlesFresh w -> handlesFresh (Index.handleStartVote now w).
Proof.
  intros H. apply fresh_clearAutoRepeatTimer in H.
  unfold Index.handleStartVote, StateOps.transitionToVote.
  set (w0 := StateOps.clearAutoRepeatTimer w) in *.
  destruct (bool_decide _); simpl.
  - unfold Voting.setVoteTimer.
    match goal with
    | |- context [setTimeout ?cb ?ms ?n ?x] =>
        pose proof (fresh_setTimeout_vote cb ms n x) as Hs
    end.
    simpl in *. apply Hs.
    eapply fresh_same_timers; [| | | |exact H]; reflexivity.
  - eapply fresh_same_timers; [| | | |exact H]; reflexivity.
Qed.

Lemma fresh_handleEndVote (w : World) :
  handlesFresh w -> handlesFresh (Index.handleEndVote w).
Proof.
  intros H. unfold Index.handleEndVote, StateOps.transitionToCombine.
  assert (H1 : handlesFresh (with_state (set_pausedVoteRemaining None) w)).
  { eapply fresh_same_timers; [| | | |exact H]; reflexivity. }
  destruct (negb _); [exact H1|].
  apply fresh_cancelVoteTimer in H1.
  eapply fresh_same_timers; [| | | |exact H1]; reflexivity.
Qed.

Lemma fresh_scheduleAutoRepeat (now : Z) (w : World) :
  handlesFresh w -> handlesFresh (Index.scheduleAutoRepeat now w).
Proof.
  intros H. unfold Index.scheduleAutoRepeat.
  destruct (isPaused (state w)); [exact H|].
  destruct (autoRepeatCooldownSeconds (config (state w))) as [n|]; [|exact H].
  destruct (n =? 0); [exact H|].
  match goal with
  | |- context [setTimeout ?cb ?ms ?n ?x] =>
      pose proof (fresh_setTimeout_autoRepeat cb ms n x) as Hs
  end.
  simpl in *.
  eapply fresh_same_timers; [| | | |apply Hs]; try reflexivity.
  eapply fresh_same_timers; [| | | |exact H]; reflexivity.
Qed.

Lemma fresh_handleTogglePause (now : Z) (w : World) :
  handlesFresh w -> handlesFresh (Index.handleTogglePause now w).
Proof.
  intros H. unfold Index.handleTogglePause, Pause.togglePause.
  set (w1 := with_state (fun s => set_isPaused (negb (isPaused s)) s) w).
  assert (H1 : handlesFresh w1).
  { eapply fresh_same_timers; [| | | |exact H]; reflexivity. }
  clearbody w1. clear H w.
  assert (Hgoal : ∀ w2, handlesFresh w2 -> handlesFresh (Index.broadcastState w2)).
  { intros w2 H2. eapply fresh_same_timers; [| | | |exact H2]; reflexivity. }
  apply Hgoal.
  destruct (isPaused (state w1)).
  - unfold Pause.pauseTimers.
    destruct (Pause.and_truthy _ (voteEndTime (state w1))).
    + apply fresh_cancelVoteTimer.
      eapply fresh_same_timers; [| | | |exact H1]; reflexivity.
    + destruct (Pause.and_truthy _ (nextVoteStartTime (state w1))); [|exact H1].
      apply fresh_clearAutoRepeatTimer.
      eapply fresh_same_timers; [| | | |exact H1]; reflexivity.
  - unfold Pause.resumeTimers.
    destruct (Pause.and_truthy _ (pausedVoteRemaining (state w1))) as [r|].
    + match goal with
      | |- context [setTimeout ?cb ?ms ?n ?x] =>
          pose proof (fresh_setTimeout_vote cb ms n x) as Hs
      end.
      simpl in *.
      eapply fresh_same_timers; [| | | |apply Hs]; try reflexivity.
      eapply fresh_same_timers; [| | | |exact H1]; reflexivity.
    + destruct (Pause.and_truthy _ (pausedAutoRepeatRemaining (state w1))) as [r|].
      * match goal with
        | |- context [setTimeout ?cb ?ms ?n ?x] =>
            pose proof (fresh_setTimeout_autoRepeat cb ms n x) as Hs
        end.
        simpl in *.
        eapply fresh_same_timers; [| | | |apply Hs]; try reflexivity.
        eapply fresh_same_timers; [| | | |exact H1]; reflexivity.
      * destruct (_ && _); [|exact H1].
        apply fresh_scheduleAutoRepeat, H1.
Qed.

Lemma fresh_combineSubmissions (w : World) (deps : VotingDeps) :
  handlesFresh w -> handlesFresh (Voting.combineSubmissions w deps).
Proof.
  intros H. eapply fresh_same_timers; [| | | |exact H];
    unfold Voting.combineSubmissions, Voting.settle;
    destruct (submissions (state w)); try reflexivity;
    destruct (negb _);
    try (destruct (submitToAID deps _ _) as [sent [u|m]]; reflexivity);
    destruct (recursiveMerge deps _ _ _ _) as [merged|m]; try reflexivity;
    destruct (debugInfo merged); destruct (submitToAID deps _ _) as [sent [u|m']];
    reflexivity.
Qed.

Lemma fresh_combineAndSubmit (now : Z) (deps : VotingDeps) (w : World) :
  handlesFresh w -> handlesFresh (Index.combineAndSubmit now deps w).
Proof.
  intros H. unfold Index.combineAndSubmit.
  apply (fresh_combineSubmissions w deps) in H.
  apply fresh_cancelVoteTimer in H.
  assert (H1 : handlesFresh
                 (StateOps.transitionToIdle (Voting.combineSubmissions w deps))).
  { eapply fresh_same_timers; [| | | |exact H]; reflexivity. }
  apply (fresh_scheduleAutoRepeat now) in H1.
  eapply fresh_same_timers; [| | | |exact H1]; reflexivity.
Qed.

Lemma handleVote_timers (st : State) (voter target : string) (debugMode : bool) :
  voteTimer (Voting.handleVote st voter target debugMode) = voteTimer st
  ∧ autoRepeatTimer (Voting.handleVote st voter target debugMode) = autoRepeatTimer st.
Proof.
  unfold Voting.handleVote.
  destruct (Js.find_index _ _) as [[i s]|]; [|auto].
  destruct (_ || _); auto.
Qed.

Lemma handleSubmission_timers (now : Z) (st : State) (user text : string)
    (debugMode : bool) :
  voteTimer (Voting.handleSubmission now st user text debugMode) = voteTimer st
  ∧ autoRepeatTimer (Voting.handleSubmission now st user text debugMode)
    = autoRepeatTimer st.
Proof.
  unfold Voting.handleSubmission.
  destruct (_ || _); [auto|].
  destruct debugMode; [auto|].
  destruct (Js.find_index _ _) as [[i s]|]; auto.
Qed.

Lemma fresh_parseVoteOrSubmission (now : Z) (w : World) (user text : string) :
  handlesFresh w -> handlesFresh (Index.parseVoteOrSubmission now w user text).
Proof.
  intros H. unfold Index.parseVoteOrSubmission.
  destruct (Index.matchVote text) as [name|].
  - eapply fresh_same_timers; [| | | |exact H]; try reflexivity; simpl;
      apply handleVote_timers.
  - destruct (Index.matchSubmission text); [|exact H].
    eapply fresh_same_timers; [| | | |exact H]; try reflexivity; simpl;
      apply handleSubmission_timers.
Qed.

Lemma fresh_runCallback (cb : Callback) (now : Z) (w : World) :
  handlesFresh w -> handlesFresh (Index.runCallback cb now w).
Proof.
  intros H. destruct cb as [h|h]; simpl.
  - destruct h; [apply fresh_handleStartVote | apply fresh_handleEndVote]; exact H.
  - apply fresh_drop_autoRepeatTimer in H.
    assert (H1 : handlesFresh
                   (with_state (set_autoRepeatTimer None)
                      (with_state (set_nextVoteStartTime None) w))).
    { eapply fresh_same_timers; [| | | |exact H]; reflexivity. }
    destruct h; [apply fresh_handleStartVote | apply fresh_handleEndVote]; exact H1.
Qed.

Lemma fresh_step (w : World) (now : Z) (e : Index.Event) (w' : World) :
  Index.step w now e w' -> handlesFresh w -> handlesFresh w'.
Proof.
  intros Hstep H. destruct Hstep.
  - unfold Index.handleTwitchChatMessage.
    destruct (String.eqb _ "!vote").
    { destruct (_ || _); [apply fresh_handleStartVote|]; exact H. }
    destruct (String.eqb _ "!tally").
    { destruct (_ || _); [apply fresh_handleEndVote|]; exact H. }
    destruct (negb _); [exact H|]. apply fresh_parseVoteOrSubmission, H.
  - unfold Index.handleYouTubeChatMessage.
    destruct (negb _); [exact H|]. apply fresh_parseVoteOrSubmission, H.
  - exact H.
  - apply fresh_handleStartVote, H.
  - apply fresh_handleEndVote, H.
  - apply fresh_handleTogglePause, H.
  - apply fresh_runCallback. apply fresh_clearTimeout, H.
  - apply fresh_combineAndSubmit, H.
  - eapply fresh_same_timers; [| | | |exact H]; reflexivity.
  - eapply fresh_same_timers; [| | | |exact H]; reflexivity.
Qed.

(** In every reachable world the handles in use are below the next
    handle. *)
Lemma reachable_handlesFresh (w : World) : Index.reachable w -> handlesFresh w.
Proof.
  induction 1 as [|w now e w' _ IH Hstep].
  - repeat split; simpl; intros; try discriminate.
    exfalso. eapply not_elem_of_nil. eassumption.
  - exact (fresh_step w now e w' Hstep IH).
Qed.

(** X22: from a reachable world [handleStartVote] always leaves the
    auto-repeat timer cancelled: the handle the state held is no longer
    pending. *)
Corollary handleStartVote_cancels_auto_repeat_reachable
    (now : Z) (w : World) (h : positive) :
  Index.reachable w ->
  autoRepeatTimer (state w) = Some h ->
  ¬ pending h (Index.handleStartVote now w).
Proof.
  intros Hr Hh. apply handleStartVote_cancels_auto_repeat; [exact Hh|].
  destruct (reachable_handlesFresh w Hr) as (_ & _ & Ha). apply Ha, Hh.
Qed.

End TimerHandles.

(** * More on the ledger *)
Section LedgerMore.
Import Examples.

Lemma find_index_None {A} (p : A -> bool) (l : list A) :
  (∀ x, x ∈ l -> p x = false) -> Js.find_index p l = None.
Proof.
  induction l as [|y l IH]; intros H; simpl; [reflexivity|].
  rewrite (H y) by (apply elem_of_cons; auto).
  rewrite IH; [reflexivity|]. intros x Hx. apply H. apply elem_of_cons. auto.
Qed.

Lemma find_index_None_inv {A} (p : A -> bool) (l : list A) :
  Js.find_index p l = None -> ∀ x, x ∈ l -> p x = false.
Proof.
  induction l as [|y l IH]; intros H x Hx; simpl in H.
  - apply elem_of_nil in Hx. contradiction.
  - destruct (p y) eqn:Hy; [discriminate|].
    destruct (Js.find_index p l) as [[j z]|] eqn:Hf; [discriminate|].
    apply elem_of_cons in Hx as [->|Hx]; [exact Hy | apply IH; auto].
Qed.

Lemma find_index_app_new {A} (p : A -> bool) (l : list A) (y : A) :
  (∀ x, x ∈ l -> p x = false) -> p y = true ->
  Js.find_index p (l ++ [y]) = Some (length l, y).
Proof.
  induction l as [|z l IH]; intros H Hy; simpl.
  - rewrite Hy. reflexivity.
  - rewrite (H z) by (apply elem_of_cons; auto).
    rewrite IH; [reflexivity| |exact Hy].
    intros x Hx. apply H. apply elem_of_cons. auto.
Qed.

Lemma same_user_true (name : string) (s : Submission) :
  Voting.same_user name s = true <-> userKey s = Js.toLowerCase name.
Proof. unfold Voting.same_user, userKey. apply String.eqb_eq. Qed.

Lemma same_user_false (name : string) (s : Submission) :
  Voting.same_user name s = false <-> userKey s ≠ Js.toLowerCase name.
Proof. unfold Voting.same_user, userKey. apply String.eqb_neq. Qed.

Lemma acceptable_passes (text : string) :
  acceptable text ->
  ((String.length text =? 0) || (MAX_SUBMISSION_LENGTH <? String.length text))%nat
  = false.
Proof.
  intros [Hlo Hhi]. apply orb_false_iff. split.
  - apply Nat.eqb_neq. lia.
  - apply Nat.ltb_ge. exact Hhi.
Qed.

(** X1: in normal mode a user who submits again, under any spelling of the
    name, ends with one entry: the first spelling of the name, the
    second text and timestamp, and the user as voter. *)
Theorem resubmission_replaces_text
    (n1 n2 : Z) (st : State) (user1 user2 text1 text2 : string) :
  (∀ s, s ∈ submissions st -> userKey s ≠ Js.toLowerCase user1) ->
  Js.toLowerCase user2 = Js.toLowerCase user1 ->
  acceptable text1 -> acceptable text2 ->
  Voting.handleSubmission n2
    (Voting.handleSubmission n1 st user1 text1 false) user2 text2 false
  = set_submissions
      (submissions st
       ++ [mkSubmission user1 text2 n2 {[Js.toLowerCase user1]} None]) st.
Proof.
  intros Hnew Hsame H1 H2.
  assert (Hnone : ∀ x, x ∈ submissions st -> Voting.same_user user1 x = false).
  { intros x Hx. apply same_user_false. auto. }
  assert (Hfirst :
    Voting.handleSubmission n1 st user1 text1 false
    = set_submissions
        (submissions st
         ++ [mkSubmission user1 text1 n1 {[Js.toLowerCase user1]} None]) st).
  { unfold Voting.handleSubmission. rewrite (acceptable_passes _ H1).
    rewrite (find_index_None _ _ Hnone). reflexivity. }
  rewrite Hfirst. unfold Voting.handleSubmission. rewrite (acceptable_passes _ H2).
  simpl submissions.
  assert (Hnone2 : ∀ x, x ∈ submissions st -> Voting.same_user user2 x = false).
  { intros x Hx. apply same_user_false. rewrite Hsame. auto. }
  rewrite (find_index_app_new _ _ _ Hnone2)
    by (apply same_user_true; unfold userKey; simpl; congruence).
  simpl. rewrite Hsame.
  replace ({[Js.toLowerCase user1]} ∪ {[Js.toLowerCase user1]})
    with ({[Js.toLowerCase user1]} : gset string) by (symmetry; apply union_idemp_L).
  unfold set_submissions. simpl. f_equal.
  replace (length (submissions st)) with (length (submissions st) + 0)%nat by lia.
  rewrite insert_app_r. reflexivity.
Qed.

Lemma resubmission_replaces_text_witness :
  Voting.handleSubmission 9
    (Voting.handleSubmission 8 tiedLedger "Dana" "run" false) "DANA" "hide" false
  = set_submissions
      (submissions tiedLedger
       ++ [mkSubmission "Dana" "hide" 9 {[Js.toLowerCase "Dana"]} None]) tiedLedger.
Proof.
  apply (resubmission_replaces_text 8 9 tiedLedger "Dana" "DANA" "run" "hide").
  - apply Forall_forall. by_evaluation.
  - vm_compute. reflexivity.
  - unfold acceptable, MAX_SUBMISSION_LENGTH. simpl. lia.
  - unfold acceptable, MAX_SUBMISSION_LENGTH. simpl. lia.
Defined.

Lemma insert_keeps_keys (l : list Submission) i x y :
  l !! i = Some x -> userKey y = userKey x ->
  userKey <$> <[i := y]> l = userKey <$> l.
Proof.
  intros Hi Hk. rewrite list_fmap_insert, Hk.
  apply list_insert_id. rewrite list_lookup_fmap, Hi. reflexivity.
Qed.

(** X2: in normal mode the ledger never gets a second entry for a user, and
    no vote, in either mode, adds an entry. *)
Theorem ledger_keeps_users_distinct (st : State) :
  distinctUsers (submissions st) ->
  (∀ now user text,
      distinctUsers (submissions (Voting.handleSubmission now st user text false)))
  ∧ (∀ voter target debugMode,
        distinctUsers (submissions (Voting.handleVote st voter target debugMode))).
Proof.
  intros Hd. split.
  - intros now user text. unfold Voting.handleSubmission.
    destruct (_ || _); [exact Hd|].
    destruct (Js.find_index _ _) as [[i existing]|] eqn:Hf; simpl.
    + destruct (find_index_spec _ _ _ _ Hf) as [Hi _].
      unfold distinctUsers. rewrite (insert_keeps_keys _ _ existing); auto.
    + unfold distinctUsers. rewrite fmap_app. simpl.
      apply NoDup_app. split; [exact Hd|]. split; [|apply NoDup_singleton].
      intros k Hk Hk2. apply list_elem_of_singleton in Hk2. subst k.
      apply list_elem_of_fmap in Hk as (x & Hx & Hin).
      pose proof (find_index_None_inv _ _ Hf x Hin) as Hne.
      apply same_user_false in Hne. unfold userKey in *. simpl in *. congruence.
  - intros voter target debugMode. unfold Voting.handleVote.
    destruct (Js.find_index _ _) as [[i s]|] eqn:Hf; [|exact Hd].
    destruct (find_index_spec _ _ _ _ Hf) as [Hi _].
    destruct (_ || _); [|exact Hd]. simpl.
    unfold distinctUsers. rewrite (insert_keeps_keys _ _ s); auto.
    destruct (_ && _); reflexivity.
Qed.

Lemma ledger_keeps_users_distinct_witness :
  (∀ now user text,
      distinctUsers
        (submissions (Voting.handleSubmission now tiedLedger user text false)))
  ∧ (∀ voter target debugMode,
        distinctUsers
          (submissions (Voting.handleVote tiedLedger voter target debugMode))).
Proof.
  apply (ledger_keeps_users_distinct tiedLedger).
  unfold distinctUsers. by_evaluation.
Defined.

Lemma keepsEntries_refl (l : list Submission) : keepsEntries l l.
Proof. intros i s Hi. exists s. auto. Qed.

Lemma keepsEntries_app (l l2 : list Submission) : keepsEntries l (l ++ l2).
Proof.
  intros i s Hi. exists s. split; [|auto].
  rewrite lookup_app_l; [exact Hi|]. apply lookup_lt_Some in Hi. exact Hi.
Qed.

Lemma keepsEntries_insert (l : list Submission) i x y :
  l !! i = Some x -> user y = user x -> votes x ⊆ votes y ->
  keepsEntries l (<[i := y]> l).
Proof.
  intros Hi Hu Hv j s Hj. destruct (decide (i = j)) as [->|Hne].
  - exists y. rewrite list_lookup_insert_eq by (apply lookup_lt_Some in Hi; exact Hi).
    rewrite Hi in Hj. injection Hj as <-. auto.
  - exists s. rewrite list_lookup_insert_ne by exact Hne. auto.
Qed.

(** A submission or a vote never removes or moves an entry, never
    renames its user and never takes a voter away. *)
Lemma ledger_operations_keep_entries (st : State) :
  (∀ now user text debugMode,
      keepsEntries (submissions st)
        (submissions (Voting.handleSubmission now st user text debugMode)))
  ∧ (∀ voter target debugMode,
        keepsEntries (submissions st)
          (submissions (Voting.handleVote st voter target debugMode))).
Proof.
  split.
  - intros now user text debugMode. unfold Voting.handleSubmission.
    destruct (_ || _); [apply keepsEntries_refl|].
    destruct debugMode; [apply keepsEntries_app|].
    destruct (Js.find_index _ _) as [[i existing]|] eqn:Hf; simpl;
      [|apply keepsEntries_app].
    destruct (find_index_spec _ _ _ _ Hf) as [Hi _].
    apply (keepsEntries_insert _ _ existing); [exact Hi|reflexivity|].
    simpl. apply union_subseteq_r.
  - intros voter target debugMode. unfold Voting.handleVote.
    destruct (Js.find_index _ _) as [[i s]|] eqn:Hf; [|apply keepsEntries_refl].
    destruct (find_index_spec _ _ _ _ Hf) as [Hi _].
    destruct (_ || _); [|apply keepsEntries_refl]. simpl.
    apply (keepsEntries_insert _ _ s); [exact Hi| |];
      destruct (_ && _); simpl; try reflexivity; apply union_subseteq_r.
Qed.

Lemma size_with_voter (v : string) (X : gset string) : (1 <= size ({[v]} ∪ X))%nat.
Proof.
  pose proof (subseteq_size ({[v]} : gset string) ({[v]} ∪ X)
                (union_subseteq_l _ _)) as H.
  rewrite size_singleton in H. exact H.
Qed.

Lemma wellCounted_fresh (user text : string) (now : Z) :
  wellCounted (mkSubmission user text now {[Js.toLowerCase user]} None).
Proof.
  split; [|simpl; discriminate]. cbn [votes]. rewrite size_singleton. lia.
Qed.

(** A submission or a vote keeps every entry with at least one voter and
    every debug counter at 2 or more. *)
Lemma ledger_operations_keep_counts (st : State) :
  Forall wellCounted (submissions st) ->
  (∀ now user text debugMode,
      Forall wellCounted
        (submissions (Voting.handleSubmission now st user text debugMode)))
  ∧ (∀ voter target debugMode,
        Forall wellCounted
          (submissions (Voting.handleVote st voter target debugMode))).
Proof.
  intros Hall. split.
  - intros now user text debugMode. unfold Voting.handleSubmission.
    destruct (_ || _); [exact Hall|].
    assert (Happ : Forall wellCounted
              (submissions st
               ++ [mkSubmission user text now {[Js.toLowerCase user]} None])).
    { apply Forall_app. split; [exact Hall|].
      apply Forall_singleton. apply wellCounted_fresh. }
    destruct debugMode; [exact Happ|].
    destruct (Js.find_index _ _) as [[i existing]|] eqn:Hf; simpl; [|exact Happ].
    destruct (find_index_spec _ _ _ _ Hf) as [Hi _].
    apply Forall_insert; [exact Hall|].
    pose proof (proj1 (Forall_lookup _ _) Hall i existing Hi) as [_ Hc].
    split; simpl; [apply size_with_voter | exact Hc].
  - intros voter target debugMode. unfold Voting.handleVote.
    destruct (Js.find_index _ _) as [[i s]|] eqn:Hf; [|exact Hall].
    destruct (find_index_spec _ _ _ _ Hf) as [Hi _].
    pose proof (proj1 (Forall_lookup _ _) Hall i s Hi) as [Hs Hc].
    destruct (_ || _); [|exact Hall]. simpl.
    apply Forall_insert; [exact Hall|].
    destruct (_ && _); split; simpl; try apply size_with_voter; try exact Hc.
    intros c [= <-]. unfold Js.or_else.
    destruct (debugVoteCount s) as [n|].
    + specialize (Hc n eq_refl).
      destruct (n =? 0) eqn:Hn; [apply Z.eqb_eq in Hn; lia | lia].
    + pose proof (size_with_voter (Js.toLowerCase voter) (votes s)). lia.
Qed.

Lemma wellCounted_count (s : Submission) : wellCounted s -> 1 <= Voting.getVoteCount s.
Proof.
  intros [Hs Hc]. unfold Voting.getVoteCount, Js.or_else.
  destruct (debugVoteCount s) as [n|]; [|lia].
  specialize (Hc n eq_refl). destruct (n =? 0); lia.
Qed.

(** X3: a vote for a user who has no submission changes nothing, in either
    mode. *)
Theorem handleVote_unknown_target_noop
    (st : State) (voter target : string) (debugMode : bool) :
  (∀ s, s ∈ submissions st -> userKey s ≠ Js.toLowerCase target) ->
  Voting.handleVote st voter target debugMode = st.
Proof.
  intros Hnone. unfold Voting.handleVote.
  rewrite find_index_None; [reflexivity|].
  intros x Hx. apply same_user_false. auto.
Qed.

Lemma handleVote_unknown_target_noop_witness :
  Voting.handleVote tiedLedger "dave" "Zed" false = tiedLedger.
Proof.
  apply (handleVote_unknown_target_noop tiedLedger "dave" "Zed" false).
  apply Forall_forall. by_evaluation.
Defined.

(** X4: in normal mode the first vote of a voter for a submission without a
    debug counter adds the voter and raises the vote count by one. *)
Theorem handleVote_normal_new_voter_counts_once
    (st : State) (voter target : string) (i : nat) (s : Submission) :
  Js.find_index (Voting.same_user target) (submissions st) = Some (i, s) ->
  Js.toLowerCase voter ∉ votes s ->
  debugVoteCount s = None ->
  ∃ s',
    Js.find_index (Voting.same_user target)
      (submissions (Voting.handleVote st voter target false)) = Some (i, s')
    ∧ votes s' = {[Js.toLowerCase voter]} ∪ votes s
    ∧ Voting.getVoteCount s' = Voting.getVoteCount s + 1.
Proof.
  intros Hf Hout Hnone.
  exists (set_votes ({[Js.toLowerCase voter]} ∪ votes s) s).
  split; [|split; [reflexivity|]].
  - unfold Voting.handleVote. rewrite Hf.
    rewrite bool_decide_eq_false_2 by assumption. simpl.
    apply find_index_insert with (x := s); [exact Hf|].
    rewrite same_user_set_votes. apply (find_index_spec _ _ _ _ Hf).
  - unfold Voting.getVoteCount. simpl. rewrite Hnone. simpl.
    rewrite size_union by (apply disjoint_singleton_l; exact Hout).
    rewrite size_singleton. lia.
Qed.

Lemma handleVote_normal_new_voter_counts_once_witness :
  ∃ s',
    Js.find_index (Voting.same_user "c")
      (submissions (Voting.handleVote tiedLedger "Frank" "c" false)) = Some (2%nat, s')
    ∧ votes s' = {[Js.toLowerCase "Frank"]} ∪ votes (mkSubmission "C" "wait" 3 {["c"]} None)
    ∧ Voting.getVoteCount s'
      = Voting.getVoteCount (mkSubmission "C" "wait" 3 {["c"]} None) + 1.
Proof.
  apply (handleVote_normal_new_voter_counts_once tiedLedger "Frank" "c" 2
           (mkSubmission "C" "wait" 3 {["c"]} None)).
  - vm_compute. reflexivity.
  - by_evaluation.
  - reflexivity.
Defined.

Lemma parseVoteOrSubmission_change (now : Z) (w : World) (user text : string) :
  ledgerChange now (state w)
    (submissions (state (Index.parseVoteOrSubmission now w user text))).
Proof.
  unfold Index.parseVoteOrSubmission, ledgerChange.
  destruct (Index.matchVote text) as [name|]; simpl.
  - right. right. right. eauto.
  - destruct (Index.matchSubmission text); simpl; [|auto].
    right. right. left. eauto.
Qed.

Lemma handleStartVote_change (now : Z) (w : World) (st : State) :
  submissions (state w) = submissions st ->
  ledgerChange now st (submissions (state (Index.handleStartVote now w))).
Proof.
  intros Hsame.
  destruct (handleStartVote_ledger now w) as [Hidle Hother].
  destruct (decide (phase (state w) = idle)) as [H|H].
  - right. left. apply (Hidle H).
  - left. rewrite <- Hsame. apply (Hother H).
Qed.

(** One step of the event loop changes the ledger, if at all, by
    emptying it or by one submission or one vote. *)
Lemma step_ledger_change (w : World) (now : Z) (e : Index.Event) (w' : World) :
  Index.step w now e w' -> ledgerChange now (state w) (submissions (state w')).
Proof.
  intros Hstep. destruct Hstep.
  - unfold Index.handleTwitchChatMessage.
    destruct (String.eqb _ "!vote").
    { destruct (_ || _); [apply handleStartVote_change | left]; reflexivity. }
    destruct (String.eqb _ "!tally").
    { destruct (_ || _); [|left; reflexivity].
      left. apply handleEndVote_ledger. }
    destruct (negb _); [left; reflexivity|]. apply parseVoteOrSubmission_change.
  - unfold Index.handleYouTubeChatMessage.
    destruct (negb _); [left; reflexivity|]. apply parseVoteOrSubmission_change.
  - left. reflexivity.
  - apply handleStartVote_change. reflexivity.
  - left. apply handleEndVote_ledger.
  - left. apply handleTogglePause_ledger.
  - destruct (callback t) as [h|h]; simpl.
    + destruct h; [apply handleStartVote_change; reflexivity|].
      left. apply (handleEndVote_ledger (Index.expire (handle t) w)).
    + destruct h.
      * apply handleStartVote_change. reflexivity.
      * left.
        apply (handleEndVote_ledger
                 (with_state (set_autoRepeatTimer None)
                    (with_state (set_nextVoteStartTime None)
                       (Index.expire (handle t) w)))).
  - left. apply combineAndSubmit_ledger.
  - left. reflexivity.
  - left. reflexivity.
Qed.

(** X6: in every reachable world each submission has at least one voter, a
    debug counter of 2 or more when it has one, and so a vote count of at
    least 1. *)
Theorem reachable_vote_counts_positive (w : World) :
  Index.reachable w ->
  ∀ s, s ∈ submissions (state w) ->
       wellCounted s ∧ 1 <= Voting.getVoteCount s.
Proof.
  intros Hr.
  assert (Hall : Forall wellCounted (submissions (state w))).
  { induction Hr as [|w now e w' _ IH Hstep]; [constructor|].
    destruct (ledger_operations_keep_counts (state w) IH) as [Hsub Hvote].
    destruct (step_ledger_change w now e w' Hstep)
      as [->|[->|[(u & t & d & ->)|(v & tg & d & ->)]]]; auto. }
  intros s Hs. pose proof (proj1 (Forall_forall _ _) Hall s Hs) as Hw.
  split; [exact Hw | apply wellCounted_count, Hw].
Qed.

Lemma reachable_vote_counts_positive_witness :
  wellCounted (mkSubmission "alice" "open the door" 100 {["alice"]} None)
  ∧ 1 <= Voting.getVoteCount
           (mkSubmission "alice" "open the door" 100 {["alice"]} None).
Proof.
  apply (reachable_vote_counts_positive combiningWorld combiningWorld_reachable).
  vm_compute. apply list_elem_of_here.
Defined.

(** X8: while the vote is open no step loses anything: every entry stays at
    its place under the same user name with at least the same voters. *)
Theorem vote_phase_keeps_entries
    (w : World) (now : Z) (e : Index.Event) (w' : World) :
  Index.step w now e w' ->
  phase (state w) = vote ->
  keepsEntries (submissions (state w)) (submissions (state w')).
Proof.
  intros Hstep Hvote.
  destruct (ledger_operations_keep_entries (state w)) as [Hsub Hv].
  destruct (step_ledger_change w now e w' Hstep)
    as [->|[Hnil|[(u & t & d & ->)|(v & tg & d & ->)]]]; auto.
  - apply keepsEntries_refl.
  - destruct (step_ledgerStep w now e w' Hstep) as (_ & _ & Hin).
    destruct (Hin Hvote) as [Hlen _].
    rewrite Hnil in *. simpl in Hlen.
    destruct (submissions (state w)); [apply keepsEntries_refl|simpl in Hlen; lia].
Qed.

Lemma vote_phase_keeps_entries_witness :
  keepsEntries
    (submissions (state (Index.handleTwitchChatMessage 100 votingWorld aliceSubmits)))
    (submissions
       (state
          (Index.handleTwitchChatMessage 200
             (Index.handleTwitchChatMessage 100 votingWorld aliceSubmits) lateVote))).
Proof.
  apply (vote_phase_keeps_entries
           (Index.handleTwitchChatMessage 100 votingWorld aliceSubmits) 200
           (Index.TwitchChat lateVote)).
  - exact (Index.step_twitch _ 200 lateVote).
  - vm_compute. reflexivity.
Defined.

End LedgerMore.

(** * One timer at a time *)
Section OneTimer.
Import Examples.

Ltac open_world w :=
  let st := fresh "st" in
  destruct w as [st ? ? ?]; destruct st; simpl in *.

Lemma filter_own_handle (t : Timeout) :
  filter (λ t0 : Timeout, handle t0 ≠ handle t) [t] = [].
Proof.
  rewrite filter_cons. rewrite decide_False; [reflexivity|].
  intros H. apply H. reflexivity.
Qed.

Lemma consistent_none (w : World) :
  (∀ r, pausedVoteRemaining (state w) = Some r -> 0 <= r) ->
  (∀ r, pausedAutoRepeatRemaining (state w) = Some r -> 0 <= r) ->
  timeouts w = [] ->
  voteTimer (state w) = None ->
  autoRepeatTimer (state w) = None ->
  timersConsistent w.
Proof. intros Hv Ha Htos Hvt Hat. split; [exact Hv|]. split; [exact Ha|]. left. auto. Qed.

Lemma consistent_vote (w : World) (t : Timeout) :
  (∀ r, pausedVoteRemaining (state w) = Some r -> 0 <= r) ->
  (∀ r, pausedAutoRepeatRemaining (state w) = Some r -> 0 <= r) ->
  timeouts w = [t] ->
  isPaused (state w) = false ->
  callback t = Direct HandleEndVote ->
  phase (state w) = vote ->
  voteTimer (state w) = Some (handle t) ->
  autoRepeatTimer (state w) = None ->
  voteEndTime (state w) = Some (setAt t + delay t) ->
  0 < setAt t + delay t ->
  timersConsistent w.
Proof.
  intros Hv Ha Htos Hp Hcb Hph Hvt Hat Hend Hpos.
  split; [exact Hv|]. split; [exact Ha|]. right. exists t.
  split; [exact Htos|]. split; [exact Hp|]. left. repeat split; assumption.
Qed.

Lemma consistent_auto_repeat (w : World) (t : Timeout) :
  (∀ r, pausedVoteRemaining (state w) = Some r -> 0 <= r) ->
  (∀ r, pausedAutoRepeatRemaining (state w) = Some r -> 0 <= r) ->
  timeouts w = [t] ->
  isPaused (state w) = false ->
  callback t = AutoRepeatThen HandleStartVote ->
  phase (state w) = idle ->
  autoRepeatTimer (state w) = Some (handle t) ->
  voteTimer (state w) = None ->
  nextVoteStartTime (state w) = Some (setAt t + delay t) ->
  0 < setAt t + delay t ->
  timersConsistent w.
Proof.
  intros Hv Ha Htos Hp Hcb Hph Hat Hvt Hnext Hpos.
  split; [exact Hv|]. split; [exact Ha|]. right. exists t.
  split; [exact Htos|]. split; [exact Hp|]. right. repeat split; assumption.
Qed.

(** Closes a goal [timersConsistent _] on an evaluated world, field by
    field. *)
Ltac remaining_ok :=
  simpl;
  first [ assumption
        | let r := fresh "r" in let H := fresh "H" in
          intros r H; first [discriminate H | injection H as <-; lia] ].

Ltac field_value :=
  simpl; rewrite ?filter_own_handle;
  unfold MIN_VOTE_DURATION_SECONDS, MIN_AUTO_REPEAT_SECONDS;
  first [reflexivity | assumption | lia].

Ltac nothing_pending :=
  apply consistent_none; [remaining_ok | remaining_ok | field_value ..].

Ltac vote_pending :=
  eapply consistent_vote; [remaining_ok | remaining_ok | field_value ..].

Ltac auto_repeat_pending :=
  eapply consistent_auto_repeat; [remaining_ok | remaining_ok | field_value ..].

Ltac consistent_with tac := tac.

Lemma consistent_same (w w' : World) :
  timeouts w' = timeouts w ->
  phase (state w') = phase (state w) ->
  voteTimer (state w') = voteTimer (state w) ->
  autoRepeatTimer (state w') = autoRepeatTimer (state w) ->
  voteEndTime (state w') = voteEndTime (state w) ->
  nextVoteStartTime (state w') = nextVoteStartTime (state w) ->
  isPaused (state w') = isPaused (state w) ->
  pausedVoteRemaining (state w') = pausedVoteRemaining (state w) ->
  pausedAutoRepeatRemaining (state w') = pausedAutoRepeatRemaining (state w) ->
  timersConsistent w -> timersConsistent w'.
Proof.
  unfold timersConsistent, isVoteTimerOf, isAutoRepeatTimerOf.
  intros -> -> -> -> -> -> -> -> ->. auto.
Qed.

Create HintDb timers.
#[local] Hint Unfold Index.handleStartVote Index.handleEndVote
  StateOps.transitionToVote StateOps.transitionToCombine StateOps.cancelVoteTimer
  StateOps.clearAutoRepeatTimer Voting.setVoteTimer Index.expire clearTimeout
  Index.runCallback Index.runHandler : timers.

Ltac field_of_run :=
  autounfold with timers; simpl; rewrite ?filter_own_handle; simpl;
  unfold MIN_VOTE_DURATION_SECONDS, MIN_AUTO_REPEAT_SECONDS;
  first [ reflexivity | assumption | lia
        | let r := fresh "r" in let H := fresh "H" in
          intros r H; first [discriminate H | injection H as <-; lia] ].

Ltac run_nothing_pending := apply consistent_none; field_of_run.
Ltac run_vote_pending := eapply consistent_vote; [| |field_of_run ..]; field_of_run.

Lemma consistent_handleStartVote (now : Z) (w : World) :
  0 <= now -> timersConsistent w -> timersConsistent (Index.handleStartVote now w).
Proof.
  intros Hnow (Hv & Ha & Hcases).
  open_world w.
  destruct Hcases as [(Htos & Hvt & Hat)|(t & Htos & Hp & Hkind)].
  - subst. destruct phase0.
    + run_vote_pending.
    + run_nothing_pending.
    + run_nothing_pending.
  - subst.
    destruct Hkind as [(Hcb & Hph & Hvt & Hat & Hend & Hpos)
                      |(Hcb & Hph & Hat & Hvt & Hnext & Hpos)]; simpl in *; subst.
    + run_vote_pending.
    + run_vote_pending.
Qed.

Lemma consistent_handleEndVote (w : World) :
  timersConsistent w -> timersConsistent (Index.handleEndVote w).
Proof.
  intros (Hv & Ha & Hcases).
  open_world w.
  unfold Index.handleEndVote, StateOps.transitionToCombine, StateOps.cancelVoteTimer.
  destruct Hcases as [(Htos & Hvt & Hat)|(t & Htos & Hp & Hkind)].
  - simpl in *. subst. simpl.
    destruct (bool_decide (phase0 = vote)); simpl; consistent_with nothing_pending.
  - simpl in *. subst.
    destruct Hkind as [(Hcb & Hph & Hvt & Hat & Hend & Hpos)
                      |(Hcb & Hph & Hat & Hvt & Hnext & Hpos)]; simpl in *; subst;
      simpl.
    + consistent_with nothing_pending.
    + consistent_with auto_repeat_pending.
Qed.

Lemma consistent_scheduleAutoRepeat (now : Z) (w : World) :
  0 <= now -> timeouts w = [] -> phase (state w) = idle ->
  timersConsistent w -> timersConsistent (Index.scheduleAutoRepeat now w).
Proof.
  intros Hnow Htos Hph (Hv & Ha & Hcases).
  open_world w. subst.
  destruct Hcases as [(_ & Hvt & Hat)|(t & Htos & _)]; [|discriminate Htos].
  subst. unfold Index.scheduleAutoRepeat. simpl.
  destruct isPaused0; [consistent_with nothing_pending|].
  destruct (autoRepeatCooldownSeconds config0) as [interval|];
    [|consistent_with nothing_pending].
  destruct (interval =? 0); [consistent_with nothing_pending|].
  simpl. consistent_with auto_repeat_pending.
Qed.

Lemma consistent_pauseTimers (now : Z) (w : World) :
  timersConsistent w -> isPaused (state w) = false ->
  timersConsistent (Pause.pauseTimers now (with_state (set_isPaused true) w)).
Proof.
  intros (Hv & Ha & Hcases) Hp.
  open_world w. subst.
  unfold Pause.pauseTimers, Pause.and_truthy, StateOps.cancelVoteTimer,
    StateOps.clearAutoRepeatTimer.
  destruct Hcases as [(Htos & Hvt & Hat)|(t & Htos & _ & Hkind)].
  - simpl in *. subst. simpl.
    destruct voteEndTime0 as [e|], nextVoteStartTime0 as [n|], phase0; simpl;
      try destruct (e =? 0); try destruct (n =? 0); simpl;
      consistent_with nothing_pending.
  - simpl in *. subst.
    destruct Hkind as [(Hcb & Hph & Hvt & Hat & Hend & Hpos)
                      |(Hcb & Hph & Hat & Hvt & Hnext & Hpos)]; simpl in *; subst;
      simpl.
    + destruct (Z.eqb_spec (setAt t + delay t) 0) as [H0|_]; [lia|]. simpl.
      consistent_with nothing_pending.
    + destruct voteEndTime0; simpl;
        (destruct (Z.eqb_spec (setAt t + delay t) 0) as [H0|_]; [lia|]); simpl;
        consistent_with nothing_pending.
Qed.

Lemma consistent_resumeTimers (now : Z) (w : World) :
  0 <= now -> timersConsistent w -> isPaused (state w) = true ->
  timersConsistent
    (Pause.resumeTimers now (with_state (set_isPaused false) w)
       HandleEndVote HandleStartVote (Index.scheduleAutoRepeat now)).
Proof.
  intros Hnow (Hv & Ha & Hcases) Hp.
  open_world w. subst.
  destruct Hcases as [(Htos & Hvt & Hat)|(t & _ & Hp & _)]; [|discriminate Hp].
  subst.
  unfold Pause.resumeTimers, Pause.and_truthy, Index.scheduleAutoRepeat. simpl.
  destruct pausedVoteRemaining0 as [rv|];
    [pose proof (Hv rv eq_refl); destruct (Z.eqb_spec rv 0)|];
    (destruct pausedAutoRepeatRemaining0 as [ra|];
       [pose proof (Ha ra eq_refl); destruct (Z.eqb_spec ra 0)|]);
    destruct phase0; simpl;
    try consistent_with nothing_pending;
    try consistent_with vote_pending;
    try consistent_with auto_repeat_pending;
    (destruct (autoRepeatCooldownSeconds config0) as [interval|];
       unfold Js.truthy; simpl; [destruct (interval =? 0); simpl|]);
    try consistent_with nothing_pending;
    consistent_with auto_repeat_pending.
Qed.

Lemma consistent_handleTogglePause (now : Z) (w : World) :
  0 <= now -> timersConsistent w -> timersConsistent (Index.handleTogglePause now w).
Proof.
  intros Hnow H.
  pose proof (consistent_resumeTimers now w Hnow H) as Hresume.
  pose proof (consistent_pauseTimers now w H) as Hpause.
  unfold Index.handleTogglePause, Pause.togglePause.
  destruct w as [st tos nh eff]. destruct st. simpl in Hresume, Hpause.
  destruct isPaused0.
  - specialize (Hresume eq_refl).
    eapply consistent_same; [| | | | | | | | |exact Hresume]; reflexivity.
  - specialize (Hpause eq_refl).
    eapply consistent_same; [| | | | | | | | |exact Hpause]; reflexivity.
Qed.

Lemma handleVote_only_ledger (st : State) (voter target : string) (debugMode : bool) :
  Voting.handleVote st voter target debugMode
  = set_submissions (submissions (Voting.handleVote st voter target debugMode)) st.
Proof.
  unfold Voting.handleVote.
  destruct (Js.find_index _ _) as [[i s]|]; [|destruct st; reflexivity].
  destruct (_ || _); destruct st; reflexivity.
Qed.

Lemma handleSubmission_only_ledger (now : Z) (st : State) (user text : string)
    (debugMode : bool) :
  Voting.handleSubmission now st user text debugMode
  = set_submissions
      (submissions (Voting.handleSubmission now st user text debugMode)) st.
Proof.
  unfold Voting.handleSubmission.
  destruct (_ || _); [destruct st; reflexivity|].
  destruct debugMode; [destruct st; reflexivity|].
  destruct (Js.find_index _ _) as [[i s]|]; destruct st; reflexivity.
Qed.

Lemma parseVoteOrSubmission_only_ledger (now : Z) (w : World) (user text : string) :
  state (Index.parseVoteOrSubmission now w user text)
  = set_submissions
      (submissions (state (Index.parseVoteOrSubmission now w user text))) (state w)
  ∧ timeouts (Index.parseVoteOrSubmission now w user text) = timeouts w
  ∧ nextHandle (Index.parseVoteOrSubmission now w user text) = nextHandle w.
Proof.
  unfold Index.parseVoteOrSubmission.
  destruct (Index.matchVote text) as [name|]; simpl.
  - split; [apply handleVote_only_ledger|split; reflexivity].
  - destruct (Index.matchSubmission text) as [captured|]; simpl.
    + split; [apply handleSubmission_only_ledger|split; reflexivity].
    + split; [destruct (state w); reflexivity|split; reflexivity].
Qed.

Lemma consistent_parseVoteOrSubmission (now : Z) (w : World) (user text : string) :
  timersConsistent w -> timersConsistent (Index.parseVoteOrSubmission now w user text).
Proof.
  intros H.
  destruct (parseVoteOrSubmission_only_ledger now w user text) as (Hst & Htos & _).
  eapply consistent_same; [exact Htos| | | | | | | | |exact H];
    rewrite Hst; reflexivity.
Qed.

Lemma consistent_combineSubmissions (w : World) (deps : VotingDeps) :
  timersConsistent w -> timersConsistent (Voting.combineSubmissions w deps).
Proof.
  intros H. eapply consistent_same; [| | | | | | | | |exact H];
    unfold Voting.combineSubmissions, Voting.settle;
    destruct (submissions (state w)); try reflexivity;
    destruct (negb _);
    try (destruct (submitToAID deps _ _) as [sent [u|m]]; reflexivity);
    destruct (recursiveMerge deps _ _ _ _) as [merged|m]; try reflexivity;
    destruct (debugInfo merged); destruct (submitToAID deps _ _) as [sent [u|m']];
    reflexivity.
Qed.

Lemma consistent_transitionToIdle (w : World) :
  timersConsistent w -> phase (state w) = combine ->
  timersConsistent (StateOps.transitionToIdle w)
  ∧ timeouts (StateOps.transitionToIdle w) = []
  ∧ phase (state (StateOps.transitionToIdle w)) = idle.
Proof.
  intros (Hv & Ha & Hcases) Hph.
  open_world w. subst.
  unfold StateOps.transitionToIdle, StateOps.cancelVoteTimer.
  destruct Hcases as [(Htos & Hvt & Hat)|(t & _ & _ & [Hkind|Hkind])].
  - subst. simpl. split; [consistent_with nothing_pending|split; reflexivity].
  - destruct Hkind as (_ & Hph & _). discriminate Hph.
  - destruct Hkind as (_ & Hph & _). discriminate Hph.
Qed.

Lemma consistent_combineAndSubmit (now : Z) (deps : VotingDeps) (w : World) :
  0 <= now -> timersConsistent w -> phase (state w) = combine ->
  timersConsistent (Index.combineAndSubmit now deps w).
Proof.
  intros Hnow H Hph. unfold Index.combineAndSubmit.
  apply (consistent_combineSubmissions w deps) in H.
  destruct (combineSubmissions_ledger w deps) as [Hph' _].
  rewrite <- Hph' in Hph.
  destruct (consistent_transitionToIdle _ H Hph) as (H1 & Htos & Hidle).
  pose proof (consistent_scheduleAutoRepeat now _ Hnow Htos Hidle H1) as H2.
  eapply consistent_same; [| | | | | | | | |exact H2]; reflexivity.
Qed.

Lemma consistent_timer_fired (now : Z) (w : World) (t : Timeout) :
  0 <= now -> timersConsistent w -> t ∈ timeouts w ->
  timersConsistent (Index.runCallback (callback t) now (Index.expire (handle t) w)).
Proof.
  intros Hnow (Hv & Ha & Hcases) Hin.
  open_world w.
  destruct Hcases as [(Htos & Hvt & Hat)|(t0 & Htos & Hp & Hkind)].
  - subst. exfalso. eapply not_elem_of_nil. exact Hin.
  - subst. apply list_elem_of_singleton in Hin. subst t0.
    destruct Hkind as [(Hcb & Hph & Hvt & Hat & Hend & Hpos)
                      |(Hcb & Hph & Hat & Hvt & Hnext & Hpos)]; simpl in *; subst;
      rewrite Hcb.
    + run_nothing_pending.
    + run_vote_pending.
Qed.

Lemma consistent_step (w : World) (now : Z) (e : Index.Event) (w' : World) :
  0 <= now -> Index.step w now e w' -> timersConsistent w -> timersConsistent w'.
Proof.
  intros Hnow Hstep H. destruct Hstep.
  - unfold Index.handleTwitchChatMessage.
    destruct (String.eqb _ "!vote").
    { destruct (_ || _); [apply consistent_handleStartVote|]; assumption. }
    destruct (String.eqb _ "!tally").
    { destruct (_ || _); [apply consistent_handleEndVote|]; assumption. }
    destruct (negb _); [exact H|]. apply consistent_parseVoteOrSubmission, H.
  - unfold Index.handleYouTubeChatMessage.
    destruct (negb _); [exact H|]. apply consistent_parseVoteOrSubmission, H.
  - exact H.
  - apply consistent_handleStartVote; assumption.
  - apply consistent_handleEndVote, H.
  - apply consistent_handleTogglePause; assumption.
  - apply consistent_timer_fired; assumption.
  - apply consistent_combineAndSubmit; assumption.
  - eapply consistent_same; [| | | | | | | | |exact H]; reflexivity.
  - eapply consistent_same; [| | | | | | | | |exact H]; reflexivity.
Qed.

Lemma reachableInTime_consistent (w : World) :
  reachableInTime w -> timersConsistent w.
Proof.
  induction 1 as [|w now e w' _ IH Hnow Hstep].
  - unfold Index.initialWorld. consistent_with nothing_pending.
  - exact (consistent_step w now e w' Hnow Hstep IH).
Qed.

Lemma reachableInTime_reachable (w : World) :
  reachableInTime w -> Index.reachable w.
Proof.
  induction 1 as [|w now e w' _ IH _ Hstep].
  - apply Index.reachable_init.
  - exact (Index.reachable_step w now e w' IH Hstep).
Qed.

Lemma votingWorld_inTime : reachableInTime votingWorld.
Proof.
  apply (inTime_step Index.initialWorld 0 Index.StartVote);
    [exact inTime_init | lia | exact (Index.step_start Index.initialWorld 0)].
Qed.

Lemma pausedVote_inTime : reachableInTime pausedVote.
Proof.
  apply (inTime_step votingWorld 15000 Index.TogglePause);
    [exact votingWorld_inTime | lia | exact (Index.step_pause votingWorld 15000)].
Qed.

Lemma repeatingSession_inTime : reachableInTime repeatingSession.
Proof.
  set (w1 := Index.broadcastState
               (with_state (fun st => StateOps.updateConfig st autoRepeatSaved)
                  Index.initialWorld)).
  assert (H1 : reachableInTime w1).
  { apply (inTime_step Index.initialWorld 500 (Index.ConfigSaved autoRepeatSaved));
      [exact inTime_init | lia
      | exact (Index.step_config Index.initialWorld 500 autoRepeatSaved)]. }
  set (w2 := Index.handleStartVote 600 w1).
  assert (H2 : reachableInTime w2).
  { apply (inTime_step w1 600 Index.StartVote);
      [exact H1 | lia | exact (Index.step_start w1 600)]. }
  set (w3 := Index.handleEndVote w2).
  assert (H3 : reachableInTime w3).
  { apply (inTime_step w2 700 Index.EndVote);
      [exact H2 | lia | exact (Index.step_end w2 700)]. }
  assert (Hph : phase (state w3) = combine) by (vm_compute; reflexivity).
  exact (inTime_step w3 1000 (Index.CombineSettled okDeps) _ H3 ltac:(lia)
           (Index.step_combine w3 1000 okDeps Hph)).
Qed.

(** X16: in every world reached in time at most one timer is pending. It is
    pending only while the session is not paused, and it is either the
    vote timer, in the vote phase, under the handle the state holds, or
    the auto-repeat timer, in the idle phase, under the handle the state
    holds; so nothing is pending in the combine phase. *)
Theorem at_most_one_timer_pending (w : World) :
  reachableInTime w ->
  (length (timeouts w) <= 1)%nat
  ∧ ∀ t, t ∈ timeouts w ->
      isPaused (state w) = false
      ∧ (callback t = Direct HandleEndVote
         ∧ phase (state w) = vote
         ∧ voteTimer (state w) = Some (handle t)
         ∨ callback t = AutoRepeatThen HandleStartVote
           ∧ phase (state w) = idle
           ∧ autoRepeatTimer (state w) = Some (handle t)).
Proof.
  intros Hr.
  destruct (reachableInTime_consistent w Hr)
    as (_ & _ & [(Htos & _ & _)|(t0 & Htos & Hp & Hkind)]); rewrite Htos.
  - split; [simpl; lia|]. intros t Hin. apply elem_of_nil in Hin. contradiction.
  - split; [simpl; lia|]. intros t Hin. apply list_elem_of_singleton in Hin. subst t.
    split; [exact Hp|].
    destruct Hkind as [(Hcb & Hph & Hvt & _)|(Hcb & Hph & Hat & _)]; auto.
Qed.

Lemma at_most_one_timer_pending_witness :
  (length (timeouts votingWorld) <= 1)%nat
  ∧ ∀ t, t ∈ timeouts votingWorld ->
      isPaused (state votingWorld) = false
      ∧ (callback t = Direct HandleEndVote
         ∧ phase (state votingWorld) = vote
         ∧ voteTimer (state votingWorld) = Some (handle t)
         ∨ callback t = AutoRepeatThen HandleStartVote
           ∧ phase (state votingWorld) = idle
           ∧ autoRepeatTimer (state votingWorld) = Some (handle t)).
Proof. exact (at_most_one_timer_pending votingWorld votingWorld_inTime). Defined.

(** X17: while the session is paused no timer is pending and the state holds
    no timer handle: nothing can fire until the session is resumed. *)
Theorem paused_session_has_no_timer (w : World) :
  reachableInTime w ->
  isPaused (state w) = true ->
  timeouts w = []
  ∧ voteTimer (state w) = None
  ∧ autoRepeatTimer (state w) = None.
Proof.
  intros Hr Hp.
  destruct (reachableInTime_consistent w Hr)
    as (_ & _ & [H|(t0 & _ & Hp' & _)]); [exact H|congruence].
Qed.

Lemma paused_session_has_no_timer_witness :
  timeouts pausedVote = []
  ∧ voteTimer (state pausedVote) = None
  ∧ autoRepeatTimer (state pausedVote) = None.
Proof.
  apply (paused_session_has_no_timer pausedVote pausedVote_inTime).
  vm_compute. reflexivity.
Defined.

(** X18: the deadline shown is the expiry of the pending timer: in the vote
    phase [voteEndTime] is the instant at which the pending callback is
    due, in the idle phase [nextVoteStartTime] is. *)
Theorem displayed_deadline_is_timer_expiry (w : World) (t : Timeout) :
  reachableInTime w ->
  t ∈ timeouts w ->
  (phase (state w) = vote -> voteEndTime (state w) = Some (setAt t + delay t))
  ∧ (phase (state w) = idle ->
     nextVoteStartTime (state w) = Some (setAt t + delay t)).
Proof.
  intros Hr Hin.
  destruct (reachableInTime_consistent w Hr)
    as (_ & _ & [(Htos & _ & _)|(t0 & Htos & _ & Hkind)]); rewrite Htos in Hin.
  - apply elem_of_nil in Hin. contradiction.
  - apply list_elem_of_singleton in Hin. subst t0.
    destruct Hkind as [(_ & Hph & _ & _ & Hend & _)|(_ & Hph & _ & _ & Hnext & _)];
      split; intros Hph'; congruence.
Qed.

Lemma displayed_deadline_is_timer_expiry_witness :
  (phase (state repeatingSession) = vote ->
   voteEndTime (state repeatingSession) = Some (1000 + 30000))
  ∧ (phase (state repeatingSession) = idle ->
     nextVoteStartTime (state repeatingSession) = Some (1000 + 30000)).
Proof.
  apply (displayed_deadline_is_timer_expiry repeatingSession
           (mkTimeout 2 (AutoRepeatThen HandleStartVote) 1000 30000)
           repeatingSession_inTime).
  vm_compute. apply list_elem_of_here.
Defined.

(** X19: a timer handle held by the state is the handle of a pending timer:
    the vote timer is held only in the vote phase and the auto-repeat
    timer only in the idle phase. *)
Theorem stored_timer_handles_are_pending (w : World) :
  reachableInTime w ->
  (∀ h, voteTimer (state w) = Some h -> pending h w ∧ phase (state w) = vote)
  ∧ (∀ h, autoRepeatTimer (state w) = Some h ->
          pending h w ∧ phase (state w) = idle).
Proof.
  intros Hr.
  destruct (reachableInTime_consistent w Hr)
    as (_ & _ & [(_ & Hvt & Hat)|(t0 & Htos & _ & Hkind)]).
  - split; intros h Hh; congruence.
  - assert (Hpend : pending (handle t0) w).
    { exists t0. rewrite Htos. split; [apply list_elem_of_here|reflexivity]. }
    destruct Hkind as [(_ & Hph & Hvt & Hat & _)|(_ & Hph & Hat & Hvt & _)];
      split; intros h Hh; try congruence;
      (assert (h = handle t0) as -> by congruence); auto.
Qed.

Lemma stored_timer_handles_are_pending_witness :
  (∀ h, voteTimer (state votingWorld) = Some h ->
        pending h votingWorld ∧ phase (state votingWorld) = vote)
  ∧ (∀ h, autoRepeatTimer (state votingWorld) = Some h ->
          pending h votingWorld ∧ phase (state votingWorld) = idle).
Proof. exact (stored_timer_handles_are_pending votingWorld votingWorld_inTime). Defined.

(** X20: the remaining times stored by a pause are never negative. *)
Theorem stored_remaining_times_not_negative (w : World) :
  reachableInTime w ->
  (∀ r, pausedVoteRemaining (state w) = Some r -> 0 <= r)
  ∧ (∀ r, pausedAutoRepeatRemaining (state w) = Some r -> 0 <= r).
Proof.
  intros Hr. destruct (reachableInTime_consistent w Hr) as (Hv & Ha & _). auto.
Qed.

Lemma stored_remaining_times_not_negative_witness :
  (∀ r, pausedVoteRemaining (state pausedVote) = Some r -> 0 <= r)
  ∧ (∀ r, pausedAutoRepeatRemaining (state pausedVote) = Some r -> 0 <= r).
Proof. exact (stored_remaining_times_not_negative pausedVote pausedVote_inTime). Defined.

(** X21: starting a vote while a vote is paused lifts the pause without
    arming a timer: the phase is still vote, the ledger and the deadline
    are kept, the session is no longer paused, the stored remaining time
    is dropped, and nothing is pending that would end the vote. *)
Theorem start_vote_during_paused_vote_arms_no_timer (now : Z) (w : World) :
  reachableInTime w ->
  phase (state w) = vote ->
  isPaused (state w) = true ->
  let w' := Index.handleStartVote now w in
  phase (state w') = vote
  ∧ submissions (state w') = submissions (state w)
  ∧ voteEndTime (state w') = voteEndTime (state w)
  ∧ isPaused (state w') = false
  ∧ pausedVoteRemaining (state w') = None
  ∧ voteTimer (state w') = None
  ∧ timeouts w' = [].
Proof.
  intros Hr Hph Hp.
  destruct (reachableInTime_consistent w Hr)
    as (_ & _ & [(Htos & Hvt & Hat)|(t0 & _ & Hp' & _)]); [|congruence].
  destruct w as [st tos nh eff]. destruct st. simpl in *. subst.
  unfold Index.handleStartVote, StateOps.transitionToVote,
    StateOps.clearAutoRepeatTimer. simpl. repeat split.
Qed.

Lemma start_vote_during_paused_vote_arms_no_timer_witness :
  let w' := Index.handleStartVote 20000 pausedVote in
  phase (state w') = vote
  ∧ submissions (state w') = submissions (state pausedVote)
  ∧ voteEndTime (state w') = voteEndTime (state pausedVote)
  ∧ isPaused (state w') = false
  ∧ pausedVoteRemaining (state w') = None
  ∧ voteTimer (state w') = None
  ∧ timeouts w' = [].
Proof.
  apply (start_vote_during_paused_vote_arms_no_timer 20000 pausedVote
           pausedVote_inTime); vm_compute; reflexivity.
Defined.

End OneTimer.

(** * Chat lines *)
Section ChatLines.
Import Examples.

Lemma span_stops (p : ascii -> bool) (a : string) (c : ascii) (b : string) :
  Js.all_chars p a = true -> p c = false ->
  Index.span p (a +:+ String c b) = (a, String c b).
Proof.
  intros Ha Hc. induction a as [|x a IH]; simpl.
  - rewrite Hc. reflexivity.
  - simpl in Ha. apply andb_true_iff in Ha as [Hx Ha].
    rewrite Hx, (IH Ha). reflexivity.
Qed.

Lemma span_spec (p : ascii -> bool) (s a b : string) :
  Index.span p s = (a, b) ->
  s = a +:+ b
  ∧ Js.all_chars p a = true
  ∧ match b with String c _ => p c = false | EmptyString => True end.
Proof.
  revert a b. induction s as [|x s IH]; intros a b H; simpl in H.
  - injection H as <- <-. auto.
  - destruct (p x) eqn:Hx.
    + destruct (Index.span p s) as [a' b'] eqn:Hs.
      injection H as <- <-.
      destruct (IH a' b' eq_refl) as (-> & Ha & Hb).
      simpl. rewrite Hx, Ha. auto.
    + injection H as <- <-. simpl. auto.
Qed.

Lemma space_not_word (c : ascii) : Js.is_space c = true -> Js.is_word c = false.
Proof.
  destruct c as [[] [] [] [] [] [] [] []]; vm_compute; congruence.
Qed.

Lemma nonempty_inv (s : string) :
  Js.nonempty s = true -> ∃ c r, s = String c r.
Proof. destruct s as [|c r]; [discriminate|eauto]. Qed.

Lemma matchVote_plus_first (ws name : string) :
  Js.nonempty ws = true -> Js.all_chars Js.is_space ws = true ->
  Js.nonempty name = true -> Js.all_chars Js.is_word name = true ->
  Index.matchVote ("+1" +:+ ws +:+ "@" +:+ name) = Some name.
Proof.
  intros Hws Hsp Hname Hw.
  change ("+1" +:+ ws +:+ "@" +:+ name)
    with (String "+" (String "1" (ws +:+ String "@" name))).
  unfold Index.matchVote.
  rewrite (span_stops Js.is_space ws "@" name Hsp) by reflexivity.
  rewrite Hws, Hname, Hw. reflexivity.
Qed.

Lemma matchVote_name_first (ws name : string) :
  Js.nonempty ws = true -> Js.all_chars Js.is_space ws = true ->
  Js.nonempty name = true -> Js.all_chars Js.is_word name = true ->
  Index.matchVote ("@" +:+ name +:+ ws +:+ "+1") = Some name.
Proof.
  intros Hws Hsp Hname Hw.
  destruct (nonempty_inv ws Hws) as (c & r & ->).
  pose proof Hsp as Hsp'. simpl in Hsp'. apply andb_true_iff in Hsp' as [Hc _].
  change ("@" +:+ name +:+ String c r +:+ "+1")
    with (String "@" (name +:+ String c (r +:+ "+1"))).
  unfold Index.matchVote.
  rewrite (span_stops Js.is_word name c (r +:+ "+1") Hw) by (apply space_not_word, Hc).
  change (String c (r +:+ "+1")) with (String c r +:+ String "+" "1").
  rewrite (span_stops Js.is_space (String c r) "+" "1" Hsp) by reflexivity.
  rewrite Hname. reflexivity.
Qed.

(** X9: [matchVote] accepts exactly the lines [+1 @name] and [@name +1],
    with one or more white-space characters in between and a name of one
    or more word characters, and captures the name. *)
Theorem matchVote_accepts_exactly_vote_lines (text name : string) :
  Index.matchVote text = Some name
  <-> Js.nonempty name = true
      ∧ Js.all_chars Js.is_word name = true
      ∧ ∃ ws, Js.nonempty ws = true
              ∧ Js.all_chars Js.is_space ws = true
              ∧ (text = "+1" +:+ ws +:+ "@" +:+ name
                 ∨ text = "@" +:+ name +:+ ws +:+ "+1").
Proof.
  split.
  - intros H. destruct text as [|c r]; [discriminate|].
    destruct (Ascii.eqb_spec c "+") as [->|Hplus].
    + destruct r as [|c1 r]; [discriminate|].
      destruct (Ascii.eqb_spec c1 "1") as [->|Hone].
      * simpl in H.
        destruct (Index.span Js.is_space r) as [ws rest1] eqn:Hs.
        destruct rest1 as [|c2 nm]; [discriminate|].
        destruct (Ascii.eqb_spec c2 "@") as [->|Hat].
        -- destruct (Js.nonempty ws) eqn:Hws; [|discriminate].
           destruct (Js.nonempty nm) eqn:Hnm; [|discriminate].
           destruct (Js.all_chars Js.is_word nm) eqn:Hw; [|discriminate].
           injection H as <-.
           apply span_spec in Hs as (-> & Hsp & _).
           split; [exact Hnm|]. split; [exact Hw|].
           exists ws. auto.
        -- exfalso. destruct c2 as [[] [] [] [] [] [] [] []];
             try discriminate H. apply Hat. reflexivity.
      * exfalso. destruct c1 as [[] [] [] [] [] [] [] []];
          try discriminate H. apply Hone. reflexivity.
    + destruct (Ascii.eqb_spec c "@") as [->|Hat].
      * simpl in H.
        destruct (Index.span Js.is_word r) as [nm rest1] eqn:Hn.
        destruct (Index.span Js.is_space rest1) as [ws rest2] eqn:Hs.
        destruct (Js.nonempty nm) eqn:Hnm; [|discriminate].
        destruct (Js.nonempty ws) eqn:Hws; [|discriminate].
        destruct (String.eqb_spec rest2 "+1") as [->|]; [|discriminate].
        injection H as <-.
        apply span_spec in Hn as (-> & Hw & _).
        apply span_spec in Hs as (-> & Hsp & _).
        split; [exact Hnm|]. split; [exact Hw|].
        exists ws. auto.
      * exfalso. destruct c as [[] [] [] [] [] [] [] []];
          try discriminate H; [apply Hplus | apply Hat]; reflexivity.
  - intros (Hname & Hw & ws & Hws & Hsp & [->| ->]).
    + apply matchVote_plus_first; assumption.
    + apply matchVote_name_first; assumption.
Qed.

Lemma chat_line_parsed (now : Z) (w : World) (m : TwitchMessage) :
  isCommand (msgText m) = false ->
  phase (state w) = vote ->
  Index.handleTwitchChatMessage now w m
  = Index.parseVoteOrSubmission now w (msgUser m) (msgText m)
  ∧ Index.handleYouTubeChatMessage now w (msgUser m) (msgText m)
    = Index.parseVoteOrSubmission now w (msgUser m) (msgText m).
Proof.
  intros Hcmd Hph. unfold isCommand in Hcmd.
  apply orb_false_iff in Hcmd as [Hv Ht].
  unfold Index.handleTwitchChatMessage, Index.handleYouTubeChatMessage.
  rewrite Hv, Ht. rewrite bool_decide_eq_true_2 by assumption. auto.
Qed.

(** X10: in the vote phase a vote line of any viewer, on Twitch whatever the
    badges and on YouTube alike, is passed to [handleVote] with the
    captured name in lower case, and the state is broadcast. *)
Theorem vote_line_casts_vote (now : Z) (w : World) (m : TwitchMessage) (name : string) :
  phase (state w) = vote ->
  Index.matchVote (msgText m) = Some name ->
  let w' :=
    Index.broadcastState
      (with_state
         (fun st =>
            Voting.handleVote st (msgUser m) (Js.toLowerCase name)
              (debugMode (config st))) w) in
  Index.handleTwitchChatMessage now w m = w'
  ∧ Index.handleYouTubeChatMessage now w (msgUser m) (msgText m) = w'.
Proof.
  intros Hph Hm w'.
  assert (Hcmd : isCommand (msgText m) = false).
  { apply vote_or_submission_not_command. left. congruence. }
  destruct (chat_line_parsed now w m Hcmd Hph) as [-> ->].
  unfold Index.parseVoteOrSubmission. rewrite Hm. auto.
Qed.

Lemma vote_line_casts_vote_witness :
  let w := Index.handleTwitchChatMessage 100 votingWorld aliceSubmits in
  let w' :=
    Index.broadcastState
      (with_state
         (fun st =>
            Voting.handleVote st "bob" (Js.toLowerCase "Alice") (debugMode (config st)))
         w) in
  Index.handleTwitchChatMessage 200 w (say "bob" "@Alice  +1") = w'
  ∧ Index.handleYouTubeChatMessage 200 w "bob" "@Alice  +1" = w'.
Proof.
  apply (vote_line_casts_vote 200
           (Index.handleTwitchChatMessage 100 votingWorld aliceSubmits)
           (say "bob" "@Alice  +1") "Alice");
    vm_compute; reflexivity.
Defined.

Lemma trimStart_stops (ws : string) (c : ascii) (r : string) :
  Js.all_chars Js.is_space ws = true -> Js.is_space c = false ->
  Js.trimStart (ws +:+ String c r) = String c r.
Proof.
  intros Hws Hc. induction ws as [|x ws IH]; simpl.
  - rewrite Hc. reflexivity.
  - simpl in Hws. apply andb_true_iff in Hws as [Hx Hws]. rewrite Hx. auto.
Qed.

Lemma trimStart_all_space (ws : string) :
  Js.all_chars Js.is_space ws = true -> Js.trimStart ws = EmptyString.
Proof.
  intros Hws. induction ws as [|x ws IH]; simpl; [reflexivity|].
  simpl in Hws. apply andb_true_iff in Hws as [Hx Hws]. rewrite Hx. auto.
Qed.

Lemma lastChar_all (p : ascii -> bool) (s : string) (c : ascii) :
  Js.all_chars p s = true -> Index.lastChar s = Some c -> p c = true.
Proof.
  induction s as [|x s IH]; intros Hall Hlast; [discriminate|].
  simpl in Hall. apply andb_true_iff in Hall as [Hx Hall].
  destruct s as [|y s].
  - simpl in Hlast. congruence.
  - apply IH; [exact Hall | exact Hlast].
Qed.

Lemma matchSubmission_body (ws : string) (c : ascii) (r : string) :
  Js.all_chars Js.is_space ws = true -> Js.is_space c = false ->
  Js.all_chars (fun x => negb (Js.is_line_terminator x)) (String c r) = true ->
  Index.matchSubmission (">" +:+ ws +:+ String c r) = Some (String c r).
Proof.
  intros Hws Hc Hline.
  change (">" +:+ ws +:+ String c r) with (String ">" (ws +:+ String c r)).
  unfold Index.matchSubmission. rewrite (trimStart_stops ws c r Hws Hc).
  rewrite Hline. reflexivity.
Qed.

Lemma trimStart_split (s : string) :
  ∃ ws, s = ws +:+ Js.trimStart s ∧ Js.all_chars Js.is_space ws = true.
Proof.
  induction s as [|c s (ws & Hs & Hws)]; cbn [Js.trimStart].
  - exists EmptyString. auto.
  - destruct (Js.is_space c) eqn:Hc.
    + exists (String c ws). split.
      * change (String c s = String c (ws +:+ Js.trimStart s)). f_equal. exact Hs.
      * cbn [Js.all_chars]. rewrite Hc, Hws. reflexivity.
    + exists EmptyString. auto.
Qed.

Lemma lastChar_split (s : string) (c : ascii) :
  Index.lastChar s = Some c -> ∃ p, s = p +:+ String c EmptyString.
Proof.
  induction s as [|x s IH]; intros H; [discriminate|].
  destruct s as [|y s].
  - simpl in H. injection H as ->. exists EmptyString. reflexivity.
  - destruct (IH H) as (p & Hp). exists (String x p).
    change (String x (String y s) = String x (p +:+ String c EmptyString)).
    f_equal. exact Hp.
Qed.

Lemma all_chars_app (p : ascii -> bool) (a b : string) :
  Js.all_chars p (a +:+ b) = Js.all_chars p a && Js.all_chars p b.
Proof.
  induction a as [|x a IH]; simpl; [reflexivity|].
  rewrite IH. apply andb_assoc.
Qed.

(** X30: when the submission pattern matches a line, the line is [>],
    then white space, then the captured text, and the captured text is
    not empty and holds no line break. *)
Theorem matchSubmission_captures_rest_of_line (line body : string) :
  Index.matchSubmission line = Some body ->
  Js.nonempty body = true
  ∧ Js.all_chars (fun x => negb (Js.is_line_terminator x)) body = true
  ∧ ∃ ws, Js.all_chars Js.is_space ws = true ∧ line = ">" +:+ ws +:+ body.
Proof.
  intros H. destruct line as [|c rest]; [discriminate|].
  destruct (Ascii.eqb_spec c ">") as [->|Hgt];
    [|exfalso; destruct c as [[] [] [] [] [] [] [] []];
      try discriminate H; apply Hgt; reflexivity].
  unfold Index.matchSubmission in H.
  destruct (trimStart_split rest) as (ws & Hrest & Hws).
  destruct (Js.trimStart rest) as [|b r] eqn:Htrim.
  - destruct (Index.lastChar rest) as [c|] eqn:Hlast; [|discriminate].
    destruct (Js.is_line_terminator c) eqn:Hc; [discriminate|].
    injection H as <-.
    destruct (lastChar_split rest c Hlast) as (p & Hp).
    split; [reflexivity|]. split; [simpl; rewrite Hc; reflexivity|].
    exists p. split;
      [|change (String ">" rest = String ">" (p +:+ String c EmptyString));
        f_equal; exact Hp].
    assert (Hall : Js.all_chars Js.is_space rest = true).
    { rewrite Hrest. rewrite all_chars_app, Hws. reflexivity. }
    rewrite Hp, all_chars_app in Hall. apply andb_true_iff in Hall as [Hall _].
    exact Hall.
  - destruct (Js.all_chars _ (String b r)) eqn:Hline; [|discriminate].
    injection H as <-.
    split; [reflexivity|]. split; [exact Hline|].
    exists ws. split; [exact Hws|].
    change (String ">" rest = String ">" (ws +:+ String b r)). f_equal. exact Hrest.
Qed.

Lemma matchSubmission_captures_rest_of_line_witness :
  Js.nonempty "go north" = true
  ∧ Js.all_chars (fun x => negb (Js.is_line_terminator x)) "go north" = true
  ∧ ∃ ws, Js.all_chars Js.is_space ws = true ∧ ">  go north" = ">" +:+ ws +:+ "go north".
Proof.
  apply (matchSubmission_captures_rest_of_line ">  go north" "go north").
  vm_compute. reflexivity.
Defined.

(** X11: in the vote phase a line [>], optional white space, then a text that
    starts with a visible character and holds no line break, is passed
    to [handleSubmission] with the text trimmed at its end, for any
    viewer on Twitch and on YouTube alike. *)
Theorem submission_line_records_trimmed_text
    (now : Z) (w : World) (user ws : string) (c : ascii) (r : string)
    (broadcaster moderator : bool) :
  phase (state w) = vote ->
  Js.all_chars Js.is_space ws = true ->
  Js.is_space c = false ->
  Js.all_chars (fun x => negb (Js.is_line_terminator x)) (String c r) = true ->
  let line := ">" +:+ ws +:+ String c r in
  let w' :=
    Index.broadcastState
      (with_state
         (fun st =>
            Voting.handleSubmission now st user (Js.trimEnd (String c r))
              (debugMode (config st))) w) in
  Index.handleTwitchChatMessage now w (mkTwitchMessage user line broadcaster moderator)
  = w'
  ∧ Index.handleYouTubeChatMessage now w user line = w'.
Proof.
  intros Hph Hws Hc Hline line w'.
  pose proof (matchSubmission_body ws c r Hws Hc Hline) as Hm. fold line in Hm.
  assert (Hcmd : isCommand line = false).
  { apply vote_or_submission_not_command. right. congruence. }
  destruct (chat_line_parsed now w (mkTwitchMessage user line broadcaster moderator)
              Hcmd Hph) as [Htw Hyt]. simpl in Htw, Hyt.
  rewrite Htw, Hyt.
  unfold Index.parseVoteOrSubmission. rewrite Hm.
  assert (Hv : Index.matchVote line = None) by reflexivity.
  rewrite Hv.
  assert (Htrim : Js.trim (String c r) = Js.trimEnd (String c r)).
  { unfold Js.trim. simpl Js.trimStart. rewrite Hc. reflexivity. }
  rewrite Htrim. auto.
Qed.

Lemma submission_line_records_trimmed_text_witness :
  let line := ">" +:+ "  " +:+ String "r" "un  " in
  let w' :=
    Index.broadcastState
      (with_state
         (fun st =>
            Voting.handleSubmission 100 st "ann" (Js.trimEnd (String "r" "un  "))
              (debugMode (config st))) votingWorld) in
  Index.handleTwitchChatMessage 100 votingWorld (mkTwitchMessage "ann" line false false)
  = w'
  ∧ Index.handleYouTubeChatMessage 100 votingWorld "ann" line = w'.
Proof.
  apply (submission_line_records_trimmed_text 100 votingWorld "ann" "  " "r" "un  "
           false false); vm_compute; reflexivity.
Defined.

(** X12: a line [>] followed by white space only, or by nothing, never
    changes the state, in any phase and for any viewer. *)
Theorem blank_submission_line_ignored
    (now : Z) (w : World) (user ws : string) (broadcaster moderator : bool) :
  Js.all_chars Js.is_space ws = true ->
  state (Index.handleTwitchChatMessage now w
           (mkTwitchMessage user (">" +:+ ws) broadcaster moderator)) = state w
  ∧ state (Index.handleYouTubeChatMessage now w user (">" +:+ ws)) = state w.
Proof.
  intros Hws.
  change (">" +:+ ws) with (String ">" ws).
  assert (Hparse : state (Index.parseVoteOrSubmission now w user (String ">" ws))
                   = state w).
  { unfold Index.parseVoteOrSubmission.
    assert (Hv : Index.matchVote (String ">" ws) = None) by reflexivity.
    rewrite Hv. unfold Index.matchSubmission.
    rewrite (trimStart_all_space ws Hws).
    destruct (Index.lastChar ws) as [c|] eqn:Hlast; [|reflexivity].
    destruct (Js.is_line_terminator c); [reflexivity|].
    pose proof (lastChar_all _ _ _ Hws Hlast) as Hc.
    unfold Js.trim. simpl. rewrite Hc. simpl.
    destruct (state w); reflexivity. }
  unfold Index.handleTwitchChatMessage, Index.handleYouTubeChatMessage.
  assert (Hvote : String.eqb (Js.toLowerCase (String ">" ws)) "!vote" = false)
    by reflexivity.
  assert (Htally : String.eqb (Js.toLowerCase (String ">" ws)) "!tally" = false)
    by reflexivity.
  simpl msgText. simpl msgUser. rewrite Hvote, Htally.
  destruct (negb _); auto.
Qed.

Lemma blank_submission_line_ignored_witness :
  state (Index.handleTwitchChatMessage 100 votingWorld
           (mkTwitchMessage "ann" (">" +:+ "   ") false false)) = state votingWorld
  ∧ state (Index.handleYouTubeChatMessage 100 votingWorld "ann" (">" +:+ "   "))
    = state votingWorld.
Proof.
  apply (blank_submission_line_ignored 100 votingWorld "ann" "   " false false).
  vm_compute. reflexivity.
Defined.



End ChatLines.

(** * The phase cycle *)
Section PhaseCycle.
Import Examples.

Lemma handleStartVote_phase (now : Z) (w : World) (p : Phase) :
  phase (state w) = p ->
  phase (state (Index.handleStartVote now w)) = p
  ∨ (p = idle ∧ phase (state (Index.handleStartVote now w)) = vote).
Proof.
  intros <-. destruct (handleStartVote_ledger now w) as [Hidle Hother].
  destruct (decide (phase (state w) = idle)) as [H|H].
  - right. split; [exact H | apply (Hidle H)].
  - left. apply (Hother H).
Qed.

Lemma handleEndVote_phase (w : World) (p : Phase) :
  phase (state w) = p ->
  phase (state (Index.handleEndVote w)) = p
  ∨ (p = vote ∧ phase (state (Index.handleEndVote w)) = combine).
Proof.
  intros <-. destruct (handleEndVote_ledger w) as (_ & Hvote & Hother).
  destruct (decide (phase (state w) = vote)) as [H|H].
  - right. split; [exact H | apply (Hvote H)].
  - left. apply (Hother H).
Qed.

(** X14: one step of the event loop leaves the phase as it is or moves it one
    place along the cycle idle, vote, combine, idle; and only the end of
    the combine step leaves the combine phase. *)
Theorem phase_moves_along_the_cycle
    (w : World) (now : Z) (e : Index.Event) (w' : World) :
  Index.step w now e w' ->
  phase (state w') = phase (state w)
  ∨ (phase (state w) = idle ∧ phase (state w') = vote)
  ∨ (phase (state w) = vote ∧ phase (state w') = combine)
  ∨ (phase (state w) = combine ∧ phase (state w') = idle
     ∧ ∃ deps, e = Index.CombineSettled deps).
Proof.
  intros Hstep.
  assert (Hstart : ∀ w1, phase (state w1) = phase (state w) ->
            phase (state (Index.handleStartVote now w1)) = phase (state w)
            ∨ (phase (state w) = idle
               ∧ phase (state (Index.handleStartVote now w1)) = vote)).
  { intros w1 H1. apply handleStartVote_phase, H1. }
  assert (Hend : ∀ w1, phase (state w1) = phase (state w) ->
            phase (state (Index.handleEndVote w1)) = phase (state w)
            ∨ (phase (state w) = vote
               ∧ phase (state (Index.handleEndVote w1)) = combine)).
  { intros w1 H1. apply handleEndVote_phase, H1. }
  assert (Hparse : ∀ user text,
            phase (state (Index.parseVoteOrSubmission now w user text))
            = phase (state w)).
  { intros user text. apply parseVoteOrSubmission_ledger. }
  destruct Hstep.
  - unfold Index.handleTwitchChatMessage.
    destruct (String.eqb _ "!vote").
    { destruct (_ || _); [|auto].
      destruct (Hstart w eq_refl) as [Hsame|Hmove]; auto. }
    destruct (String.eqb _ "!tally").
    { destruct (_ || _); [|auto].
      destruct (Hend w eq_refl) as [Hsame|Hmove]; auto. }
    destruct (negb _); auto.
  - unfold Index.handleYouTubeChatMessage. destruct (negb _); auto.
  - auto.
  - destruct (Hstart w eq_refl) as [Hsame|Hmove]; auto.
  - destruct (Hend w eq_refl) as [Hsame|Hmove]; auto.
  - left. apply handleTogglePause_ledger.
  - destruct (callback t) as [h|h]; destruct h; simpl.
    + destruct (Hstart (Index.expire (handle t) w) eq_refl) as [Hsame|Hmove]; auto.
    + destruct (Hend (Index.expire (handle t) w) eq_refl) as [Hsame|Hmove]; auto.
    + destruct (Hstart (with_state (set_autoRepeatTimer None)
                          (with_state (set_nextVoteStartTime None)
                             (Index.expire (handle t) w))) eq_refl) as [Hsame|Hmove]; auto.
    + destruct (Hend (with_state (set_autoRepeatTimer None)
                        (with_state (set_nextVoteStartTime None)
                           (Index.expire (handle t) w))) eq_refl) as [Hsame|Hmove]; auto.
  - right. right. right. split; [assumption|].
    split; [apply combineAndSubmit_ledger | eauto].
  - auto.
  - auto.
Qed.

Lemma phase_moves_along_the_cycle_witness :
  let w' := Index.combineAndSubmit 300 okDeps combiningWorld in
  phase (state w') = phase (state combiningWorld)
  ∨ (phase (state combiningWorld) = idle ∧ phase (state w') = vote)
  ∨ (phase (state combiningWorld) = vote ∧ phase (state w') = combine)
  ∨ (phase (state combiningWorld) = combine ∧ phase (state w') = idle
     ∧ ∃ deps, Index.CombineSettled okDeps = Index.CombineSettled deps).
Proof.
  apply (phase_moves_along_the_cycle combiningWorld 300
           (Index.CombineSettled okDeps)).
  apply Index.step_combine. vm_compute. reflexivity.
Defined.

End PhaseCycle.

(** * The shape of the ledger *)
Section LedgerShape.
Import Examples.

(** X5: votes are counted without regard to letter case: two spellings of
    the voter and of the target that agree in lower case cast the same
    vote. *)
Theorem handleVote_ignores_letter_case
    (st : State) (voter1 voter2 target1 target2 : string) (debugMode : bool) :
  Js.toLowerCase voter1 = Js.toLowerCase voter2 ->
  Js.toLowerCase target1 = Js.toLowerCase target2 ->
  Voting.handleVote st voter1 target1 debugMode
  = Voting.handleVote st voter2 target2 debugMode.
Proof.
  intros Hv Ht. unfold Voting.handleVote, Voting.same_user. rewrite Hv, Ht.
  reflexivity.
Qed.

Lemma handleVote_ignores_letter_case_witness :
  Voting.handleVote tiedLedger "Frank" "c" false
  = Voting.handleVote tiedLedger "FRANK" "C" false.
Proof.
  apply (handleVote_ignores_letter_case tiedLedger "Frank" "FRANK" "c" "C" false);
    vm_compute; reflexivity.
Defined.

Lemma length_check_passed (text : string) :
  ((String.length text =? 0) || (MAX_SUBMISSION_LENGTH <? String.length text))%nat
  = false ->
  acceptable text.
Proof.
  intros H. apply orb_false_iff in H as [Hlo Hhi].
  apply Nat.eqb_neq in Hlo. apply Nat.ltb_ge in Hhi.
  unfold acceptable. lia.
Qed.

Lemma ledger_operations_keep_shape (st : State) :
  Forall (fun s => acceptable (text s) ∧ userKey s ∈ votes s) (submissions st) ->
  (∀ now user body debugMode,
      Forall (fun s => acceptable (text s) ∧ userKey s ∈ votes s)
        (submissions (Voting.handleSubmission now st user body debugMode)))
  ∧ (∀ voter target debugMode,
        Forall (fun s => acceptable (text s) ∧ userKey s ∈ votes s)
          (submissions (Voting.handleVote st voter target debugMode))).
Proof.
  intros Hall. split.
  - intros now user body debugMode. unfold Voting.handleSubmission.
    destruct (_ || _) eqn:Hlen; [exact Hall|].
    apply length_check_passed in Hlen.
    assert (Happ :
      Forall (fun s => acceptable (text s) ∧ userKey s ∈ votes s)
        (submissions st
         ++ [mkSubmission user body now {[Js.toLowerCase user]} None])).
    { apply Forall_app. split; [exact Hall|].
      apply Forall_singleton. split; [exact Hlen|].
      unfold userKey. simpl. apply elem_of_singleton. reflexivity. }
    destruct debugMode; [exact Happ|].
    destruct (Js.find_index _ _) as [[i existing]|] eqn:Hf; simpl; [|exact Happ].
    destruct (find_index_spec _ _ _ _ Hf) as [Hi _].
    apply Forall_insert; [exact Hall|].
    pose proof (proj1 (Forall_lookup _ _) Hall i existing Hi) as [_ Hown].
    split; [exact Hlen|]. unfold userKey in *. simpl.
    apply elem_of_union. right. exact Hown.
  - intros voter target debugMode. unfold Voting.handleVote.
    destruct (Js.find_index _ _) as [[i s]|] eqn:Hf; [|exact Hall].
    destruct (find_index_spec _ _ _ _ Hf) as [Hi _].
    pose proof (proj1 (Forall_lookup _ _) Hall i s Hi) as [Htext Hown].
    destruct (_ || _); [|exact Hall]. simpl.
    apply Forall_insert; [exact Hall|].
    destruct (_ && _); (split; [exact Htext|]); unfold userKey in *; simpl;
      apply elem_of_union; right; exact Hown.
Qed.

(** X7: in every reachable world each submission of the ledger has a text of
    1 to 200 characters and counts its author among its voters. *)
Theorem reachable_submissions_well_formed (w : World) (s : Submission) :
  Index.reachable w ->
  s ∈ submissions (state w) ->
  acceptable (text s) ∧ userKey s ∈ votes s.
Proof.
  intros Hr Hs.
  assert (Hall : Forall (fun s => acceptable (text s) ∧ userKey s ∈ votes s)
                   (submissions (state w))).
  { clear Hs. induction Hr as [|w now e w' _ IH Hstep]; [constructor|].
    destruct (ledger_operations_keep_shape (state w) IH) as [Hsub Hvote].
    destruct (step_ledger_change w now e w' Hstep)
      as [->|[->|[(u & t & d & ->)|(v & tg & d & ->)]]]; auto. }
  exact (proj1 (Forall_forall _ _) Hall s Hs).
Qed.

Lemma reachable_submissions_well_formed_witness :
  acceptable (text (mkSubmission "alice" "open the door" 100 {["alice"]} None))
  ∧ userKey (mkSubmission "alice" "open the door" 100 {["alice"]} None)
    ∈ votes (mkSubmission "alice" "open the door" 100 {["alice"]} None).
Proof.
  apply (reachable_submissions_well_formed combiningWorld _ combiningWorld_reachable).
  vm_compute. apply list_elem_of_here.
Defined.

End LedgerShape.

(** * What the combine step sends *)
Section CombineOutcome.
Import Examples.






End CombineOutcome.

(** * Durations *)
Section Durations.
Import Examples.

(** X23: a vote started from the idle phase lasts the configured number of
    seconds, and at least 5 seconds whatever is configured: the timer
    that ends the vote is pending under a fresh handle with that delay,
    and the deadline shown is its expiry. *)
Theorem started_vote_lasts_at_least_minimum (now : Z) (w : World) :
  phase (state w) = idle ->
  let w' := Index.handleStartVote now w in
  let d := Z.max (voteDurationSeconds (config (state w))) 5 * 1000 in
  5000 <= d
  ∧ voteEndTime (state w') = Some (now + d)
  ∧ voteTimer (state w') = Some (nextHandle w)
  ∧ mkTimeout (nextHandle w) (Direct HandleEndVote) now d ∈ timeouts w'.
Proof.
  intros Hph. destruct w as [st tos nh eff]. destruct st. simpl in *. subst.
  unfold Index.handleStartVote, StateOps.transitionToVote,
    StateOps.clearAutoRepeatTimer, Voting.setVoteTimer, MIN_VOTE_DURATION_SECONDS.
  destruct autoRepeatTimer0; simpl;
    (split; [lia|]); repeat split;
    apply elem_of_app; right; apply list_elem_of_here.
Qed.

Lemma started_vote_lasts_at_least_minimum_witness :
  let w' := Index.handleStartVote 100 hastyWorld in
  let d := Z.max (voteDurationSeconds (config (state hastyWorld))) 5 * 1000 in
  5000 <= d
  ∧ voteEndTime (state w') = Some (100 + d)
  ∧ voteTimer (state w') = Some (nextHandle hastyWorld)
  ∧ mkTimeout (nextHandle hastyWorld) (Direct HandleEndVote) 100 d ∈ timeouts w'.
Proof.
  apply (started_vote_lasts_at_least_minimum 100 hastyWorld). reflexivity.
Defined.

(** X24: the next vote is scheduled the configured cooldown after the
    instant of the call, and at least 20 seconds after it: the timer is
    pending under a fresh handle with that delay, and the next start
    shown is its expiry. *)
Theorem auto_repeat_waits_at_least_minimum (now interval : Z) (w : World) :
  isPaused (state w) = false ->
  autoRepeatCooldownSeconds (config (state w)) = Some interval ->
  interval ≠ 0 ->
  let w' := Index.scheduleAutoRepeat now w in
  let d := Z.max interval 20 * 1000 in
  20000 <= d
  ∧ nextVoteStartTime (state w') = Some (now + d)
  ∧ autoRepeatTimer (state w') = Some (nextHandle w)
  ∧ mkTimeout (nextHandle w) (AutoRepeatThen HandleStartVote) now d ∈ timeouts w'.
Proof.
  intros Hp Hc Hi. unfold Index.scheduleAutoRepeat, MIN_AUTO_REPEAT_SECONDS.
  rewrite Hp, Hc. apply Z.eqb_neq in Hi. rewrite Hi. simpl.
  split; [lia|]. repeat split.
  apply elem_of_app. right. apply list_elem_of_here.
Qed.

Lemma auto_repeat_waits_at_least_minimum_witness :
  let w' := Index.scheduleAutoRepeat 100 hastyWorld in
  let d := Z.max 3 20 * 1000 in
  20000 <= d
  ∧ nextVoteStartTime (state w') = Some (100 + d)
  ∧ autoRepeatTimer (state w') = Some (nextHandle hastyWorld)
  ∧ mkTimeout (nextHandle hastyWorld) (AutoRepeatThen HandleStartVote) 100 d
    ∈ timeouts w'.
Proof.
  apply (auto_repeat_waits_at_least_minimum 100 3 hastyWorld);
    [reflexivity | reflexivity | lia].
Defined.

Lemma pause_resume_vote_exact_witness :
  let w1 := Index.handleTogglePause 15000 votingWorld in
  let w2 := Index.handleTogglePause 60000 w1 in
  voteEndTime (state w2) = Some (60000 + Z.max 0 (40000 - 15000))
  ∧ timeouts w2
    = timeouts w1
      ++ [mkTimeout (nextHandle w1) (Direct HandleEndVote) 60000
            (Z.max 0 (40000 - 15000))]
  ∧ voteTimer (state w2) = Some (nextHandle w1)
  ∧ pausedVoteRemaining (state w2) = None
  ∧ isPaused (state w2) = false.
Proof.
  apply (pause_resume_vote_exact 15000 60000 40000 votingWorld);
    [reflexivity | reflexivity | lia | reflexivity | lia].
Defined.

Lemma pause_resume_auto_repeat_exact_witness :
  let w1 := Index.handleTogglePause 11000 repeatingSession in
  let w2 := Index.handleTogglePause 90000 w1 in
  nextVoteStartTime (state w2) = Some (90000 + Z.max 0 (31000 - 11000))
  ∧ timeouts w2
    = timeouts w1
      ++ [mkTimeout (nextHandle w1) (AutoRepeatThen HandleStartVote) 90000
            (Z.max 0 (31000 - 11000))]
  ∧ autoRepeatTimer (state w2) = Some (nextHandle w1)
  ∧ pausedAutoRepeatRemaining (state w2) = None
  ∧ isPaused (state w2) = false.
Proof.
  apply (pause_resume_auto_repeat_exact 11000 90000 31000 repeatingSession);
    [reflexivity | reflexivity | lia | reflexivity | lia].
Defined.

Lemma handleStartVote_cancels_auto_repeat_reachable_witness :
  ¬ pending 2 (Index.handleStartVote 2000 repeatingSession).
Proof.
  apply (handleStartVote_cancels_auto_repeat_reachable 2000 repeatingSession 2).
  - apply reachableInTime_reachable, repeatingSession_inTime.
  - reflexivity.
Defined.

End Durations.

(** * The merge without a key, and its depth *)
Section MergeDepth.
Import Examples OpenRouter.

Variable fetchCompletion : nat -> Request -> Completion string.
Variable completedAt : nat -> Z.

Local Open Scope nat_scope.

Lemma callOpenRouter_without_key net config systemPrompt userPrompt :
  Js.nonempty (openRouterApiKey config) = false ->
  callOpenRouter fetchCompletion net config systemPrompt userPrompt
  = (Rejected "OpenRouter API key not configured", net).
Proof. intros H. unfold callOpenRouter. rewrite H. reflexivity. Qed.

Lemma mergeBatches_without_key net config storyContext lastAIOutput party
    systemPrompt batches idx :
  Js.nonempty (openRouterApiKey config) = false ->
  mergeBatches fetchCompletion completedAt net config storyContext lastAIOutput
    party systemPrompt batches idx
  = (map (fun _ => Rejected "OpenRouter API key not configured") batches, net).
Proof.
  intros Hkey. revert idx. induction batches as [|b rest IH]; intros idx; simpl.
  - reflexivity.
  - unfold mergeBatch. rewrite callOpenRouter_without_key by assumption.
    rewrite IH. reflexivity.
Qed.

(** X27: without an API key the merge of any list but a single submission
    fails with the message that the key is not configured, and no
    request is issued, however many batches the list makes. *)
Theorem recursiveMerge_without_key_rejects
    (fuel : nat) (net : Net) (config : Config) (context : option AIDContext)
    (submissions : list Submission) (lastAIOutput : option string) :
  Js.nonempty (openRouterApiKey config) = false ->
  length submissions ≠ 1 ->
  recursiveMerge fetchCompletion completedAt (S fuel) net config context
    submissions lastAIOutput
  = Some (Rejected "OpenRouter API key not configured", net).
Proof.
  intros Hkey Hlen.
  rewrite (recursiveMerge_unfold fetchCompletion completedAt) by assumption.
  destruct (length submissions <=? batchSize) eqn:Hb.
  - rewrite callOpenRouter_without_key by assumption. reflexivity.
  - apply Nat.leb_gt in Hb. cbv zeta.
    rewrite mergeBatches_without_key by assumption. simpl fst. simpl snd.
    pose proof batchSize_value as Hv.
    pose proof (splitBatches_many batchSize submissions ltac:(lia) Hb) as Hmany.
    destruct (splitBatches batchSize submissions) as [|b rest];
      [simpl in Hmany; lia|].
    reflexivity.
Qed.

(** X28: fuel [k + 1] is enough for at most [320 ^ k] submissions: one round
    of batches divides the number of submissions by the batch size. *)
Theorem recursiveMerge_rounds_logarithmic (k : nat) :
  ∀ (net : Net) (config : Config) (context : option AIDContext)
    (submissions : list Submission) (lastAIOutput : option string),
    length submissions <= batchSize ^ k ->
    is_Some (recursiveMerge fetchCompletion completedAt (S k) net config context
               submissions lastAIOutput).
Proof.
  pose proof batchSize_value as Hv.
  induction k as [|k IH]; intros net config context submissions lastAIOutput Hlen;
    (destruct (decide (length submissions = 1)) as [H1|H1];
     [destruct submissions as [|a [|b rest]]; simpl in H1; try congruence;
      simpl; eauto|]);
    rewrite (recursiveMerge_unfold fetchCompletion completedAt) by assumption.
  - simpl in Hlen.
    assert (Hsmall : (length submissions <=? batchSize) = true)
      by (apply Nat.leb_le; lia).
    rewrite Hsmall.
    destruct (callOpenRouter _ _ _ _ _) as [[r|m] net']; eauto.
  - destruct (length submissions <=? batchSize) eqn:Hb.
    { destruct (callOpenRouter _ _ _ _ _) as [[r|m] net']; eauto. }
    apply Nat.leb_gt in Hb. cbv zeta.
    destruct (promiseAll _) as [inter|m] eqn:Hall; [|eauto].
    apply IH.
    apply promiseAll_resolved in Hall.
    apply (f_equal length) in Hall.
    rewrite mergeBatches_length, length_fmap in Hall.
    pose proof (batchLoop_count (length submissions) 0 batchSize submissions) as Hcnt.
    fold (splitBatches batchSize submissions) in Hcnt. cbv zeta in Hcnt.
    rewrite <- Hall.
    rewrite Nat.pow_succ_r' in Hlen.
    set (n := length (splitBatches batchSize submissions)) in *.
    set (p := batchSize ^ k) in *.
    rewrite Hv in *.
    destruct Hcnt as [Hcnt|Hcnt]; [|lia].
    assert (0 < p); [|lia].
    destruct (Nat.eq_dec p 0) as [Hp|Hp]; [|lia]. rewrite Hp in Hlen. lia.
Qed.

End MergeDepth.

Section MergeDepthExamples.
Import Examples OpenRouter.

Local Open Scope nat_scope.

Lemma recursiveMerge_without_key_rejects_witness :
  recursiveMerge echoFetch tickClock 1 quietNet
    (mkConfig "" DEFAULT_MODEL 40 150 false "" "" None) None (crowd 700) None
  = Some (Rejected "OpenRouter API key not configured", quietNet).
Proof.
  apply (recursiveMerge_without_key_rejects echoFetch tickClock 0 quietNet
           (mkConfig "" DEFAULT_MODEL 40 150 false "" "" None) None (crowd 700) None).
  - reflexivity.
  - unfold crowd. rewrite length_replicate. lia.
Defined.

Lemma recursiveMerge_rounds_logarithmic_witness :
  is_Some (recursiveMerge echoFetch tickClock 3 quietNet blendConfig None
             (crowd 700) None).
Proof.
  apply (recursiveMerge_rounds_logarithmic echoFetch tickClock 2 quietNet
           blendConfig None (crowd 700) None).
  unfold crowd. rewrite length_replicate.
  apply Nat.leb_le. vm_compute. reflexivity.
Defined.

End MergeDepthExamples.

(** * The story context of the prompt *)
Section StoryContext.
Import Examples OpenRouter.

(** X29: a section of type [instructions] or [authorsNote], and a section
    with an empty text, has no part in the story context: the context
    extracted is the same with the section or without it, wherever it
    stands. *)
Theorem extractStoryContext_skips_sections
    (before after : list ContextSection) (s : ContextSection) :
  sectionType s = "instructions" ∨ sectionType s = "authorsNote"
  ∨ sectionText s = "" ->
  extractStoryContext (Some (mkContext (Some (before ++ s :: after))))
  = extractStoryContext (Some (mkContext (Some (before ++ after)))).
Proof.
  intros Hs.
  assert (Hk : keptSection s = false).
  { unfold keptSection, SKIP_SECTIONS.
    destruct Hs as [-> | [-> | ->]]; [reflexivity|reflexivity|].
    apply andb_false_r. }
  unfold extractStoryContext. cbn [contextSections]. cbv beta iota zeta.
  rewrite !List.filter_app. cbn [List.filter]. rewrite Hk. reflexivity.
Qed.

Lemma extractStoryContext_skips_sections_witness :
  extractStoryContext
    (Some (mkContext
             (Some ([mkSection "storySummary" "A tavern."]
                    ++ mkSection "authorsNote" "Be grim."
                       :: [mkSection "recentStory" "The door creaks."]))))
  = extractStoryContext
      (Some (mkContext
               (Some ([mkSection "storySummary" "A tavern."]
                      ++ [mkSection "recentStory" "The door creaks."])))).
Proof.
  apply (extractStoryContext_skips_sections
           [mkSection "storySummary" "A tavern."]
           [mkSection "recentStory" "The door creaks."]
           (mkSection "authorsNote" "Be grim.")).
  right. left. reflexivity.
Defined.

End StoryContext.
